(** * YouTube comment sentiment pipeline: a shallow embedding

    The development follows [src/mainprocess.py] (fetch, clean, label,
    persist) and the three readers ([src/analyze_eval.py],
    [src/app_streamlit.py], [check_processed.py]).

    Python values are modelled as follows.
    - [str] is a sequence of Unicode code points: [list N].
    - [float] is IEEE 754 binary64: Rocq's primitive [float].
    - [int] is unbounded: [Z].
    - [None]-able dictionary fields read through [dict.get] are [option]s.
    - External libraries (the platform SDK, the language detector, the
      sentiment lexicon, the date parser, the word-cloud renderer) are
      parameters: an answer script for the HTTP calls, functions for the
      rest.
    - The clock is a parameter of [run]; the file system is the list of
      the files by path, the most recently written first, and whether a
      write succeeds is a parameter too.
    - Paths are [pathlib]'s on POSIX: a string joined to a directory is
      split at its slashes.
    - Logging is left out. *)

From Stdlib Require Import Strings.Ascii Strings.String.
From Stdlib Require Import Bool Arith ZArith NArith Lia.
From Stdlib Require Import Floats.
From Stdlib Require Import List.
Import ListNotations.

(** ** Text: Python [str] as a list of code points *)

Module Text.

Definition str := list N.

(** A source literal, character by character. *)
Definition lit (s : string) : str := map N_of_ascii (list_ascii_of_string s).
Arguments lit s%_string.

Definition space : N := 32%N.

(** [Py_UNICODE_ISSPACE]: the set used by [str.strip], [str.isspace] and by
    [\s] in a [str] pattern of [re]. *)
Definition isspace (c : N) : bool :=
  ((9 <=? c) && (c <=? 13) || (28 <=? c) && (c <=? 32)
   || (c =? 133) || (c =? 160) || (c =? 5760)
   || (8192 <=? c) && (c <=? 8202)
   || (c =? 8232) || (c =? 8233) || (c =? 8239) || (c =? 8287)
   || (c =? 12288))%N.

Definition nonspace (c : N) : bool := negb (isspace c).

Fixpoint lstrip (s : str) : str :=
  match s with
  | [] => []
  | c :: s' => if isspace c then lstrip s' else s
  end.

Definition rstrip (s : str) : str := rev (lstrip (rev s)).

(** [s.strip()] *)
Definition strip (s : str) : str := rstrip (lstrip s).

(** Truth value of a [str]: non-empty. *)
Definition truthy (s : str) : bool :=
  match s with [] => false | _ :: _ => true end.

Fixpoint str_eqb (a b : str) : bool :=
  match a, b with
  | [], [] => true
  | x :: a', y :: b' => (x =? y)%N && str_eqb a' b'
  | _, _ => false
  end.

(** [a <= b] on [str]: lexicographic on code points. *)
Fixpoint str_leb (a b : str) : bool :=
  match a, b with
  | [], _ => true
  | _ :: _, [] => false
  | x :: a', y :: b' =>
      if (x <? y)%N then true
      else if (x =? y)%N then str_leb a' b' else false
  end.

Fixpoint starts_with (p s : str) : bool :=
  match p, s with
  | [], _ => true
  | _ :: _, [] => false
  | x :: p', y :: s' => (x =? y)%N && starts_with p' s'
  end.

(** [s.endswith(p)] *)
Definition ends_with (p s : str) : bool := starts_with (rev p) (rev s).

(** [sep.join(parts)] *)
Fixpoint join (sep : str) (parts : list str) : str :=
  match parts with
  | [] => []
  | [p] => p
  | p :: rest => p ++ sep ++ join sep rest
  end.

End Text.
Import Text.

(** ** The fragment of [re] used by [clean_text] *)

Module Re.

(** A compiled pattern tried at the head of the remaining input: the length
    of the match it finds there, if any.  The three patterns of the source
    are built from literals, ordered alternation and a greedy [+] over a
    character class in final position, so the first match the backtracking
    engine reports is the one computed here. *)
Definition pattern := str -> option nat.

Definition p_lit (p : str) : pattern :=
  fun s => if starts_with p s then Some (length p) else None.

(** Length of the longest prefix inside the class. *)
Fixpoint span (cls : N -> bool) (s : str) : nat :=
  match s with
  | [] => 0
  | c :: s' => if cls c then S (span cls s') else 0
  end.

(** [[cls]+], greedy. *)
Definition p_plus (cls : N -> bool) : pattern :=
  fun s => match span cls s with 0 => None | S n => Some (S n) end.

Definition p_seq (a b : pattern) : pattern :=
  fun s =>
    match a s with
    | Some n =>
        match b (skipn n s) with
        | Some k => Some (n + k)
        | None => None
        end
    | None => None
    end.

(** [a|b]: the left alternative has priority. *)
Definition p_alt (a b : pattern) : pattern :=
  fun s => match a s with Some n => Some n | None => b s end.

(** Does the pattern match (a non-empty string) at the head of [s]? *)
Definition matches_at (p : pattern) (s : str) : bool :=
  match p s with Some (S _) => true | _ => false end.

(** [re.sub(p, repl, s)] for a pattern that never matches the empty
    string: scan left to right, replace each match and resume after it.
    [skip] counts the characters of the current match still to be dropped. *)
Fixpoint sub_from (p : pattern) (repl : str) (skip : nat) (s : str) : str :=
  match s with
  | [] => []
  | c :: s' =>
      match skip with
      | S k => sub_from p repl k s'
      | O =>
          match p s with
          | Some (S k) => repl ++ sub_from p repl k s'
          | _ => c :: sub_from p repl 0 s'
          end
      end
  end.

Definition sub (p : pattern) (repl : str) (s : str) : str :=
  sub_from p repl 0 s.

(** [re.search(p, s)]: the index of the leftmost match, or [None]. *)
Fixpoint search (p : pattern) (s : str) : option nat :=
  match s with
  | [] => None
  | _ :: s' =>
      if matches_at p s then Some 0 else option_map S (search p s')
  end.

End Re.

(** ** [clean_text] and [safe_lang] *)

(** [r"http\S+|www\.\S+"] *)
Definition url_re : Re.pattern :=
  Re.p_alt (Re.p_seq (Re.p_lit (lit "http")) (Re.p_plus nonspace))
           (Re.p_seq (Re.p_lit (lit "www.")) (Re.p_plus nonspace)).

(** [r"&amp;|&lt;|&gt;"] *)
Definition entity_re : Re.pattern :=
  Re.p_alt (Re.p_lit (lit "&amp;"))
           (Re.p_alt (Re.p_lit (lit "&lt;")) (Re.p_lit (lit "&gt;"))).

(** [r"\s+"] *)
Definition ws_re : Re.pattern := Re.p_plus isspace.

Definition clean_text (t : str) : str :=
  let t := Re.sub url_re [space] t in
  let t := Re.sub entity_re [space] t in
  let t := strip (Re.sub ws_re [space] t) in
  t.

(** Exceptions the code distinguishes.  All of them derive from
    [Exception], so a bare [except Exception] catches each. *)
Inductive exn :=
| HttpError
| RuntimeError
| FileNotFoundError
| ValueError
| LangDetectException
| OtherException.

Inductive result (A : Type) :=
| Ok (a : A)
| Raise (e : exn).
Arguments Ok {A} a.
Arguments Raise {A} e.

Definition bind {A B} (r : result A) (k : A -> result B) : result B :=
  match r with Ok a => k a | Raise e => Raise e end.

Notation "x <- r ;; k" := (bind r (fun x => k))
  (at level 61, r at next level, right associativity).

(** [try: body / except Exception: handler] *)
Definition try_except {A} (body : result A) (handler : exn -> result A)
  : result A :=
  match body with Ok a => Ok a | Raise e => handler e end.

(** [series.apply(f)] for an [f] that may raise: row by row, the first
    exception propagates. *)
Fixpoint apply {A B} (f : A -> result B) (l : list A) : result (list B) :=
  match l with
  | [] => Ok []
  | a :: l' => b <- f a ;; bs <- apply f l' ;; Ok (b :: bs)
  end.

Definition unknown : str := lit "unknown".

Section SafeLang.

(** [langdetect.detect] *)
Variable detect : str -> result str.

Definition safe_lang (s : str) : result str :=
  try_except
    (if truthy (strip s) then detect s else Ok unknown)
    (fun _ => Ok unknown).

End SafeLang.

(** ** The comment-threads API and [fetch_comments] *)

Module Api.

(** The ["snippet"] object of a comment resource. *)
Record snippet := {
  sn_id : option str;
  authorDisplayName : option str;
  textDisplay : option str;
  likeCount : option Z;
  publishedAt : option str
}.

(** [{}]: what [.get("snippet", {})] yields when the key is absent. *)
Definition empty_snippet : snippet :=
  {| sn_id := None; authorDisplayName := None; textDisplay := None;
     likeCount := None; publishedAt := None |}.

(** A comment resource: [{"id": ..., "snippet": {...}}]. *)
Record comment_resource := {
  cr_id : option str;
  cr_snippet : option snippet
}.

Definition empty_resource : comment_resource :=
  {| cr_id := None; cr_snippet := None |}.

(** One element of ["items"].  [topLevelComment] is
    [item["snippet"]["topLevelComment"]]; [replies] is
    [item["replies"]["comments"]], [None] when ["replies"] is absent or
    empty. *)
Record thread := {
  topLevelComment : option comment_resource;
  replies : option (list comment_resource)
}.

Record response := {
  items : option (list thread);
  nextPageToken : option str
}.

(** What one [.execute()] does. *)
Inductive outcome :=
| Response (r : response)
| Raises (e : exn).

End Api.
Import Api.

(** A fetched record: the dict appended to [comments]. *)
Record comment := {
  comment_id : option str;
  author : option str;
  comment_text : option str;
  likes : Z;
  published : option str;
  video_id : str;
  parent_id : option str;
  raw : snippet
}.

(** [a or b] on optional strings: [None] and [""] are false. *)
Definition py_or (a b : option str) : option str :=
  match a with
  | Some (_ :: _) => a
  | _ => b
  end.

(** [not token] *)
Definition falsy (t : option str) : bool :=
  match t with
  | Some (_ :: _) => false
  | _ => true
  end.

(** [d.get(key, default)] *)
Definition get_or {A} (o : option A) (default : A) : A :=
  match o with Some a => a | None => default end.

(** [l[:n]] *)
Definition slice_to {A} (l : list A) (n : Z) : list A :=
  if (n <? 0)%Z
  then firstn (Z.to_nat (Z.of_nat (length l) + n)) l
  else firstn (Z.to_nat n) l.

(** What the loop does besides computing: the HTTP calls with the page
    token they carry, and the sleeps (in milliseconds). *)
Inductive event :=
| ListCall (pageToken : option str)
| Sleep (ms : Z).

(** How [fetch_comments] ends.  [Pending]: the answer script ran out while
    a call was outstanding. *)
Inductive final :=
| Returned (comments : list comment)
| Raised (e : exn)
| Pending.

Definition fetch_result := (list event * final)%type.

Definition emit (e : event) (r : fetch_result) : fetch_result :=
  (e :: fst r, snd r).

Section Fetch.

Variable vid : str.
Variable max_pages : option Z.
Variable max_comments : Z.

Definition record_of (id parent : option str) (snip : snippet) : comment :=
  {| comment_id := id;
     author := authorDisplayName snip;
     comment_text := textDisplay snip;
     likes := get_or (likeCount snip) 0%Z;
     published := publishedAt snip;
     video_id := vid;
     parent_id := parent;
     raw := snip |}.

(** The body of [for item in items]. *)
Definition item_comments (item : thread) : list comment :=
  let tlc := get_or (topLevelComment item) empty_resource in
  let top_snip := get_or (cr_snippet tlc) empty_snippet in
  let top_id := py_or (cr_id tlc) (sn_id top_snip) in
  record_of top_id None top_snip ::
  map (fun r =>
         let rs_snip := get_or (cr_snippet r) empty_snippet in
         let reply_id := py_or (cr_id r) (sn_id rs_snip) in
         record_of reply_id top_id rs_snip)
      (get_or (replies item) []).

Definition page_comments (resp : response) : list comment :=
  flat_map item_comments (get_or (items resp) []).

(** [max_pages and page >= max_pages] *)
Definition page_limit (page : Z) : bool :=
  match max_pages with
  | Some n => negb (n =? 0)%Z && (n <=? page)%Z
  | None => false
  end.

(** The loop body from [items = resp.get("items", [])] on; [continue] is
    the next iteration. *)
Definition after_page
    (continue : list comment -> option str -> Z -> fetch_result)
    (resp : response) (comments : list comment) (page : Z) : fetch_result :=
  let comments := comments ++ page_comments resp in
  let page := (page + 1)%Z in
  if (max_comments <=? Z.of_nat (length comments))%Z
  then ([], Returned (slice_to comments max_comments))
  else
    let token := nextPageToken resp in
    if falsy token || page_limit page
    then ([], Returned (slice_to comments max_comments))
    else emit (Sleep 100) (continue comments token page).

(** [while True: ...], one answer of the script per [.execute()]. *)
Fixpoint fetch_loop (answers : list outcome)
    (comments : list comment) (token : option str) (page : Z)
  : fetch_result :=
  match answers with
  | [] => ([], Pending)
  | a :: rest =>
      emit (ListCall token)
        match a with
        | Response resp => after_page (fetch_loop rest) resp comments page
        | Raises HttpError =>
            emit (Sleep 5000)
              match rest with
              | [] => ([], Pending)
              | a2 :: rest2 =>
                  emit (ListCall token)
                    match a2 with
                    | Response resp =>
                        after_page (fetch_loop rest2) resp comments page
                    | Raises _ =>
                        ([], Returned (slice_to comments max_comments))
                    end
              end
        | Raises e => ([], Raised e)
        end
  end.

Definition fetch_comments (answers : list outcome) : fetch_result :=
  fetch_loop answers [] None 0%Z.

End Fetch.

(** ** [vader_label] *)

Definition Positive : str := lit "Positive".
Definition Negative : str := lit "Negative".
Definition Neutral : str := lit "Neutral".

(** The literal [0.05]: the binary64 value nearest to one twentieth. *)
Definition threshold : float := 0x1.999999999999ap-5%float.

Definition vader_label (c : float) : str :=
  if (threshold <=? c)%float then Positive
  else if (c <=? - threshold)%float then Negative
  else Neutral.

(** ** Files and paths *)

(** [str(n)] for an [int]. *)
Fixpoint digits_from (fuel : nat) (n : N) (acc : str) : str :=
  match fuel with
  | O => acc
  | S fuel' =>
      let acc' := (48 + n mod 10)%N :: acc in
      if (n / 10 =? 0)%N then acc' else digits_from fuel' (n / 10) acc'
  end.

Definition str_of_N (n : N) : str :=
  digits_from (S (N.to_nat (N.size n))) n [].

Definition str_of_Z (z : Z) : str :=
  match z with
  | Zneg p => lit "-" ++ str_of_N (Npos p)
  | _ => str_of_N (Z.to_N z)
  end.

(** A path as [pathlib] holds it on POSIX: its parts.  A path without an
    anchor is taken below [BASE_DIR]. *)
Definition path := list str.

Definition DATA_DIR : path := [lit "data"].
Definition RAW_DIR : path := DATA_DIR ++ [lit "raw"].
Definition PROC_DIR : path := DATA_DIR ++ [lit "processed"].
Definition OUT_DIR : path := DATA_DIR ++ [lit "outputs"].

(** The separator ["/"]. *)
Definition slash : N := 47.

(** [s.split("/")] *)
Fixpoint split_slash (s : str) : list str :=
  match s with
  | [] => [[]]
  | c :: s' =>
      if (c =? slash)%N then [] :: split_slash s'
      else match split_slash s' with
           | w :: ws => (c :: w) :: ws
           | [] => [[c]]
           end
  end.

(** A piece that [pathlib] keeps: neither empty nor ["."]. *)
Definition is_part (w : str) : bool :=
  negb (str_eqb w [] || str_eqb w (lit ".")).

(** The parts [PurePosixPath] reads in a string: the pieces between the
    slashes, the empty ones and ["."] dropped; [".."] stays. *)
Definition parts (s : str) : list str := filter is_part (split_slash s).

(** The anchor of an absolute name: ["//"] for exactly two leading
    slashes, ["/"] for one or for three and more. *)
Definition anchor (s : str) : option str :=
  match s with
  | c1 :: s1 =>
      if (c1 =? slash)%N then
        match s1 with
        | c2 :: s2 =>
            if (c2 =? slash)%N then
              match s2 with
              | c3 :: _ => if (c3 =? slash)%N then Some (lit "/")
                           else Some (lit "//")
              | [] => Some (lit "//")
              end
            else Some (lit "/")
        | [] => Some (lit "/")
        end
      else None
  | [] => None
  end.

(** [dir / name] for a string [name]: the string is read as a path, so a
    slash in it opens a further level, and an absolute name replaces
    [dir]. *)
Definition child (dir : path) (name : str) : path :=
  match anchor name with
  | Some a => a :: parts name
  | None => dir ++ parts name
  end.

(** [p.parent] and [p.name], of a path that is more than an anchor. *)
Definition parent (p : path) : path := removelast p.
Definition name (p : path) : str := last p [].

Fixpoint path_eqb (a b : path) : bool :=
  match a, b with
  | [], [] => true
  | x :: a', y :: b' => str_eqb x y && path_eqb a' b'
  | _, _ => false
  end.

(** [f"{stem}_{video_id}_{ts}{ext}"] *)
Definition stamped (stem vid : str) (ts : Z) (ext : str) : str :=
  stem ++ lit "_" ++ vid ++ lit "_" ++ str_of_Z ts ++ ext.

(** ** The processed table and [run] *)

(** [analyzer.polarity_scores(text)] *)
Record scores := {
  neg : float;
  neu : float;
  pos : float;
  compound : float
}.

(** One row of the processed table: the fetched record, the derived
    columns, the four lexicon scores and the label. *)
Record row := {
  base : comment;
  clean_comment : str;
  lang : str;
  published_at : option Z;
  row_scores : scores;
  sentiment_vader : str
}.

Record kpi := {
  k_video_id : str;
  k_timestamp : str;
  n_comments : nat;
  pct_negative : float;
  pct_positive : float;
  pct_neutral : float;
  avg_compound : float
}.

(** [Incomplete] is what a write leaves behind that raised after the file
    was opened. *)
Inductive file :=
| RawJson (comments : list comment)
| ProcessedCsv (rows : list row)
| KpiCsv (k : kpi)
| WordcloudPng (text colormap title : str)
| Incomplete.

(** The files by path, the most recently written first.  Files are told
    apart by their paths, part by part, as [pathlib] compares them: the
    model has no links and resolves no [".."]. *)
Definition filesystem := list (path * file).

(** Opening for writing truncates: an earlier file at the path is gone. *)
Definition write (p : path) (f : file) (fs : filesystem) : filesystem :=
  (p, f) :: filter (fun e => negb (path_eqb (fst e) p)) fs.

(** What becomes of an attempt to write a file: it is written; or opening
    the path raises (the directory is missing, say) and nothing changes;
    or the write raises on the way. *)
Inductive stored :=
| Stored
| Refused (e : exn)
| Torn (e : exn).

(** A step of [run]: it may change the files, and it returns or raises. *)
Definition io (A : Type) : Type := filesystem -> result A * filesystem.

Definition ret {A} (a : A) : io A := fun fs => (Ok a, fs).
Definition raise {A} (e : exn) : io A := fun fs => (Raise e, fs).
Definition lift {A} (r : result A) : io A := fun fs => (r, fs).

Definition io_bind {A B} (m : io A) (k : A -> io B) : io B :=
  fun fs =>
    match m fs with
    | (Ok a, fs') => k a fs'
    | (Raise e, fs') => (Raise e, fs')
    end.

Notation "x <~ m ;; k" := (io_bind m (fun x => k))
  (at level 61, m at next level, right associativity).
Notation "m ;;; k" := (io_bind m (fun _ => k))
  (at level 61, right associativity).

Definition option_str_eqb (a b : option str) : bool :=
  match a, b with
  | None, None => true
  | Some x, Some y => str_eqb x y
  | _, _ => false
  end.

(** [df.drop_duplicates(subset=["comment_id"])]: the first row of each
    identifier is kept, in order; missing identifiers are equal to each
    other. *)
Fixpoint drop_duplicates_from (seen : list (option str)) (l : list comment)
  : list comment :=
  match l with
  | [] => []
  | c :: l' =>
      if existsb (option_str_eqb (comment_id c)) seen
      then drop_duplicates_from seen l'
      else c :: drop_duplicates_from (comment_id c :: seen) l'
  end.

Definition drop_duplicates (l : list comment) : list comment :=
  drop_duplicates_from [] l.

Inductive run_final :=
| RunReturned (out_csv : path)
| RunRaised (e : exn)
| RunPending.

Definition finish (r : result path * filesystem) : run_final * filesystem :=
  match r with
  | (Ok p, fs) => (RunReturned p, fs)
  | (Raise e, fs) => (RunRaised e, fs)
  end.

Definition has_label (l : str) (r : row) : bool :=
  str_eqb (sentiment_vader r) l.

Definition indicator (b : bool) : float := if b then 1%float else 0%float.

(** [len(str(t).strip()) > 1] *)
Definition long_enough (t : str) : bool := 1 <? length (strip t).

Section Annotate.

Variable detect : str -> result str.
Variable polarity_scores : str -> scores.
(** What [pd.to_datetime(df["published"], errors="coerce")] made of a
    cell of the column; [None] is [NaT]. *)
Variable to_datetime : option str -> option Z.

(** The derived columns of one record. *)
Definition annotate (c : comment) : result row :=
  let clean := clean_text (get_or (comment_text c) []) in
  l <- safe_lang detect clean ;;
  let sc := polarity_scores clean in
  Ok {| base := c;
        clean_comment := clean;
        lang := l;
        published_at := to_datetime (published c);
        row_scores := sc;
        sentiment_vader := vader_label (compound sc) |}.

(** The table [run] builds between the raw dump and [to_csv], once the
    dates were converted. *)
Definition processed_table (comments : list comment) : result (list row) :=
  apply annotate (drop_duplicates comments).

End Annotate.

Definition raw_path (vid : str) (ts : Z) : path :=
  child RAW_DIR (stamped (lit "comments") vid ts (lit ".json")).
Definition out_csv_path (vid : str) (ts : Z) : path :=
  child PROC_DIR (stamped (lit "processed") vid ts (lit ".csv")).
Definition kpi_path (vid : str) (ts : Z) : path :=
  child OUT_DIR (stamped (lit "kpi") vid ts (lit ".csv")).
Definition pos_path (vid : str) (ts : Z) : path :=
  child OUT_DIR (stamped (lit "wordcloud_positive") vid ts (lit ".png")).
Definition neg_path (vid : str) (ts : Z) : path :=
  child OUT_DIR (stamped (lit "wordcloud_negative") vid ts (lit ".png")).

Section Run.

(** The libraries [run] calls into. *)
Variable detect : str -> result str.
Variable polarity_scores : str -> scores.
(** [pd.to_datetime(column, errors="coerce")]: the call raises, or it
    converts the cells of this column. *)
Variable pd_to_datetime : list (option str) -> result (option str -> option Z).
(** [str.lower] *)
Variable lower : str -> str.
(** [Series.mean] *)
Variable mean : list float -> float.
(** [WordCloud(...).generate(text)] succeeds ([true]) or raises
    [ValueError]. *)
Variable generate : str -> bool.
(** What the system makes of writing this content at this path
    ([open] and [json.dump], [to_csv], [savefig]). *)
Variable store : path -> file -> stored.

Definition save (p : path) (f : file) : io unit :=
  fun fs =>
    match store p f with
    | Stored => (Ok tt, write p f fs)
    | Refused e => (Raise e, fs)
    | Torn e => (Raise e, write p Incomplete fs)
    end.

Definition make_wordcloud (text_series : list str) (out_path : path)
    (sentiment_label : str) : io unit :=
  let texts := map lower (filter long_enough text_series) in
  let text := join [space] texts in
  if negb (truthy (strip text)) then ret tt
  else
    let sentiment := lower sentiment_label in
    let colormap :=
      if str_eqb sentiment (lit "positive") then lit "Greens"
      else if str_eqb sentiment (lit "negative") then lit "Reds"
      else lit "Greys" in
    if generate text
    then save out_path
              (WordcloudPng text colormap
                 (lit "Most Frequent Words in " ++ sentiment_label
                  ++ lit " Comments"))
    else raise ValueError.

(** [float((df["sentiment_vader"] == l).mean() * 100)] *)
Definition pct (l : str) (rows : list row) : float :=
  (mean (map (fun r => indicator (has_label l r)) rows) * 100)%float.

(** The KPI row of a table. *)
Definition kpi_of (vid utcnow : str) (df : list row) : kpi :=
  {| k_video_id := vid;
     k_timestamp := utcnow;
     n_comments := length df;
     pct_negative := pct Negative df;
     pct_positive := pct Positive df;
     pct_neutral := pct Neutral df;
     avg_compound := mean (map (fun r => compound (row_scores r)) df) |}.

(** [run].  [ts] is what [int(time.time())] reads, [utcnow] what
    [datetime.utcnow().isoformat()] reads, [answers] what the API will
    answer, [fs] the files present when the call starts.  The columns
    [clean_comment] and [lang] are computed before the dates are
    converted; they cannot raise, so they are built with the rest of the
    row. *)
Definition run (vid : str) (max_pages : option Z) (max_comments : Z)
    (ts : Z) (utcnow : str) (answers : list outcome) (fs : filesystem)
  : run_final * filesystem :=
  match snd (fetch_comments vid max_pages max_comments answers) with
  | Pending => (RunPending, fs)
  | Raised e => (RunRaised e, fs)
  | Returned [] => (RunRaised RuntimeError, fs)
  | Returned comments =>
      finish
        ((save (raw_path vid ts) (RawJson comments) ;;;
          dates <~ lift (pd_to_datetime
                           (map published (drop_duplicates comments))) ;;
          df <~ lift (processed_table detect polarity_scores dates comments) ;;
          let out_csv := out_csv_path vid ts in
          save out_csv (ProcessedCsv df) ;;;
          save (kpi_path vid ts) (KpiCsv (kpi_of vid utcnow df)) ;;;
          let series l := map clean_comment (filter (has_label l) df) in
          make_wordcloud (series Positive) (pos_path vid ts) Positive ;;;
          make_wordcloud (series Negative) (neg_path vid ts) Negative ;;;
          ret out_csv)
           fs)
  end.

End Run.

(** ** The readers of the processed table *)

(** [fnmatch(n, "processed_*.csv")] *)
Definition is_processed_name (n : str) : bool :=
  starts_with (lit "processed_") n && ends_with (lit ".csv") n
  && (14 <=? length n).

(** [sorted(names)]: insertion into an ascending list, stable. *)
Fixpoint insert_sorted (x : str) (l : list str) : list str :=
  match l with
  | [] => [x]
  | y :: l' => if str_leb y x then y :: insert_sorted x l' else x :: l
  end.

Definition sorted (l : list str) : list str :=
  fold_left (fun acc x => insert_sorted x acc) l [].

(** The names [PROC.glob("processed_*.csv")] yields. *)
Definition glob_processed (fs : filesystem) : list str :=
  filter is_processed_name
    (map (fun e => name (fst e))
         (filter (fun e => path_eqb (parent (fst e)) PROC_DIR) fs)).

(** [files[-1]] of the sorted listing, when there is one. *)
Definition last_sorted (names : list str) : option str :=
  match sorted names with
  | [] => None
  | x :: l => Some (last l x)
  end.

Definition lookup (p : path) (fs : filesystem) : option file :=
  option_map snd (find (fun e => path_eqb (fst e) p) fs).

(** How a reader calls [pd.read_csv]. *)
Inductive read_mode :=
| Plain
| ParseDates
| ParseDatesInfer.

Section Readers.

(** A loaded [DataFrame]. *)
Variable frame : Type.
(** [pd.read_csv(path, ...)] on the content found at the path. *)
Variable read_csv : option file -> read_mode -> result frame.
(** [df["published"] = pd.to_datetime(df["published"], errors="coerce")]
    when the column is there. *)
Variable coerce_published : frame -> frame.

(** What a reader ends up with: the file it chose and the frame it got. *)
Definition loaded := (str * frame)%type.

(** [analyze_eval.load_latest_processed] *)
Definition load_latest_processed (fs : filesystem) : result loaded :=
  match last_sorted (glob_processed fs) with
  | None => Raise FileNotFoundError
  | Some f =>
      df <- read_csv (lookup (child PROC_DIR f) fs) ParseDates ;; Ok (f, df)
  end.

(** The head of [app_streamlit.py]: [None] is [st.stop()]. *)
Definition app_streamlit_load (fs : filesystem) : option (result loaded) :=
  match last_sorted (glob_processed fs) with
  | None => None
  | Some latest =>
      let content := lookup (child PROC_DIR latest) fs in
      Some (try_except
              (df <- read_csv content ParseDates ;; Ok (latest, df))
              (fun _ =>
                 df <- read_csv content Plain ;;
                 Ok (latest, coerce_published df)))
  end.

(** The head of [check_processed.py], started in the repository root:
    [None] is [sys.exit(1)]. *)
Definition check_processed_load (fs : filesystem) : option (result loaded) :=
  match last_sorted (glob_processed fs) with
  | None => None
  | Some f =>
      let content := lookup (child PROC_DIR f) fs in
      Some (try_except
              (df <- read_csv content ParseDatesInfer ;; Ok (f, df))
              (fun _ => df <- read_csv content Plain ;; Ok (f, df)))
  end.

End Readers.

Arguments load_latest_processed {frame} read_csv fs.
Arguments app_streamlit_load {frame} read_csv coerce_published fs.
Arguments check_processed_load {frame} read_csv fs.

(** ** Predicates used to state the properties *)

(** The string begins with a whitespace character. *)
Definition leading_ws (s : str) : bool :=
  match s with
  | c :: _ => isspace c
  | [] => false
  end.

(** The string ends with a whitespace character. *)
Definition trailing_ws (s : str) : bool := leading_ws (rev s).

(** Every whitespace character is U+0020 and is not followed by another
    whitespace character. *)
Fixpoint single_spaced (s : str) : bool :=
  match s with
  | [] => true
  | c :: s' =>
      (if isspace c then (c =? space)%N && negb (leading_ws s') else true)
      && single_spaced s'
  end.

(** [s.split()]: the maximal runs of non-whitespace characters.  [cur] is
    the run being read, reversed. *)
Fixpoint tokens_from (cur : str) (s : str) : list str :=
  match s with
  | [] => match cur with [] => [] | _ => [rev cur] end
  | c :: s' =>
      if isspace c
      then match cur with
           | [] => tokens_from [] s'
           | _ => rev cur :: tokens_from [] s'
           end
      else tokens_from (c :: cur) s'
  end.

Definition tokens (s : str) : list str := tokens_from [] s.

(** Some token begins with ["http"] or ["www."]. *)
Definition has_url_token (s : str) : bool :=
  existsb (fun t => starts_with (lit "http") t || starts_with (lit "www.") t)
          (tokens s).

(** [w] occurs in [s] as a substring. *)
Fixpoint occurs (w s : str) : bool :=
  starts_with w s
  || match s with
     | [] => false
     | _ :: s' => occurs w s'
     end.

(** Any character but U+0020. *)
Definition not_space (c : N) : bool := negb (c =? space)%N.

(** A pattern is local when each of its matches is decided by a non-empty
    window without a space at the head of the input. *)
Definition local (q : Re.pattern) : Prop :=
  forall s, Re.matches_at q s = true ->
  exists w, w <> [] /\ forallb not_space w = true
            /\ (exists r, s = w ++ r)
            /\ forall r, Re.matches_at q (w ++ r) = true.

(** ** Describing the loop *)

Section FetchSpec.

Variable vid : str.
Variable max_pages : option Z.
Variable max_comments : Z.

(** The three tests that end the loop after a page: the cap, the missing
    (or empty) token, the page limit.  [comments] are the records
    accumulated including the page, [page] counts it. *)
Definition stops_after (comments : list comment) (resp : response) (page : Z)
  : bool :=
  (max_comments <=? Z.of_nat (length comments))%Z
  || falsy (nextPageToken resp)
  || page_limit max_pages page.

(** The loop is still running: nothing was accumulated yet, or the cap
    was not reached at the last test. *)
Definition running (comments : list comment) : Prop :=
  comments = [] \/ (Z.of_nat (length comments) < max_comments)%Z.

(** The number of HTTP calls in a trace. *)
Definition calls (tr : list event) : nat :=
  length (filter (fun e =>
                    match e with ListCall _ => true | Sleep _ => false end)
                 tr).

(** The end-of-loop test as it comes out after page number [n] (counted
    from 0) of [pages], for a loop entered with [comments] and [page]. *)
Definition stop_test (comments : list comment) (page : Z)
    (pages : list response) (n : nat) (resp : response) : bool :=
  stops_after
    (comments ++ flat_map (page_comments vid) (firstn (S n) pages))
    resp (page + Z.of_nat (S n)).

End FetchSpec.

Section TableSpec.

Variable detect : str -> result str.
Variable polarity_scores : str -> scores.
Variable to_datetime : option str -> option Z.

(** What [annotate] derives from a record. *)
Definition derived (c : comment) (r : row) : Prop :=
  base r = c
  /\ clean_comment r = clean_text (get_or (comment_text c) [])
  /\ safe_lang detect (clean_comment r) = Ok (lang r)
  /\ published_at r = to_datetime (published c)
  /\ row_scores r = polarity_scores (clean_comment r)
  /\ sentiment_vader r = vader_label (compound (row_scores r)).

(** The table of the fetched records, deduplicated: no identifier twice,
    every fetched identifier once, the rows being the records that
    [drop_duplicates] keeps, in order, with the columns derived from the
    kept record of the row. *)
Definition deduplicated (comments : list comment) (df : list row) : Prop :=
  NoDup (map (fun r => comment_id (base r)) df)
  /\ (forall id, In id (map comment_id comments)
                 <-> In id (map (fun r => comment_id (base r)) df))
  /\ map base df = drop_duplicates comments
  /\ Forall2 derived (drop_duplicates comments) df.

End TableSpec.

(** The five places [run] may write to. *)
Definition output_paths (vid : str) (ts : Z) : list path :=
  [raw_path vid ts; out_csv_path vid ts; kpi_path vid ts;
   pos_path vid ts; neg_path vid ts].

(** The string has no slash: joined to a directory it names an entry of
    that directory. *)
Definition plain (s : str) : bool :=
  forallb (fun c => negb (c =? slash)%N) s.

(** Where a stamped name leads below its directory: the levels that the
    slashes of the video id open, and what the file name begins with. *)
Definition folder (stem vid : str) : path :=
  filter is_part (removelast (split_slash (stem ++ lit "_" ++ vid))).
Definition leaf (stem vid : str) : str :=
  last (split_slash (stem ++ lit "_" ++ vid)) [].

(** Every element is at most each later one. *)
Fixpoint chain (l : list str) : Prop :=
  match l with
  | [] => True
  | x :: l' => Forall (fun y => str_leb x y = true) l' /\ chain l'
  end.

(** The characters ["0"] to ["9"]. *)
Definition digit (c : N) : Prop := (48 <= c <= 57)%N.

(** The number a numeral stands for. *)
Definition value (d : str) : N :=
  fold_left (fun a c => 10 * a + (c - 48))%N d 0%N.

(** The newest processed file: the first one in write order. *)
Definition most_recent_processed (fs : filesystem) : option str :=
  hd_error (glob_processed fs).

(** ** A small world to run the pipeline in *)

Module Sample.

Definition detect (s : str) : result str :=
  if occurs (lit "?") s then Raise LangDetectException else Ok (lit "en").

Definition polarity_scores (s : str) : scores :=
  if occurs (lit "good") s
  then {| neg := 0; neu := 0.5; pos := 0.5; compound := 0.5 |}
  else if occurs (lit "bad") s
  then {| neg := 0.5; neu := 0.5; pos := 0; compound := -0.5 |}
  else {| neg := 0; neu := 1; pos := 0; compound := 0 |}.

Definition to_datetime (o : option str) : option Z := None.
Definition pd_to_datetime (column : list (option str))
  : result (option str -> option Z) := Ok to_datetime.
(** [str.lower] on ASCII letters. *)
Definition lower (s : str) : str :=
  map (fun c => if (65 <=? c)%N && (c <=? 90)%N then (c + 32)%N else c) s.
Definition mean (l : list float) : float := 0%float.
Definition generate (s : str) : bool := true.

(** A fresh checkout: the three data directories are there and nothing
    else is, so a file can be written directly in one of them only. *)
Definition store (p : path) (f : file) : stored :=
  if existsb (path_eqb (parent p)) [RAW_DIR; PROC_DIR; OUT_DIR]
  then Stored
  else Refused FileNotFoundError.

Definition resource (id text : string) : comment_resource :=
  {| cr_id := Some (lit id);
     cr_snippet :=
       Some {| sn_id := None;
               authorDisplayName := Some (lit "ann");
               textDisplay := Some (lit text);
               likeCount := Some 3%Z;
               publishedAt := Some (lit "2024-01-01T00:00:00Z") |} |}.

(** One thread with two replies, the second repeating the identifier of
    the first, and a token for a further page. *)
Definition page1 : response :=
  {| items :=
       Some [ {| topLevelComment := Some (resource "c1" "a good video");
                 replies := Some [resource "c2" "bad  sound &amp; light";
                                  resource "c2" "bad  sound &amp; light"] |} ];
     nextPageToken := Some (lit "T1") |}.

(** A last page: one thread, no token. *)
Definition page2 : response :=
  {| items :=
       Some [ {| topLevelComment := Some (resource "c3" "see http://x.y ?");
                 replies := None |} ];
     nextPageToken := None |}.

Definition empty_page : response := {| items := None; nextPageToken := None |}.

Definition v : str := lit "v".
Definition utcnow : str := lit "2024-01-02T03:04:05".

Definition pipeline :=
  run detect polarity_scores pd_to_datetime lower mean generate store.

(** A renderer that finds no word to draw. *)
Definition no_words (s : str) : bool := false.

Definition pipeline_no_words :=
  run detect polarity_scores pd_to_datetime lower mean no_words store.

(** A date parser that gives up on the column. *)
Definition mixed_dates (column : list (option str))
  : result (option str -> option Z) := Raise ValueError.

Definition pipeline_mixed_dates :=
  run detect polarity_scores mixed_dates lower mean generate store.

(** The records of the two pages, and their table. *)
Definition fetched : list comment := flat_map (page_comments v) [page1; page2].

Definition table : list row :=
  match processed_table detect polarity_scores to_datetime fetched with
  | Ok df => df
  | Raise _ => []
  end.

(** [pd.read_csv] on the stored content.  The KPI file is a CSV without a
    ["published"] column: asking for its dates raises [ValueError], a plain
    read succeeds. *)
Definition read_csv (content : option file) (mode : read_mode) : result file :=
  match content with
  | Some (ProcessedCsv rows) => Ok (ProcessedCsv rows)
  | Some (KpiCsv k) =>
      match mode with
      | Plain => Ok (KpiCsv k)
      | _ => Raise ValueError
      end
  | Some _ => Raise OtherException
  | None => Raise FileNotFoundError
  end.

Definition coerce_published (df : file) : file := df.

Definition summary : kpi :=
  {| k_video_id := v; k_timestamp := utcnow; n_comments := 0;
     pct_negative := 0; pct_positive := 0; pct_neutral := 0;
     avg_compound := 0 |}.

(** A processed directory holding one CSV that [run] did not write. *)
Definition stray_fs : filesystem :=
  [(child PROC_DIR (lit "processed_summary.csv"), KpiCsv summary)].

(** Three fetches in a row: video [zzz] first, then video [abc] twice. *)
Definition after_zzz : filesystem :=
  snd (pipeline (lit "zzz") None 5000 1700000000 utcnow [Response page2] []).
Definition after_abc : filesystem :=
  snd (pipeline (lit "abc") None 5000 1700000001 utcnow [Response page2]
         after_zzz).

(** Video [zzz] fetched again, in the second in which [abc] will be. *)
Definition after_zzz_again : filesystem :=
  snd (pipeline (lit "zzz") None 5000 1700000001 utcnow
         [Response page1; Response page2] after_zzz).
Definition after_abc_again : filesystem :=
  snd (pipeline (lit "abc") None 5000 1700000002 utcnow
         [Response page1; Response page2] after_abc).

(** One video fetched in second 9 and again in second 10. *)
Definition after_nine : filesystem :=
  snd (pipeline v None 5000 9 utcnow [Response page2] []).
Definition after_ten : filesystem :=
  snd (pipeline v None 5000 10 utcnow [Response page1; Response page2]
         after_nine).

(** One video fetched in two consecutive seconds of the present. *)
Definition after_first : filesystem :=
  snd (pipeline v None 5000 1700000000 utcnow [Response page2] []).

End Sample.

(** ** Further vocabulary *)

(** The pages among the answers, in order. *)
Fixpoint responses (answers : list outcome) : list response :=
  match answers with
  | [] => []
  | Response r :: rest => r :: responses rest
  | Raises _ :: rest => responses rest
  end.

(** The answers to whole turns of the loop: a page, or a refused call
    followed by the page that its retry got. *)
Fixpoint whole_turns (answers : list outcome) : bool :=
  match answers with
  | [] => true
  | Response _ :: rest => whole_turns rest
  | Raises HttpError :: Response _ :: rest => whole_turns rest
  | _ => false
  end.

(** The page tokens of the HTTP calls of a trace, in order. *)
Fixpoint call_tokens (tr : list event) : list (option str) :=
  match tr with
  | [] => []
  | ListCall t :: tr' => t :: call_tokens tr'
  | Sleep _ :: tr' => call_tokens tr'
  end.

(** A reply comes after a top-level record that carries the identifier the
    reply names as its parent. *)
Definition parents_first (cs : list comment) : Prop :=
  forall pre c post p,
    cs = pre ++ c :: post -> parent_id c = Some p ->
    exists t, In t pre /\ parent_id t = None /\ comment_id t = Some p.

(** ** What the readers compute from a loaded table

    Here the loaded frame is the list of rows that was written. *)

(** [df["sentiment_vader"].value_counts()
       .reindex(["Positive","Neutral","Negative"]).fillna(0)] *)
Definition sentiment_counts (df : list row) : list (str * nat) :=
  map (fun l => (l, length (filter (has_label l) df)))
      [Positive; Neutral; Negative].

Section TopNegative.

(** [neg.sort_values("likes", ascending=False)] *)
Variable sort_values : list row -> list row.

(** [df[df["sentiment_vader"]=="Negative"].sort_values(...)] cut by
    [.head(50)] *)
Definition top_negative (df : list row) : list row :=
  firstn 50 (sort_values (filter (has_label Negative) df)).

(** [neg[["author","clean_comment","likes","published"]]] *)
Definition negative_columns (r : row)
  : option str * str * Z * option Z :=
  (author (base r), clean_comment r, likes (base r), published_at r).

(** [analyze_eval.top_negative_table]: the file it writes and its rows. *)
Definition top_negative_table (df : list row)
  : path * list (option str * str * Z * option Z) :=
  (child OUT_DIR (lit "top_negative_comments.csv"),
   map negative_columns (top_negative df)).

End TopNegative.

(** [series.unique()]: the values in order of first appearance. *)
Fixpoint unique (seen l : list str) : list str :=
  match l with
  | [] => []
  | x :: l' =>
      if existsb (str_eqb x) seen then unique seen l'
      else x :: unique (x :: seen) l'
  end.

(** [["all"] + sorted([x for x in df["lang"].dropna().unique()
                       if x != "unknown"])] *)
Definition langs (df : list row) : list str :=
  lit "all"
  :: sorted (filter (fun x => negb (str_eqb x unknown))
                    (unique [] (map lang df))).

(** [f = df.copy(); if lang != "all": f = f[f["lang"] == lang]] *)
Definition filter_lang (choice : str) (df : list row) : list row :=
  if negb (str_eqb choice (lit "all"))
  then filter (fun r => str_eqb (lang r) choice) df
  else df.

(** ** A small table to read *)

Module SampleTable.

Definition entry (id : string) (n : Z) (label : str) (c : float) : row :=
  {| base :=
       {| comment_id := Some (lit id); author := Some (lit "ann");
          comment_text := Some (lit "text"); likes := n;
          published := None; video_id := Sample.v; parent_id := None;
          raw := empty_snippet |};
     clean_comment := lit "text";
     lang := lit "en";
     published_at := None;
     row_scores := {| neg := 0; neu := 1; pos := 0; compound := c |};
     sentiment_vader := label |}.

Definition table : list row :=
  [entry "a" 3 Negative (-0.5); entry "b" 9 Positive 0.5;
   entry "c" 7 Negative (-0.25); entry "d" 1 Neutral 0].

(** Most liked first, by insertion. *)
Fixpoint insert_by_likes (r : row) (l : list row) : list row :=
  match l with
  | [] => [r]
  | x :: l' =>
      if (likes (base x) <? likes (base r))%Z then r :: l
      else x :: insert_by_likes r l'
  end.

Definition sort_values (l : list row) : list row :=
  fold_right insert_by_likes [] l.

End SampleTable.

(** * Properties *)

(** ** Text *)

Lemma str_eqb_spec (a b : str) : reflect (a = b) (str_eqb a b).
Proof.
  revert b; induction a as [|x a IH]; intros [|y b]; simpl;
    try (constructor; congruence).
  destruct (N.eqb_spec x y) as [->|Hxy]; simpl.
  - destruct (IH b) as [->|Hab]; constructor; congruence.
  - constructor; congruence.
Qed.

Lemma starts_with_spec (p s : str) :
  starts_with p s = true <-> exists r, s = p ++ r.
Proof.
  revert s; induction p as [|x p IH]; intros s; simpl.
  - split; [intros _; now exists s | reflexivity].
  - destruct s as [|y s].
    + split; [discriminate | intros [r Hr]; discriminate].
    + rewrite andb_true_iff, N.eqb_eq, IH. split.
      * intros [-> [r ->]]. now exists r.
      * intros [r Hr]. injection Hr as -> ->. split; [reflexivity | now exists r].
Qed.

Lemma starts_with_app (p r : str) : starts_with p (p ++ r) = true.
Proof. apply starts_with_spec. now exists r. Qed.

Lemma lstrip_spec (s : str) :
  exists a, s = a ++ lstrip s /\ forallb isspace a = true.
Proof.
  induction s as [|c s [a [Ha Hws]]]; simpl.
  - now exists [].
  - destruct (isspace c) eqn:Hc.
    + exists (c :: a). simpl. rewrite Hc, Hws. split; [now f_equal | reflexivity].
    + now exists [].
Qed.

Lemma leading_ws_lstrip (s : str) : leading_ws (lstrip s) = false.
Proof.
  induction s as [|c s IH]; simpl; [reflexivity|].
  destruct (isspace c) eqn:Hc; [exact IH | simpl; exact Hc].
Qed.

Lemma lstrip_id (s : str) : leading_ws s = false -> lstrip s = s.
Proof. destruct s as [|c s]; simpl; [reflexivity | now intros ->]. Qed.

Lemma lstrip_all_ws (s : str) : forallb isspace s = true -> lstrip s = [].
Proof.
  induction s as [|c s IH]; simpl; [reflexivity|].
  rewrite andb_true_iff. intros [-> Hs]. auto.
Qed.

Lemma rstrip_spec (s : str) :
  exists a, s = rstrip s ++ a /\ forallb isspace a = true.
Proof.
  unfold rstrip. destruct (lstrip_spec (rev s)) as [a [Ha Hws]].
  exists (rev a). split.
  - rewrite <- rev_app_distr, <- Ha. now rewrite rev_involutive.
  - rewrite forallb_forall in *. intros x Hx. apply Hws. now apply in_rev.
Qed.

Lemma trailing_ws_rstrip (s : str) : trailing_ws (rstrip s) = false.
Proof.
  unfold trailing_ws, rstrip. rewrite rev_involutive. apply leading_ws_lstrip.
Qed.

Lemma rstrip_id (s : str) : trailing_ws s = false -> rstrip s = s.
Proof.
  unfold trailing_ws, rstrip. intros H. rewrite (lstrip_id _ H).
  apply rev_involutive.
Qed.

Lemma leading_ws_rstrip (s : str) :
  leading_ws s = false -> leading_ws (rstrip s) = false.
Proof.
  intros H. destruct (rstrip_spec s) as [a [Ha _]].
  destruct (rstrip s) as [|d r]; [reflexivity|].
  rewrite Ha in H. exact H.
Qed.

Lemma leading_ws_strip (s : str) : leading_ws (strip s) = false.
Proof. apply leading_ws_rstrip, leading_ws_lstrip. Qed.

Lemma trailing_ws_strip (s : str) : trailing_ws (strip s) = false.
Proof. apply trailing_ws_rstrip. Qed.

Lemma strip_id (s : str) :
  leading_ws s = false -> trailing_ws s = false -> strip s = s.
Proof.
  intros Hl Ht. unfold strip. rewrite (lstrip_id _ Hl). now apply rstrip_id.
Qed.

Lemma strip_all_ws (s : str) : forallb isspace s = true -> strip s = [].
Proof. intros H. unfold strip. now rewrite (lstrip_all_ws _ H). Qed.

Lemma single_spaced_app_l (a b : str) :
  single_spaced (a ++ b) = true -> single_spaced a = true.
Proof.
  induction a as [|c a IH]; simpl; [reflexivity|].
  rewrite !andb_true_iff. intros [Hc Hs]. split; [|now apply IH].
  destruct (isspace c); [|reflexivity].
  rewrite andb_true_iff in *. destruct Hc as [Hc Hn]. split; [exact Hc|].
  destruct a; [reflexivity | exact Hn].
Qed.

Lemma single_spaced_app_r (a b : str) :
  single_spaced (a ++ b) = true -> single_spaced b = true.
Proof.
  induction a as [|c a IH]; simpl; [trivial|].
  rewrite andb_true_iff. intros [_ Hs]. now apply IH.
Qed.

Lemma single_spaced_strip (s : str) :
  single_spaced s = true -> single_spaced (strip s) = true.
Proof.
  intros H. unfold strip.
  destruct (lstrip_spec s) as [a [Ha _]].
  destruct (rstrip_spec (lstrip s)) as [b [Hb _]].
  rewrite Ha in H. apply single_spaced_app_r in H.
  rewrite Hb in H. now apply single_spaced_app_l in H.
Qed.

(** ** Substitution and search *)

Module ReFacts.
Import Re.

Lemma sub_from_skip (p : pattern) (repl : str) (k : nat) (s : str) :
  sub_from p repl k s = sub p repl (skipn k s).
Proof.
  revert k; induction s as [|c s IH]; intros [|k]; simpl; try reflexivity.
  apply IH.
Qed.

Lemma sub_match (p : pattern) (repl : str) (c : N) (s : str) (k : nat) :
  p (c :: s) = Some (S k) ->
  sub p repl (c :: s) = repl ++ sub p repl (skipn k s).
Proof.
  intros H. unfold sub at 1. simpl. rewrite H. now rewrite sub_from_skip.
Qed.

Lemma sub_nomatch (p : pattern) (repl : str) (c : N) (s : str) :
  matches_at p (c :: s) = false ->
  sub p repl (c :: s) = c :: sub p repl s.
Proof.
  unfold matches_at, sub. simpl. destruct (p (c :: s)) as [[|k]|]; 
    [reflexivity | discriminate | reflexivity].
Qed.

Lemma matches_at_length (p : pattern) (s : str) :
  matches_at p s = true -> exists k, p s = Some (S k).
Proof.
  unfold matches_at. destruct (p s) as [[|k]|]; try discriminate.
  intros _. now exists k.
Qed.

Lemma search_none_iff (p : pattern) (s : str) :
  search p s = None <->
  forall a c b, s = a ++ c :: b -> matches_at p (c :: b) = false.
Proof.
  induction s as [|x s IH]; simpl.
  - split; [|reflexivity]. intros _ [|y a] c b H; discriminate.
  - destruct (matches_at p (x :: s)) eqn:Hm.
    + split; [discriminate|]. intros H.
      rewrite (H [] x s eq_refl) in Hm. discriminate.
    + destruct (search p s) as [n|] eqn:Hs; simpl.
      * split; [discriminate|]. intros H. destruct IH as [_ IH].
        assert (Hnone : Some n = None); [|discriminate].
        apply IH. intros a c b ->. apply (H (x :: a) c b). reflexivity.
      * split; [|reflexivity]. intros _ [|y a] c b H.
        -- injection H as <- <-. exact Hm.
        -- injection H as <- ->. destruct IH as [IH _].
           now apply (IH eq_refl a c b).
Qed.

(** Without a match anywhere, substitution changes nothing. *)
Lemma sub_id (p : pattern) (repl : str) (s : str) :
  search p s = None -> sub p repl s = s.
Proof.
  induction s as [|c s IH]; simpl; [reflexivity|].
  destruct (matches_at p (c :: s)) eqn:Hm; [discriminate|].
  destruct (search p s); [discriminate|]. intros _.
  rewrite (sub_nomatch _ _ _ _ Hm). f_equal. now apply IH.
Qed.

(** A prefix without spaces of the substituted text was copied from the
    input. *)
Lemma sub_prefix (p : pattern) (w s o : str) :
  forallb not_space w = true ->
  sub p [space] s = w ++ o -> exists r, s = w ++ r.
Proof.
  revert s; induction w as [|d w IH]; intros s Hw H; simpl in *.
  - now exists s.
  - apply andb_true_iff in Hw as [Hd Hw].
    destruct s as [|c s]; [discriminate|].
    destruct (matches_at p (c :: s)) eqn:Hm.
    + apply matches_at_length in Hm as [k Hk].
      rewrite (sub_match _ _ _ _ _ Hk) in H. simpl in H. injection H as <- _.
      unfold not_space in Hd. now rewrite N.eqb_refl in Hd.
    + rewrite (sub_nomatch _ _ _ _ Hm) in H. injection H as <- H.
      destruct (IH s Hw H) as [r ->]. now exists r.
Qed.

Lemma local_not_at_space (q : pattern) (s : str) :
  local q -> matches_at q (space :: s) = false.
Proof.
  intros Hq. destruct (matches_at q (space :: s)) eqn:Hm; [|reflexivity].
  destruct (Hq _ Hm) as [[|d w] [Hne [Hw [[r Hr] _]]]]; [congruence|].
  simpl in Hr, Hw. injection Hr as <- _.
  unfold not_space in Hw. now rewrite N.eqb_refl in Hw.
Qed.

(** Substituting spaces for the matches of [p] creates no match of a local
    pattern [q]: [q] matches the result only where it matched the input at
    a place [p] left alone. *)
Lemma search_sub_none (p q : pattern) (n : nat) (s : str) :
  local q ->
  length s <= n ->
  (forall a c b, s = a ++ c :: b ->
     matches_at p (c :: b) = false -> matches_at q (c :: b) = false) ->
  search q (sub p [space] s) = None.
Proof.
  intros Hq. revert s; induction n as [|n IH]; intros s Hn Hs.
  - destruct s; [reflexivity | simpl in Hn; lia].
  - destruct s as [|c s]; [reflexivity|].
    destruct (matches_at p (c :: s)) eqn:Hm.
    + apply matches_at_length in Hm as [k Hk].
      rewrite (sub_match _ _ _ _ _ Hk). simpl app. simpl search.
      rewrite (local_not_at_space _ _ Hq).
      rewrite IH; [reflexivity | |].
      * rewrite length_skipn. simpl in Hn. lia.
      * intros a c' b Hab. apply (Hs (c :: firstn k s ++ a)).
        simpl. f_equal. rewrite <- app_assoc, <- Hab.
        now rewrite firstn_skipn.
    + rewrite (sub_nomatch _ _ _ _ Hm). simpl search.
      assert (Hhead : matches_at q (c :: sub p [space] s) = false).
      { destruct (matches_at q (c :: sub p [space] s)) eqn:Hmq; [|reflexivity].
        destruct (Hq _ Hmq) as [w [Hne [Hw [[r Hr] Hall]]]].
        rewrite <- (sub_nomatch _ _ _ _ Hm) in Hr.
        destruct (sub_prefix _ _ _ _ Hw Hr) as [r' Hr'].
        rewrite <- (Hs [] c s eq_refl Hm). rewrite Hr'. symmetry. apply Hall. }
      rewrite Hhead. rewrite IH; [reflexivity | |].
      * simpl in Hn. lia.
      * intros a c' b ->. apply (Hs (c :: a)). reflexivity.
Qed.

(** A local pattern does not match again where it was substituted. *)
Lemma search_sub_self (p : pattern) (s : str) :
  local p -> search p (sub p [space] s) = None.
Proof.
  intros Hp. apply (search_sub_none p p (length s)); auto.
Qed.

(** No match before, no match after. *)
Lemma search_sub_other (p q : pattern) (s : str) :
  local q -> search q s = None -> search q (sub p [space] s) = None.
Proof.
  intros Hq Hs. apply (search_sub_none p q (length s)); auto.
  intros a c b Hab _. revert Hab. now apply search_none_iff.
Qed.

Lemma search_app_r (q : pattern) (a b : str) :
  search q (a ++ b) = None -> search q b = None.
Proof.
  rewrite !search_none_iff. intros H a' c b' ->.
  apply (H (a ++ a')). now rewrite <- app_assoc.
Qed.

Lemma search_app_l (q : pattern) (a b : str) :
  local q -> search q (a ++ b) = None -> search q a = None.
Proof.
  intros Hq. rewrite !search_none_iff. intros H a' c b' ->.
  destruct (matches_at q (c :: b')) eqn:Hm; [|reflexivity].
  destruct (Hq _ Hm) as [[|d w] [Hne [_ [[r Hr] Hall]]]]; [congruence|].
  simpl in Hr. injection Hr as <- ->.
  rewrite <- (H a' c (w ++ r ++ b)).
  - symmetry. apply (Hall (r ++ b)).
  - rewrite <- app_assoc. simpl. now rewrite <- app_assoc.
Qed.

Lemma search_strip (q : pattern) (s : str) :
  local q -> search q s = None -> search q (strip s) = None.
Proof.
  intros Hq H. unfold strip.
  destruct (lstrip_spec s) as [a [Ha _]].
  destruct (rstrip_spec (lstrip s)) as [b [Hb _]].
  rewrite Ha in H. apply search_app_r in H.
  rewrite Hb in H. now apply search_app_l in H.
Qed.

End ReFacts.

(** ** The three patterns of [clean_text] *)

Module PatternFacts.
Import Re ReFacts.

Lemma skipn_length_app (l r : str) : skipn (length l) (l ++ r) = r.
Proof. induction l as [|x l IH]; simpl; [reflexivity | exact IH]. Qed.

Lemma p_alt_matches (a b : pattern) (s : str) :
  a s <> Some 0 ->
  matches_at (p_alt a b) s = matches_at a s || matches_at b s.
Proof.
  unfold matches_at, p_alt. destruct (a s) as [[|k]|]; simpl; congruence.
Qed.

Lemma p_lit_matches (l s : str) :
  l <> [] -> (matches_at (p_lit l) s = true <-> exists r, s = l ++ r).
Proof.
  intros Hl. rewrite <- starts_with_spec. unfold matches_at, p_lit.
  destruct (starts_with l s); [|split; discriminate].
  destruct l; [congruence | simpl; tauto].
Qed.

Lemma p_lit_never_empty (l s : str) : l <> [] -> p_lit l s <> Some 0.
Proof.
  intros Hl. unfold p_lit. destruct (starts_with l s); [|discriminate].
  destruct l; [congruence | discriminate].
Qed.

Section LiteralThenClass.

Variable l : str.
Variable cls : N -> bool.

Lemma lit_plus_never_empty (s : str) :
  p_seq (p_lit l) (p_plus cls) s <> Some 0.
Proof.
  unfold p_seq, p_lit, p_plus. destruct (starts_with l s); [|discriminate].
  destruct (span cls (skipn (length l) s)); [discriminate|].
  intros H. injection H as H. lia.
Qed.

Lemma lit_plus_matches (s : str) :
  matches_at (p_seq (p_lit l) (p_plus cls)) s = true <->
  exists x r, s = l ++ x :: r /\ cls x = true.
Proof.
  unfold matches_at, p_seq, p_lit, p_plus. split.
  - destruct (starts_with l s) eqn:Hl; [|discriminate].
    apply starts_with_spec in Hl as [r ->]. rewrite skipn_length_app.
    destruct r as [|x r]; simpl; [discriminate|].
    destruct (cls x) eqn:Hx; [|discriminate]. intros _. now exists x, r.
  - intros [x [r [-> Hx]]]. rewrite starts_with_app, skipn_length_app.
    simpl. rewrite Hx. now rewrite Nat.add_succ_r.
Qed.

End LiteralThenClass.

Lemma nonspace_not_space (x : N) : nonspace x = true -> not_space x = true.
Proof.
  unfold nonspace, not_space. destruct (N.eqb_spec x space) as [->|]; 
    [discriminate | reflexivity].
Qed.

Lemma url_matches (s : str) :
  matches_at url_re s = true <->
  exists x r, nonspace x = true
              /\ (s = lit "http" ++ x :: r \/ s = lit "www." ++ x :: r).
Proof.
  unfold url_re. rewrite p_alt_matches by apply lit_plus_never_empty.
  rewrite orb_true_iff, !lit_plus_matches. split.
  - intros [[x [r [Hs Hx]]]|[x [r [Hs Hx]]]]; exists x, r; auto.
  - intros [x [r [Hx [Hs|Hs]]]]; [left|right]; now exists x, r.
Qed.

Lemma entity_matches (s : str) :
  matches_at entity_re s = true <->
  exists r, s = lit "&amp;" ++ r \/ s = lit "&lt;" ++ r \/ s = lit "&gt;" ++ r.
Proof.
  unfold entity_re.
  rewrite !p_alt_matches by (apply p_lit_never_empty; discriminate).
  rewrite !orb_true_iff, !p_lit_matches by discriminate. split.
  - intros [[r H]|[[r H]|[r H]]]; exists r; auto.
  - intros [r [H|[H|H]]]; [left|right; left|right; right]; now exists r.
Qed.

Lemma url_local : local url_re.
Proof.
  intros s Hs. apply url_matches in Hs as [x [r [Hx [->| ->]]]].
  - exists (lit "http" ++ [x]). repeat split.
    + discriminate.
    + simpl. now rewrite (nonspace_not_space _ Hx).
    + exists r. now rewrite <- app_assoc.
    + intros r'. apply url_matches. exists x, r'. split; [exact Hx|].
      left. now rewrite <- app_assoc.
  - exists (lit "www." ++ [x]). repeat split.
    + discriminate.
    + simpl. now rewrite (nonspace_not_space _ Hx).
    + exists r. now rewrite <- app_assoc.
    + intros r'. apply url_matches. exists x, r'. split; [exact Hx|].
      right. now rewrite <- app_assoc.
Qed.

Lemma entity_window (w : str) :
  w <> [] -> forallb not_space w = true ->
  (forall r, matches_at entity_re (w ++ r) = true) ->
  forall r, exists w', w' <> [] /\ forallb not_space w' = true
                       /\ (exists r', w ++ r = w' ++ r')
                       /\ forall r', matches_at entity_re (w' ++ r') = true.
Proof.
  intros Hne Hw Hall r. exists w. split; [exact Hne|].
  split; [exact Hw|]. split; [now exists r | exact Hall].
Qed.

Lemma entity_local : local entity_re.
Proof.
  intros s Hs. apply entity_matches in Hs as [r [->|[->| ->]]];
    apply entity_window; try discriminate; try reflexivity;
    intros r'; apply entity_matches; exists r'; auto.
Qed.

(** *** Whitespace runs *)

Lemma ws_at (c : N) (s : str) :
  ws_re (c :: s) = if isspace c then Some (S (span isspace s)) else None.
Proof. unfold ws_re, p_plus. simpl. now destruct (isspace c). Qed.

Lemma leading_ws_after_span (s : str) :
  leading_ws (skipn (span isspace s) s) = false.
Proof.
  induction s as [|c s IH]; simpl; [reflexivity|].
  destruct (isspace c) eqn:Hc; simpl; [exact IH | exact Hc].
Qed.

Lemma sub_ws_leading (s : str) :
  leading_ws s = false -> leading_ws (sub ws_re [space] s) = false.
Proof.
  destruct s as [|c s]; simpl; [reflexivity|]. intros Hc.
  rewrite sub_nomatch; [exact Hc|].
  unfold matches_at. now rewrite ws_at, Hc.
Qed.

Lemma sub_ws_single_spaced_upto (n : nat) (s : str) :
  length s <= n -> single_spaced (sub ws_re [space] s) = true.
Proof.
  revert s; induction n as [|n IH]; intros [|c s] Hn; try reflexivity.
  - simpl in Hn; lia.
  - simpl in Hn. destruct (isspace c) eqn:Hc.
    + rewrite (sub_match ws_re [space] c s (span isspace s))
        by now rewrite ws_at, Hc.
      simpl. rewrite sub_ws_leading by apply leading_ws_after_span.
      apply IH. rewrite length_skipn. lia.
    + rewrite sub_nomatch by (unfold matches_at; now rewrite ws_at, Hc).
      simpl. rewrite Hc. apply IH. lia.
Qed.

Lemma sub_ws_single_spaced (s : str) :
  single_spaced (sub ws_re [space] s) = true.
Proof. now apply (sub_ws_single_spaced_upto (length s)). Qed.

(** On a single-spaced string every run is one space already. *)
Lemma sub_ws_id (s : str) :
  single_spaced s = true -> sub ws_re [space] s = s.
Proof.
  induction s as [|c s IH]; simpl; [reflexivity|].
  rewrite andb_true_iff. intros [Hc Hs].
  destruct (isspace c) eqn:Hsp.
  - apply andb_true_iff in Hc as [Heq Hlead].
    apply N.eqb_eq in Heq. apply negb_true_iff in Hlead.
    assert (Hspan : span isspace s = 0).
    { destruct s as [|d s]; simpl in *; [reflexivity | now rewrite Hlead]. }
    rewrite (sub_match ws_re [space] c s 0)
      by now rewrite ws_at, Hsp, Hspan.
    simpl. rewrite Heq. f_equal. now apply IH.
  - rewrite sub_nomatch by (unfold matches_at; now rewrite ws_at, Hsp).
    f_equal. now apply IH.
Qed.

End PatternFacts.

(** ** [clean_text] *)

Example clean_text_sample :
  clean_text (lit "  see https://a.b/c?x=1 &amp; www.x.org  now ")
  = lit "see now".
Proof. vm_compute. reflexivity. Qed.

Section CleanText.
Import Re ReFacts PatternFacts.

Lemma clean_text_no_url (t : str) : search url_re (clean_text t) = None.
Proof.
  unfold clean_text.
  apply search_strip; [exact url_local|].
  apply search_sub_other; [exact url_local|].
  apply search_sub_other; [exact url_local|].
  apply search_sub_self. exact url_local.
Qed.

Lemma clean_text_no_entity (t : str) : search entity_re (clean_text t) = None.
Proof.
  unfold clean_text.
  apply search_strip; [exact entity_local|].
  apply search_sub_other; [exact entity_local|].
  apply search_sub_self. exact entity_local.
Qed.

Lemma clean_text_single_spaced (t : str) : single_spaced (clean_text t) = true.
Proof. unfold clean_text. apply single_spaced_strip, sub_ws_single_spaced. Qed.

(** C3, as stated, fails: a bare ["http"] (or ["www."]) survives as a token,
    and so does every entity other than the three the pattern lists. *)
Lemma clean_text_keeps_bare_http_and_quot :
  clean_text (lit "see http now") = lit "see http now"
  /\ has_url_token (clean_text (lit "see http now")) = true
  /\ has_url_token (clean_text (lit "at www. today")) = true
  /\ clean_text (lit "&quot;hi&quot; &#39;") = lit "&quot;hi&quot; &#39;"
  /\ occurs (lit "&quot;") (clean_text (lit "&quot;hi&quot; &#39;")) = true.
Proof. vm_compute. repeat split. Qed.

(** C3 (amended): in [clean_text t] neither pattern of the source matches
    any more: there is no ["http"] or ["www."] followed by a
    non-whitespace character and none of ["&amp;"], ["&lt;"], ["&gt;"];
    every whitespace character is a single U+0020 between two
    non-whitespace characters, and the result neither begins nor ends
    with whitespace. *)
Theorem clean_text_strips (t : str) :
  search url_re (clean_text t) = None
  /\ search entity_re (clean_text t) = None
  /\ single_spaced (clean_text t) = true
  /\ leading_ws (clean_text t) = false
  /\ trailing_ws (clean_text t) = false.
Proof.
  split; [apply clean_text_no_url|].
  split; [apply clean_text_no_entity|].
  split; [apply clean_text_single_spaced|].
  unfold clean_text. split; [apply leading_ws_strip | apply trailing_ws_strip].
Qed.

(** C8: [clean_text] is idempotent. *)
Theorem clean_text_idempotent (s : str) :
  clean_text (clean_text s) = clean_text s.
Proof.
  set (r := clean_text s). unfold clean_text at 1.
  rewrite (sub_id url_re [space] r) by apply clean_text_no_url.
  rewrite (sub_id entity_re [space] r) by apply clean_text_no_entity.
  rewrite (sub_ws_id r) by apply clean_text_single_spaced.
  apply strip_id; unfold r, clean_text;
    [apply leading_ws_strip | apply trailing_ws_strip].
Qed.

End CleanText.

(** ** [safe_lang] *)

Lemma safe_lang_ok (detect : str -> result str) (s : str) :
  safe_lang detect s
  = if truthy (strip s)
    then match detect s with Ok l => Ok l | Raise _ => Ok unknown end
    else Ok unknown.
Proof.
  unfold safe_lang, try_except.
  destruct (truthy (strip s)); [|reflexivity]. now destruct (detect s).
Qed.

Lemma safe_lang_returns (detect : str -> result str) (s : str) :
  exists l, safe_lang detect s = Ok l.
Proof.
  rewrite safe_lang_ok. destruct (truthy (strip s)); [|now exists unknown].
  destruct (detect s) as [l|e]; [now exists l | now exists unknown].
Qed.

(** C9: [safe_lang] always returns a string, and that string is
    ["unknown"] when the input is empty or all whitespace and when the
    detector raises. *)
Theorem safe_lang_total (detect : str -> result str) (s : str) :
  (exists l, safe_lang detect s = Ok l)
  /\ (forallb isspace s = true -> safe_lang detect s = Ok unknown)
  /\ (forall e, detect s = Raise e -> safe_lang detect s = Ok unknown).
Proof.
  split; [apply safe_lang_returns|]. split.
  - intros Hws. rewrite safe_lang_ok, (strip_all_ws _ Hws). reflexivity.
  - intros e He. rewrite safe_lang_ok, He. now destruct (truthy (strip s)).
Qed.

(** ** [vader_label] *)

Lemma thresholds_exclusive (c : float) :
  (threshold <=? c)%float = true -> (c <=? - threshold)%float = false.
Proof.
  rewrite !leb_spec.
  replace (Prim2SF threshold)
    with (S754_finite false 7205759403792794 (-57)) by reflexivity.
  replace (Prim2SF (- threshold))
    with (S754_finite true 7205759403792794 (-57)) by reflexivity.
  destruct (Prim2SF c) as [s|s| |s m e]; try destruct s; simpl;
    try discriminate; reflexivity.
Qed.

Lemma vader_label_positive (c : float) :
  vader_label c = Positive <-> (threshold <=? c)%float = true.
Proof.
  unfold vader_label. destruct (threshold <=? c)%float; [tauto|].
  destruct (c <=? - threshold)%float; split; discriminate.
Qed.

Lemma vader_label_negative (c : float) :
  vader_label c = Negative <-> (c <=? - threshold)%float = true.
Proof.
  unfold vader_label. destruct (threshold <=? c)%float eqn:Hp.
  - rewrite (thresholds_exclusive _ Hp). split; discriminate.
  - destruct (c <=? - threshold)%float; [tauto | split; discriminate].
Qed.

Lemma vader_label_neutral (c : float) :
  vader_label c = Neutral <->
  (threshold <=? c)%float = false /\ (c <=? - threshold)%float = false.
Proof.
  unfold vader_label. destruct (threshold <=? c)%float.
  - split; [discriminate | intros [H _]; discriminate].
  - destruct (c <=? - threshold)%float.
    + split; [discriminate | intros [_ H]; discriminate].
    + tauto.
Qed.

Example vader_label_samples :
  vader_label 0.5 = Positive /\ vader_label (-0.5) = Negative
  /\ vader_label 0 = Neutral /\ vader_label threshold = Positive
  /\ vader_label (- threshold) = Negative
  /\ vader_label 0.046875 = Neutral /\ vader_label nan = Neutral.
Proof. vm_compute. repeat split. Qed.

(** ** Decimal numerals *)

Lemma value_from (d : str) (a : N) :
  fold_left (fun a c => 10 * a + (c - 48))%N d a
  = (a * 10 ^ N.of_nat (length d) + value d)%N.
Proof.
  unfold value. revert a; induction d as [|c d IH]; intros a.
  - simpl. lia.
  - cbn [fold_left length]. rewrite IH, (IH (10 * 0 + (c - 48))%N).
    rewrite Nat2N.inj_succ, N.pow_succ_r'. lia.
Qed.

Lemma value_cons (c : N) (d : str) :
  value (c :: d) = ((c - 48) * 10 ^ N.of_nat (length d) + value d)%N.
Proof.
  unfold value at 1. cbn [fold_left]. rewrite value_from. f_equal; lia.
Qed.

Lemma value_snoc (d : str) (c : N) :
  value (d ++ [c]) = (10 * value d + (c - 48))%N.
Proof. unfold value. now rewrite fold_left_app. Qed.

Lemma value_bound (d : str) :
  Forall digit d -> (value d < 10 ^ N.of_nat (length d))%N.
Proof.
  induction 1 as [|c d Hc _ IH].
  - cbn. lia.
  - rewrite value_cons. cbn [length]. rewrite Nat2N.inj_succ, N.pow_succ_r'.
    unfold digit in Hc. nia.
Qed.

Lemma digits_from_S (fuel : nat) (n : N) (acc : str) :
  digits_from (S fuel) n acc
  = if (n / 10 =? 0)%N then (48 + n mod 10)%N :: acc
    else digits_from fuel (n / 10) ((48 + n mod 10)%N :: acc).
Proof. reflexivity. Qed.

Lemma digits_from_spec (fuel : nat) (n : N) (acc : str) :
  (n < 2 ^ N.of_nat fuel)%N ->
  exists d, digits_from (S fuel) n acc = d ++ acc
            /\ Forall digit d /\ value d = n.
Proof.
  revert n acc; induction fuel as [|fuel IH]; intros n acc Hn.
  - assert (n = 0%N) as -> by (cbn in Hn; lia).
    exists [48%N]. repeat split. constructor; [unfold digit; lia | constructor].
  - rewrite digits_from_S.
    rewrite Nat2N.inj_succ, N.pow_succ_r' in Hn.
    assert (Hqr : n = (10 * (n / 10) + n mod 10)%N) by (apply N.div_mod; lia).
    assert (Hr : (n mod 10 < 10)%N) by (apply N.mod_upper_bound; lia).
    revert Hqr Hr IH Hn.
    generalize (2 ^ N.of_nat fuel)%N (n / 10)%N (n mod 10)%N.
    intros P q r Hqr Hr IH Hn.
    assert (Hd : digit (48 + r)) by (unfold digit; lia).
    destruct (N.eqb_spec q 0) as [Hz|Hnz].
    + exists [(48 + r)%N]. split; [reflexivity|].
      split; [now constructor|].
      unfold value. cbn [fold_left]. lia.
    + destruct (IH q ((48 + r)%N :: acc)) as [d [Hd1 [Hd2 Hd3]]]; [lia|].
      exists (d ++ [(48 + r)%N]). split.
      * rewrite Hd1. now rewrite <- app_assoc.
      * split.
        -- apply Forall_app. split; [exact Hd2 | now constructor].
        -- rewrite value_snoc, Hd3. lia.
Qed.

Lemma str_of_N_spec (n : N) :
  Forall digit (str_of_N n) /\ value (str_of_N n) = n.
Proof.
  unfold str_of_N.
  destruct (digits_from_spec (N.to_nat (N.size n)) n []) as [d [Hd [Hok Hv]]].
  - rewrite N2Nat.id. apply N.size_gt.
  - rewrite Hd, app_nil_r. now split.
Qed.

Lemma digits_from_nonempty (fuel : nat) (n : N) (acc : str) :
  acc <> [] -> digits_from fuel n acc <> [].
Proof.
  revert n acc; induction fuel as [|fuel IH]; intros n acc Hacc; [exact Hacc|].
  rewrite digits_from_S. destruct (n / 10 =? 0)%N; [discriminate|].
  apply IH. discriminate.
Qed.

Lemma str_of_N_head (n : N) :
  exists c d, str_of_N n = c :: d /\ digit c.
Proof.
  destruct (str_of_N_spec n) as [Hd _].
  destruct (str_of_N n) as [|c d] eqn:Hs.
  - exfalso. revert Hs. unfold str_of_N. rewrite digits_from_S.
    destruct (n / 10 =? 0)%N; [discriminate|].
    apply digits_from_nonempty. discriminate.
  - exists c, d. split; [reflexivity|]. now inversion Hd.
Qed.

Lemma str_of_N_inj (n m : N) : str_of_N n = str_of_N m -> n = m.
Proof.
  intros H. destruct (str_of_N_spec n) as [_ Hn].
  destruct (str_of_N_spec m) as [_ Hm]. congruence.
Qed.

Lemma str_of_Z_inj (a b : Z) : str_of_Z a = str_of_Z b -> a = b.
Proof.
  assert (Hmixed : forall n p, str_of_N n <> lit "-" ++ str_of_N (Npos p)).
  { intros n p H. destruct (str_of_N_head n) as [c [d [Hc Hdig]]].
    rewrite Hc in H. simpl in H. injection H as -> _.
    unfold digit in Hdig. lia. }
  destruct a as [|p|p], b as [|q|q]; cbn [str_of_Z Z.to_N]; intros H;
    try reflexivity;
    try (apply str_of_N_inj in H; congruence);
    try (now apply Hmixed in H);
    try (symmetry in H; now apply Hmixed in H).
  apply app_inv_head, str_of_N_inj in H. congruence.
Qed.

(** The characters of a timestamp: digits and the minus sign. *)
Lemma str_of_Z_no_underscore (z : Z) : ~ In 95%N (str_of_Z z).
Proof.
  assert (Hn : forall n, ~ In 95%N (str_of_N n)).
  { intros n Hin. destruct (str_of_N_spec n) as [Hd _].
    rewrite Forall_forall in Hd. specialize (Hd _ Hin).
    unfold digit in Hd. lia. }
  destruct z as [|p|p]; cbn [str_of_Z]; try apply Hn.
  intros [H|H]; [discriminate | now apply Hn in H].
Qed.

Lemma split_at_first (u : N) (x y a b : str) :
  ~ In u x -> ~ In u y -> x ++ u :: a = y ++ u :: b -> x = y /\ a = b.
Proof.
  revert y; induction x as [|c x IH]; intros [|d y] Hx Hy H; simpl in *.
  - injection H as ->. now split.
  - injection H as <- _. elim Hy. now left.
  - injection H as -> _. elim Hx. now left.
  - injection H as -> H. destruct (IH y) as [-> ->]; auto.
Qed.

Lemma split_at_last (u : N) (a b x y : str) :
  ~ In u x -> ~ In u y -> a ++ u :: x = b ++ u :: y -> a = b /\ x = y.
Proof.
  intros Hx Hy H. apply (f_equal (@rev N)) in H.
  rewrite !rev_app_distr in H. simpl in H. rewrite <- !app_assoc in H.
  simpl in H.
  apply split_at_first in H as [H1 H2];
    try (intros Hin; apply in_rev in Hin; contradiction).
  apply (f_equal (@rev N)) in H1, H2. rewrite !rev_involutive in H1, H2.
  now split.
Qed.

Lemma stamped_inj (stem ext v1 v2 : str) (t1 t2 : Z) :
  stamped stem v1 t1 ext = stamped stem v2 t2 ext -> v1 = v2 /\ t1 = t2.
Proof.
  unfold stamped. intros H. apply app_inv_head in H.
  change (lit "_") with [95%N] in H. cbn [app] in H.
  assert (H' : (v1 ++ 95%N :: str_of_Z t1) ++ ext
               = (v2 ++ 95%N :: str_of_Z t2) ++ ext).
  { rewrite <- !app_assoc. cbn [app]. now injection H. }
  apply app_inv_tail in H'.
  apply split_at_last in H' as [-> Ht]; try apply str_of_Z_no_underscore.
  split; [reflexivity | now apply str_of_Z_inj].
Qed.

(** ** Paths and the file system *)

Lemma path_eqb_spec (a b : path) : reflect (a = b) (path_eqb a b).
Proof.
  revert b; induction a as [|x a IH]; intros [|y b]; simpl;
    try (constructor; congruence).
  destruct (str_eqb_spec x y) as [->|Hxy]; simpl.
  - destruct (IH b) as [->|Hab]; constructor; congruence.
  - constructor; congruence.
Qed.

Lemma path_eqb_refl (a : path) : path_eqb a a = true.
Proof. destruct (path_eqb_spec a a); congruence. Qed.

Lemma path_eqb_sym (a b : path) : path_eqb a b = path_eqb b a.
Proof.
  destruct (path_eqb_spec a b), (path_eqb_spec b a); congruence.
Qed.

(** *** Strings read as paths *)

Lemma plain_app (a b : str) : plain (a ++ b) = plain a && plain b.
Proof. apply forallb_app. Qed.

Lemma plain_cons (c : N) (s : str) :
  plain (c :: s) = true -> (c =? slash)%N = false /\ plain s = true.
Proof.
  unfold plain. cbn [forallb]. rewrite andb_true_iff, negb_true_iff. tauto.
Qed.

Lemma str_of_Z_plain (z : Z) : plain (str_of_Z z) = true.
Proof.
  assert (Hn : forall n, plain (str_of_N n) = true).
  { intros n. destruct (str_of_N_spec n) as [Hd _]. unfold plain.
    apply forallb_forall. intros c Hc. rewrite Forall_forall in Hd.
    specialize (Hd c Hc). unfold digit in Hd. apply negb_true_iff.
    apply N.eqb_neq. unfold slash. lia. }
  destruct z as [|p|p]; cbn [str_of_Z]; apply Hn.
Qed.

Lemma split_slash_nonempty (s : str) : split_slash s <> [].
Proof.
  destruct s as [|c s]; simpl; [discriminate|].
  destruct (c =? slash)%N; [discriminate|].
  destruct (split_slash s); discriminate.
Qed.

Lemma split_slash_plain (s : str) : plain s = true -> split_slash s = [s].
Proof.
  induction s as [|c s IH]; [reflexivity|]. intros H.
  apply plain_cons in H as [Hc Hs]. simpl. now rewrite Hc, (IH Hs).
Qed.

(** A prefix without a slash stays with the first piece. *)
Lemma split_slash_head (a b : str) :
  plain a = true ->
  exists w ws, split_slash b = w :: ws
               /\ split_slash (a ++ b) = (a ++ w) :: ws.
Proof.
  induction a as [|c a IH]; intros H.
  - destruct (split_slash b) as [|w ws] eqn:Hb.
    + now apply split_slash_nonempty in Hb.
    + exists w, ws. split; [reflexivity | exact Hb].
  - apply plain_cons in H as [Hc Ha].
    destruct (IH Ha) as (w & ws & Hb & Hab).
    exists w, ws. split; [exact Hb|]. simpl. now rewrite Hc, Hab.
Qed.

(** A suffix without a slash stays with the last piece. *)
Lemma split_slash_last (a b : str) :
  plain b = true ->
  split_slash (a ++ b)
  = removelast (split_slash a) ++ [last (split_slash a) [] ++ b].
Proof.
  intros Hb. induction a as [|c a IH].
  - simpl. now apply split_slash_plain.
  - cbn [app split_slash]. rewrite IH.
    destruct (split_slash a) as [|w ws] eqn:Ha.
    + now apply split_slash_nonempty in Ha.
    + destruct (c =? slash)%N.
      * destruct ws; reflexivity.
      * destruct ws; reflexivity.
Qed.

Lemma is_part_long (w : str) : 2 <= length w -> is_part w = true.
Proof.
  intros H. unfold is_part. apply negb_true_iff, orb_false_iff. split.
  - destruct (str_eqb_spec w []) as [->|]; [simpl in H; lia | reflexivity].
  - destruct (str_eqb_spec w (lit ".")) as [->|]; [simpl in H; lia | reflexivity].
Qed.

Lemma anchor_plain (a b : str) :
  plain a = true -> a <> [] -> anchor (a ++ b) = None.
Proof.
  destruct a as [|c a]; [congruence|]. intros H _.
  apply plain_cons in H as [Hc _]. simpl. now rewrite Hc.
Qed.

(** A name without a slash is an entry of the directory. *)
Lemma child_plain (d : path) (n : str) :
  plain n = true -> 2 <= length n -> child d n = d ++ [n].
Proof.
  intros Hp Hlen. unfold child.
  rewrite <- (app_nil_r n) at 1. rewrite anchor_plain; auto.
  - unfold parts. rewrite split_slash_plain by exact Hp. simpl.
    now rewrite is_part_long.
  - intros ->. simpl in Hlen. lia.
Qed.

(** Where a stamped name leads. *)
Lemma child_stamped (d : path) (stem vid ext : str) (ts : Z) :
  plain stem = true -> stem <> [] -> plain ext = true -> ext <> [] ->
  child d (stamped stem vid ts ext)
  = d ++ folder stem vid
      ++ [leaf stem vid ++ lit "_" ++ str_of_Z ts ++ ext].
Proof.
  intros Hs Hne He Hene. unfold child, stamped.
  rewrite anchor_plain by assumption. f_equal.
  unfold parts, folder, leaf.
  replace (stem ++ lit "_" ++ vid ++ lit "_" ++ str_of_Z ts ++ ext)
    with ((stem ++ lit "_" ++ vid) ++ (lit "_" ++ str_of_Z ts ++ ext))
    by now rewrite <- !app_assoc.
  rewrite split_slash_last.
  - rewrite filter_app. f_equal. cbn [filter]. rewrite is_part_long.
    + reflexivity.
    + rewrite !length_app. destruct ext; [congruence|]. simpl. lia.
  - rewrite !plain_app, str_of_Z_plain, He. reflexivity.
Qed.

(** With an identifier without a slash the file lies in the directory
    itself, under the stamped name. *)
Lemma stamped_plain (stem vid ext : str) (ts : Z) :
  plain stem = true -> plain vid = true ->
  folder stem vid = []
  /\ leaf stem vid ++ lit "_" ++ str_of_Z ts ++ ext
     = stamped stem vid ts ext.
Proof.
  intros Hs Hv. unfold folder, leaf, stamped.
  rewrite split_slash_plain by (rewrite !plain_app, Hs, Hv; reflexivity).
  split; [reflexivity|]. simpl. now rewrite <- !app_assoc.
Qed.

(** The first level below the directory begins with the stem. *)
Lemma child_stamped_head (d : path) (stem vid ext : str) (ts : Z) :
  plain stem = true -> stem <> [] -> plain ext = true -> ext <> [] ->
  exists w tl,
    child d (stamped stem vid ts ext) = d ++ (stem ++ lit "_" ++ w) :: tl.
Proof.
  intros Hs Hne He Hene. rewrite child_stamped by assumption.
  unfold folder, leaf.
  destruct (split_slash_head (stem ++ lit "_") vid) as (w & ws & Hv & Hsv).
  { rewrite plain_app, Hs. reflexivity. }
  rewrite <- app_assoc in Hsv. rewrite Hsv.
  destruct ws as [|w' ws].
  - exists (w ++ lit "_" ++ str_of_Z ts ++ ext), []. simpl.
    now rewrite <- !app_assoc.
  - change (removelast (((stem ++ lit "_") ++ w) :: w' :: ws))
      with (((stem ++ lit "_") ++ w) :: removelast (w' :: ws)).
    cbn [filter]. rewrite is_part_long.
    + eexists w, _. rewrite <- app_assoc. reflexivity.
    + rewrite !length_app. destruct stem; [congruence|]. simpl. lia.
Qed.

Lemma parent_snoc (d : path) (x : str) : parent (d ++ [x]) = d.
Proof. apply removelast_last. Qed.

Lemma name_snoc (d : path) (x : str) : name (d ++ [x]) = x.
Proof. apply last_last. Qed.

Lemma parent_child (d : path) (n : str) :
  plain n = true -> 2 <= length n -> parent (child d n) = d.
Proof. intros. rewrite child_plain by assumption. apply parent_snoc. Qed.

Lemma name_child (d : path) (n : str) :
  plain n = true -> 2 <= length n -> name (child d n) = n.
Proof. intros. rewrite child_plain by assumption. apply name_snoc. Qed.

(** The five output paths, laid out. *)
Lemma output_paths_shape (vid : str) (ts : Z) :
  output_paths vid ts
  = [RAW_DIR ++ folder (lit "comments") vid
       ++ [leaf (lit "comments") vid ++ lit "_" ++ str_of_Z ts ++ lit ".json"];
     PROC_DIR ++ folder (lit "processed") vid
       ++ [leaf (lit "processed") vid ++ lit "_" ++ str_of_Z ts ++ lit ".csv"];
     OUT_DIR ++ folder (lit "kpi") vid
       ++ [leaf (lit "kpi") vid ++ lit "_" ++ str_of_Z ts ++ lit ".csv"];
     OUT_DIR ++ folder (lit "wordcloud_positive") vid
       ++ [leaf (lit "wordcloud_positive") vid ++ lit "_" ++ str_of_Z ts
           ++ lit ".png"];
     OUT_DIR ++ folder (lit "wordcloud_negative") vid
       ++ [leaf (lit "wordcloud_negative") vid ++ lit "_" ++ str_of_Z ts
           ++ lit ".png"]].
Proof.
  unfold output_paths, raw_path, out_csv_path, kpi_path, pos_path, neg_path.
  rewrite !child_stamped by (reflexivity || discriminate). reflexivity.
Qed.

Lemma parent_deep (d sub : path) (x : str) : parent (d ++ sub ++ [x]) = d ++ sub.
Proof. rewrite app_assoc. apply parent_snoc. Qed.

Lemma name_deep (d sub : path) (x : str) : name (d ++ sub ++ [x]) = x.
Proof. rewrite app_assoc. apply name_snoc. Qed.

(** *** The file system *)

Lemma find_filter_other (p q : path) (fs : filesystem) :
  path_eqb p q = false ->
  find (fun e => path_eqb (fst e) p)
       (filter (fun e => negb (path_eqb (fst e) q)) fs)
  = find (fun e => path_eqb (fst e) p) fs.
Proof.
  intros Hpq. induction fs as [|[x f] fs IH]; simpl; [reflexivity|].
  destruct (path_eqb_spec x q) as [->|Hxq]; simpl.
  - rewrite (path_eqb_sym q p), Hpq. exact IH.
  - now rewrite IH.
Qed.

Lemma lookup_write (p q : path) (f : file) (fs : filesystem) :
  lookup p (write q f fs) = if path_eqb p q then Some f else lookup p fs.
Proof.
  unfold lookup, write. simpl. rewrite (path_eqb_sym q p).
  destruct (path_eqb p q) eqn:Hpq; [reflexivity|].
  now rewrite find_filter_other.
Qed.

Lemma lookup_write_same (p : path) (f : file) (fs : filesystem) :
  lookup p (write p f fs) = Some f.
Proof. now rewrite lookup_write, path_eqb_refl. Qed.

Lemma lookup_write_other (p q : path) (f : file) (fs : filesystem) :
  p <> q -> lookup p (write q f fs) = lookup p fs.
Proof.
  intros H. rewrite lookup_write.
  destruct (path_eqb_spec p q); [contradiction | reflexivity].
Qed.

(** ** The processed table *)

Lemma option_str_eqb_spec (a b : option str) :
  reflect (a = b) (option_str_eqb a b).
Proof.
  destruct a as [x|], b as [y|]; simpl; try (constructor; congruence).
  destruct (str_eqb_spec x y); constructor; congruence.
Qed.

Lemma seen_spec (id : option str) (seen : list (option str)) :
  existsb (option_str_eqb id) seen = true <-> In id seen.
Proof.
  rewrite existsb_exists. split.
  - intros [x [Hin Heq]]. now destruct (option_str_eqb_spec id x) as [->|].
  - intros Hin. exists id. split; [exact Hin|].
    now destruct (option_str_eqb_spec id id).
Qed.

Lemma drop_duplicates_from_fresh (seen : list (option str)) (l : list comment)
    (id : option str) :
  In id (map comment_id (drop_duplicates_from seen l)) -> ~ In id seen.
Proof.
  revert seen; induction l as [|c l IH]; intros seen; simpl; [tauto|].
  destruct (existsb _ seen) eqn:Hs; [apply IH|].
  simpl. intros [<-|Hin].
  - intros Hin. apply seen_spec in Hin. congruence.
  - intros Hseen. apply (IH _ Hin). now right.
Qed.

Lemma drop_duplicates_from_NoDup (seen : list (option str)) (l : list comment) :
  NoDup (map comment_id (drop_duplicates_from seen l)).
Proof.
  revert seen; induction l as [|c l IH]; intros seen; simpl; [constructor|].
  destruct (existsb _ seen); [apply IH|].
  simpl. constructor; [|apply IH].
  intros Hin. apply drop_duplicates_from_fresh in Hin. apply Hin. now left.
Qed.

Lemma drop_duplicates_from_keeps (seen : list (option str)) (l : list comment)
    (id : option str) :
  In id (map comment_id l) ->
  In id seen \/ In id (map comment_id (drop_duplicates_from seen l)).
Proof.
  revert seen; induction l as [|c l IH]; intros seen; simpl; [tauto|].
  intros [<-|Hin].
  - destruct (existsb _ seen) eqn:Hs.
    + left. now apply seen_spec.
    + right. now left.
  - destruct (existsb _ seen) eqn:Hs; [now apply IH|].
    destruct (IH (comment_id c :: seen) Hin) as [[<-|H]|H].
    + right. now left.
    + now left.
    + right. now right.
Qed.

Lemma drop_duplicates_from_incl (seen : list (option str)) (l : list comment)
    (c : comment) :
  In c (drop_duplicates_from seen l) -> In c l.
Proof.
  revert seen; induction l as [|x l IH]; intros seen; simpl; [tauto|].
  destruct (existsb _ seen); [intros H; right; now apply (IH seen)|].
  intros [<-|H]; [now left | right; now apply (IH _ H)].
Qed.

Section Table.

Variable detect : str -> result str.
Variable polarity_scores : str -> scores.
Variable to_datetime : option str -> option Z.

Local Abbreviation derived := (derived detect polarity_scores to_datetime).

Lemma annotate_ok (c : comment) :
  exists r, annotate detect polarity_scores to_datetime c = Ok r
            /\ derived c r.
Proof.
  unfold annotate.
  destruct (safe_lang_returns detect (clean_text (get_or (comment_text c) [])))
    as [l Hl].
  rewrite Hl. simpl. eexists. split; [reflexivity|].
  unfold derived. simpl. repeat split. exact Hl.
Qed.

Lemma apply_annotate_ok (l : list comment) :
  exists df, apply (annotate detect polarity_scores to_datetime) l = Ok df
             /\ Forall2 derived l df.
Proof.
  induction l as [|c l [df [Hdf Hall]]]; simpl.
  - exists []. split; [reflexivity | constructor].
  - destruct (annotate_ok c) as [r [Hr Hd]]. rewrite Hr, Hdf. simpl.
    exists (r :: df). split; [reflexivity | now constructor].
Qed.

(** [annotate] never raises, so with the dates converted the table is
    always built: one row per record that survives [drop_duplicates], in
    order. *)
Lemma processed_table_ok (comments : list comment) :
  exists df,
    processed_table detect polarity_scores to_datetime comments = Ok df
    /\ Forall2 derived (drop_duplicates comments) df.
Proof. apply apply_annotate_ok. Qed.

Lemma derived_base (l : list comment) (df : list row) :
  Forall2 derived l df -> map base df = l.
Proof.
  induction 1 as [|c r l df Hd _ IH]; simpl; [reflexivity|].
  destruct Hd as [-> _]. now rewrite IH.
Qed.

Lemma derived_label (l : list comment) (df : list row) :
  Forall2 derived l df ->
  Forall (fun r => sentiment_vader r = vader_label (compound (row_scores r)))
         df.
Proof.
  induction 1 as [|c r l df Hd _ IH]; constructor; [|exact IH].
  apply Hd.
Qed.

End Table.

(** ** [run] *)

(** A table that was built is the deduplicated one. *)
Lemma processed_table_deduplicated (detect : str -> result str)
    (polarity_scores : str -> scores) (to_datetime : option str -> option Z)
    (comments : list comment) (df : list row) :
  processed_table detect polarity_scores to_datetime comments = Ok df ->
  deduplicated detect polarity_scores to_datetime comments df.
Proof.
  intros Hdf.
  destruct (processed_table_ok detect polarity_scores to_datetime comments)
    as [df' [Hdf' Hd]].
  rewrite Hdf in Hdf'. injection Hdf' as <-.
  pose proof (derived_base _ _ _ _ _ Hd) as Hbase.
  assert (Hids : map (fun r => comment_id (base r)) df
                 = map comment_id (drop_duplicates comments)).
  { rewrite <- Hbase. now rewrite map_map. }
  unfold deduplicated. rewrite Hids.
  split; [apply drop_duplicates_from_NoDup|].
  split; [|now split].
  intros id. split.
  - intros Hin.
    destruct (drop_duplicates_from_keeps [] comments id Hin) as [[]|H].
    exact H.
  - rewrite in_map_iff. intros [c [<- Hc]].
    apply in_map. now apply drop_duplicates_from_incl in Hc.
Qed.

(** *** The output paths *)

(** Two stamped names of different stems lead to different paths. *)
Ltac kinds_differ H :=
  match type of H with
  | child ?d1 (stamped ?s1 ?v1 ?t1 ?e1) = child ?d2 (stamped ?s2 ?v2 ?t2 ?e2) =>
      let E1 := fresh in
      let E2 := fresh in
      destruct (child_stamped_head d1 s1 v1 e1 t1 eq_refl
                  ltac:(discriminate) eq_refl ltac:(discriminate))
        as (? & ? & E1);
      destruct (child_stamped_head d2 s2 v2 e2 t2 eq_refl
                  ltac:(discriminate) eq_refl ltac:(discriminate))
        as (? & ? & E2);
      rewrite E1, E2 in H; vm_compute in H; discriminate H
  end.

(** Two stamped names of one stem lead to one path only for the same
    second and, when the identifiers have no slash, the same video. *)
Lemma same_kind (d : path) (stem ext v1 v2 : str) (t1 t2 : Z) :
  plain stem = true -> stem <> [] -> plain ext = true -> ext <> [] ->
  child d (stamped stem v1 t1 ext) = child d (stamped stem v2 t2 ext) ->
  t1 = t2 /\ (plain v1 = true -> plain v2 = true -> v1 = v2).
Proof.
  intros Hs Hne He Hene H. rewrite !child_stamped in H by assumption.
  apply app_inv_head in H. apply app_inj_tail in H as [_ H].
  change (lit "_") with [95%N] in H. cbn [app] in H.
  assert (H' : (leaf stem v1 ++ 95%N :: str_of_Z t1) ++ ext
               = (leaf stem v2 ++ 95%N :: str_of_Z t2) ++ ext).
  { rewrite <- !app_assoc. exact H. }
  apply app_inv_tail in H'.
  apply split_at_last in H' as [Hl Ht]; try apply str_of_Z_no_underscore.
  apply str_of_Z_inj in Ht. split; [exact Ht|].
  intros P1 P2. unfold leaf in Hl.
  rewrite !split_slash_plain in Hl
    by (rewrite !plain_app, Hs; simpl; assumption).
  simpl in Hl. apply app_inv_head in Hl. now injection Hl.
Qed.

(** Two file names that end in the same extension are stamped with the
    same second if they are equal. *)
Lemma stamped_names_same_ext (l1 l2 ext : str) (t1 t2 : Z) :
  l1 ++ lit "_" ++ str_of_Z t1 ++ ext = l2 ++ lit "_" ++ str_of_Z t2 ++ ext ->
  t2 = t1.
Proof.
  intros H. change (lit "_") with [95%N] in H. cbn [app] in H.
  assert (H' : (l1 ++ 95%N :: str_of_Z t1) ++ ext
               = (l2 ++ 95%N :: str_of_Z t2) ++ ext).
  { rewrite <- !app_assoc. exact H. }
  apply app_inv_tail in H'.
  apply split_at_last in H' as [_ Ht]; try apply str_of_Z_no_underscore.
  symmetry. now apply str_of_Z_inj.
Qed.

Lemma output_paths_distinct (vid : str) (ts : Z) :
  path_eqb (out_csv_path vid ts) (raw_path vid ts) = false
  /\ path_eqb (out_csv_path vid ts) (kpi_path vid ts) = false
  /\ path_eqb (out_csv_path vid ts) (pos_path vid ts) = false
  /\ path_eqb (out_csv_path vid ts) (neg_path vid ts) = false
  /\ path_eqb (raw_path vid ts) (kpi_path vid ts) = false
  /\ path_eqb (raw_path vid ts) (pos_path vid ts) = false
  /\ path_eqb (raw_path vid ts) (neg_path vid ts) = false
  /\ path_eqb (kpi_path vid ts) (pos_path vid ts) = false
  /\ path_eqb (kpi_path vid ts) (neg_path vid ts) = false
  /\ path_eqb (pos_path vid ts) (neg_path vid ts) = false.
Proof.
  unfold raw_path, out_csv_path, kpi_path, pos_path, neg_path.
  repeat split;
    match goal with
    | |- path_eqb ?a ?b = false =>
        let H := fresh in
        destruct (path_eqb_spec a b) as [H|_]; [kinds_differ H | reflexivity]
    end.
Qed.

(** Two runs share an output path only if they started in the same second
    and, for identifiers without a slash, are for the same video. *)
Lemma output_paths_disjoint (v1 v2 : str) (t1 t2 : Z) (p : path) :
  In p (output_paths v1 t1) -> In p (output_paths v2 t2) ->
  t1 = t2 /\ (plain v1 = true -> plain v2 = true -> v1 = v2).
Proof.
  unfold output_paths, raw_path, out_csv_path, kpi_path, pos_path, neg_path.
  intros [<-|[<-|[<-|[<-|[<-|[]]]]]] [H|[H|[H|[H|[H|[]]]]]];
    try (symmetry in H; apply same_kind in H;
         [exact H | reflexivity | discriminate | reflexivity | discriminate]);
    exfalso; kinds_differ H.
Qed.

Lemma frame_write (ps : list path) (p q : path) (f : file)
    (fs fs0 : filesystem) :
  In q ps ->
  In p ps \/ lookup p fs = lookup p fs0 ->
  In p ps \/ lookup p (write q f fs) = lookup p fs0.
Proof.
  intros Hq [H|H]; [now left|]. rewrite lookup_write.
  destruct (path_eqb_spec p q) as [->|_]; [now left | now right].
Qed.

(** *** Steps *)

Lemma snd_finish (r : result path * filesystem) : snd (finish r) = snd r.
Proof. now destruct r as [[q|e] fs]. Qed.

Section RunFacts.

Variable detect : str -> result str.
Variable polarity_scores : str -> scores.
Variable pd_to_datetime : list (option str) -> result (option str -> option Z).
Variable lower : str -> str.
Variable mean : list float -> float.
Variable generate : str -> bool.
Variable store : path -> file -> stored.

Local Abbreviation run' :=
  (run detect polarity_scores pd_to_datetime lower mean generate store).
Local Abbreviation table := (processed_table detect polarity_scores).
Local Abbreviation make_wordcloud' := (make_wordcloud lower generate store).

(** What [save] does, outcome by outcome. *)
Lemma save_cases (p : path) (f : file) (fs : filesystem) :
  (store p f = Stored /\ save store p f fs = (Ok tt, write p f fs))
  \/ (exists e, store p f = Refused e /\ save store p f fs = (Raise e, fs))
  \/ (exists e, store p f = Torn e
                /\ save store p f fs = (Raise e, write p Incomplete fs)).
Proof.
  unfold save. destruct (store p f) as [|e|e];
    [left | right; left; exists e | right; right; exists e]; now split.
Qed.

Lemma save_frame (p q : path) (f : file) (fs : filesystem) :
  q <> p -> lookup q (snd (save store p f fs)) = lookup q fs.
Proof.
  intros H. unfold save.
  destruct (store p f); simpl; rewrite ?lookup_write_other; auto.
Qed.

Lemma make_wordcloud_frame (series : list str) (out : path) (label : str)
    (fs : filesystem) (q : path) :
  q <> out ->
  lookup q (snd (make_wordcloud' series out label fs)) = lookup q fs.
Proof.
  intros H. unfold make_wordcloud.
  destruct (negb (truthy (strip _))); [reflexivity|].
  destruct (generate _); [now apply save_frame | reflexivity].
Qed.

(** What [make_wordcloud] leaves at its path. *)
Lemma make_wordcloud_leaves (series : list str) (out : path) (label : str)
    (fs : filesystem) :
  lookup out (snd (make_wordcloud' series out label fs)) = lookup out fs
  \/ lookup out (snd (make_wordcloud' series out label fs)) = Some Incomplete
  \/ exists text colormap title,
       lookup out (snd (make_wordcloud' series out label fs))
       = Some (WordcloudPng text colormap title).
Proof.
  unfold make_wordcloud.
  destruct (negb (truthy (strip _))); [now left|].
  destruct (generate _); [|now left].
  unfold save. destruct (store out _); simpl.
  - right. right. rewrite lookup_write_same. eauto.
  - now left.
  - right. left. apply lookup_write_same.
Qed.

(** The two word clouds at the end of [run]: they return the path or
    raise, and touch nothing but their own two files. *)
Lemma wordclouds (pos_series neg_series : list str) (vid : str) (ts : Z)
    (out_csv : path) (fs : filesystem) :
  let m :=
    (make_wordcloud' pos_series (pos_path vid ts) Positive ;;;
     make_wordcloud' neg_series (neg_path vid ts) Negative ;;;
     ret out_csv) in
  (fst (m fs) = Ok out_csv \/ exists e, fst (m fs) = Raise e)
  /\ (forall q, q <> pos_path vid ts -> q <> neg_path vid ts ->
                lookup q (snd (m fs)) = lookup q fs)
  /\ (forall q f, lookup q (snd (m fs)) = Some f ->
                  lookup q fs = Some f
                  \/ (q = pos_path vid ts \/ q = neg_path vid ts)
                     /\ (f = Incomplete
                         \/ exists text colormap title,
                              f = WordcloudPng text colormap title)).
Proof.
  intros m. subst m. unfold io_bind, ret.
  pose proof (make_wordcloud_frame pos_series (pos_path vid ts) Positive fs)
    as Fp.
  pose proof (make_wordcloud_leaves pos_series (pos_path vid ts) Positive fs)
    as Lp.
  destruct (make_wordcloud' pos_series (pos_path vid ts) Positive fs)
    as [[[]|e] fs4]; simpl snd in *.
  - pose proof (make_wordcloud_frame neg_series (neg_path vid ts) Negative fs4)
      as Fn.
    pose proof (make_wordcloud_leaves neg_series (neg_path vid ts) Negative fs4)
      as Ln.
    assert (Hout : forall r fs5,
               make_wordcloud' neg_series (neg_path vid ts) Negative fs4
               = (r, fs5) ->
               (forall q, q <> pos_path vid ts -> q <> neg_path vid ts ->
                          lookup q fs5 = lookup q fs)
               /\ (forall q f, lookup q fs5 = Some f ->
                     lookup q fs = Some f
                     \/ (q = pos_path vid ts \/ q = neg_path vid ts)
                        /\ (f = Incomplete
                            \/ exists text colormap title,
                                 f = WordcloudPng text colormap title))).
    { intros r fs5 E. rewrite E in Fn, Ln. simpl snd in *. split.
      - intros q Hp Hn. now rewrite Fn, Fp.
      - intros q f Hq.
        destruct (path_eqb_spec q (neg_path vid ts)) as [->|Hn].
        + destruct Ln as [Ln|[Ln|(t & c & ti & Ln)]]; rewrite Ln in Hq.
          * destruct (path_eqb_spec (neg_path vid ts) (pos_path vid ts))
              as [E'|Hp].
            -- rewrite E' in Hq.
               destruct Lp as [Lp|[Lp|(t & c & ti & Lp)]]; rewrite Lp in Hq.
               ++ left. now rewrite E'.
               ++ right. injection Hq as <-. split; [now right | now left].
               ++ right. injection Hq as <-. split; [now right | eauto].
            -- rewrite Fp in Hq by exact Hp. now left.
          * right. injection Hq as <-. split; [now right | now left].
          * right. injection Hq as <-. split; [now right | eauto].
        + rewrite Fn in Hq by exact Hn.
          destruct (path_eqb_spec q (pos_path vid ts)) as [->|Hp].
          * destruct Lp as [Lp|[Lp|(t & c & ti & Lp)]]; rewrite Lp in Hq.
            -- now left.
            -- right. injection Hq as <-. split; [now left | now left].
            -- right. injection Hq as <-. split; [now left | eauto].
          * rewrite Fp in Hq by exact Hp. now left. }
    destruct (make_wordcloud' neg_series (neg_path vid ts) Negative fs4)
      as [[[]|e] fs5]; simpl;
      (split; [eauto | now apply (Hout _ _ eq_refl)]).
  - simpl. split; [eauto|]. split.
    + intros q Hp _. now apply Fp.
    + intros q f Hq.
      destruct (path_eqb_spec q (pos_path vid ts)) as [->|Hp].
      * destruct Lp as [Lp|[Lp|(t & c & ti & Lp)]]; rewrite Lp in Hq.
        -- now left.
        -- right. injection Hq as <-. split; [now left | now left].
        -- right. injection Hq as <-. split; [now left | eauto].
      * rewrite Fp in Hq by exact Hp. now left.
Qed.

Lemma run_unfold (vid : str) (max_pages : option Z) (max_comments ts : Z)
    (utcnow : str) (answers : list outcome) (fs : filesystem)
    (c : comment) (cs : list comment) :
  snd (fetch_comments vid max_pages max_comments answers)
  = Returned (c :: cs) ->
  run' vid max_pages max_comments ts utcnow answers fs
  = finish
      ((save store (raw_path vid ts) (RawJson (c :: cs)) ;;;
        dates <~ lift (pd_to_datetime
                         (map published (drop_duplicates (c :: cs)))) ;;
        df <~ lift (table dates (c :: cs)) ;;
        save store (out_csv_path vid ts) (ProcessedCsv df) ;;;
        save store (kpi_path vid ts) (KpiCsv (kpi_of mean vid utcnow df)) ;;;
        make_wordcloud' (map clean_comment (filter (has_label Positive) df))
          (pos_path vid ts) Positive ;;;
        make_wordcloud' (map clean_comment (filter (has_label Negative) df))
          (neg_path vid ts) Negative ;;;
        ret (out_csv_path vid ts))
         fs).
Proof. intros H. unfold run. now rewrite H. Qed.

(** How far [run] gets once records were fetched: each write may be
    refused or die on the way, the conversion of the dates may raise, and
    the files written so far stay. *)
Lemma run_progress (vid : str) (max_pages : option Z) (max_comments ts : Z)
    (utcnow : str) (answers : list outcome) (fs : filesystem)
    (c : comment) (cs : list comment) :
  snd (fetch_comments vid max_pages max_comments answers)
  = Returned (c :: cs) ->
  let comments := c :: cs in
  let raw := raw_path vid ts in
  let csv := out_csv_path vid ts in
  let kpi := kpi_path vid ts in
  let out := run' vid max_pages max_comments ts utcnow answers fs in
  let fs1 := write raw (RawJson comments) fs in
  (exists e, store raw (RawJson comments) = Refused e
             /\ out = (RunRaised e, fs))
  \/ (exists e, store raw (RawJson comments) = Torn e
                /\ out = (RunRaised e, write raw Incomplete fs))
  \/ (store raw (RawJson comments) = Stored
      /\ ((exists e,
             pd_to_datetime (map published (drop_duplicates comments))
             = Raise e
             /\ out = (RunRaised e, fs1))
          \/ exists dates df,
               pd_to_datetime (map published (drop_duplicates comments))
               = Ok dates
               /\ table dates comments = Ok df
               /\ let fs2 := write csv (ProcessedCsv df) fs1 in
                  let k := kpi_of mean vid utcnow df in
                  let fs3 := write kpi (KpiCsv k) fs2 in
                  (exists e, store csv (ProcessedCsv df) = Refused e
                             /\ out = (RunRaised e, fs1))
                  \/ (exists e, store csv (ProcessedCsv df) = Torn e
                                /\ out = (RunRaised e,
                                          write csv Incomplete fs1))
                  \/ (store csv (ProcessedCsv df) = Stored
                      /\ ((exists e, store kpi (KpiCsv k) = Refused e
                                     /\ out = (RunRaised e, fs2))
                          \/ (exists e, store kpi (KpiCsv k) = Torn e
                                        /\ out = (RunRaised e,
                                                  write kpi Incomplete fs2))
                          \/ (store kpi (KpiCsv k) = Stored
                              /\ (fst out = RunReturned csv
                                  \/ exists e, fst out = RunRaised e)
                              /\ (forall q,
                                    q <> pos_path vid ts ->
                                    q <> neg_path vid ts ->
                                    lookup q (snd out) = lookup q fs3)
                              /\ (forall q f,
                                    lookup q (snd out) = Some f ->
                                    lookup q fs3 = Some f
                                    \/ (q = pos_path vid ts
                                        \/ q = neg_path vid ts)
                                       /\ (f = Incomplete
                                           \/ exists text colormap title,
                                                f = WordcloudPng
                                                      text colormap title))))))).
Proof.
  intros Hfetch comments raw csv kpi out fs1.
  assert (E : out = _) by exact (run_unfold _ _ _ ts utcnow _ fs _ _ Hfetch).
  clearbody out. subst comments raw csv kpi fs1.
  unfold io_bind at 1 in E.
  destruct (save_cases (raw_path vid ts) (RawJson (c :: cs)) fs)
    as [[Hraw S]|[(e & Hraw & S)|(e & Hraw & S)]];
    rewrite S in E; cbv beta iota in E;
    [|left; now exists e | right; left; now exists e].
  right. right. split; [exact Hraw|].
  unfold io_bind at 1 in E. unfold lift at 1 in E.
  destruct (pd_to_datetime _) as [dates|e] eqn:Hpd; cbv beta iota in E;
    [|left; now exists e].
  right. exists dates.
  destruct (processed_table_ok detect polarity_scores dates (c :: cs))
    as [df [Htab _]].
  exists df. split; [reflexivity|]. split; [exact Htab|].
  unfold io_bind at 1 in E. unfold lift at 1 in E. rewrite Htab in E.
  cbv beta iota in E.
  unfold io_bind at 1 in E.
  destruct (save_cases (out_csv_path vid ts) (ProcessedCsv df)
              (write (raw_path vid ts) (RawJson (c :: cs)) fs))
    as [[Hcsv S2]|[(e & Hcsv & S2)|(e & Hcsv & S2)]];
    rewrite S2 in E; cbv beta iota in E;
    [|left; now exists e | right; left; now exists e].
  right. right. split; [exact Hcsv|].
  unfold io_bind at 1 in E.
  destruct (save_cases (kpi_path vid ts) (KpiCsv (kpi_of mean vid utcnow df))
              (write (out_csv_path vid ts) (ProcessedCsv df)
                 (write (raw_path vid ts) (RawJson (c :: cs)) fs)))
    as [[Hkpi S3]|[(e & Hkpi & S3)|(e & Hkpi & S3)]];
    rewrite S3 in E; cbv beta iota in E;
    [|left; now exists e | right; left; now exists e].
  right. right. split; [exact Hkpi|].
  destruct (wordclouds
              (map clean_comment (filter (has_label Positive) df))
              (map clean_comment (filter (has_label Negative) df))
              vid ts (out_csv_path vid ts)
              (write (kpi_path vid ts) (KpiCsv (kpi_of mean vid utcnow df))
                 (write (out_csv_path vid ts) (ProcessedCsv df)
                    (write (raw_path vid ts) (RawJson (c :: cs)) fs))))
    as (Hr & Hf & Hl).
  cbv zeta in Hr, Hf, Hl. rewrite E, snd_finish.
  split; [|split; assumption].
  destruct Hr as [Hr|[e Hr]];
    match type of Hr with
    | fst ?x = _ => destruct x as [[p|e'] fs5]
    end; simpl in *; [left|discriminate|discriminate|right; exists e];
    congruence.
Qed.

(** [run] touches the file system at its five output paths only. *)
Lemma run_frame (vid : str) (max_pages : option Z) (max_comments ts : Z)
    (utcnow : str) (answers : list outcome) (fs : filesystem) (p : path) :
  In p (output_paths vid ts)
  \/ lookup p (snd (run' vid max_pages max_comments ts utcnow answers fs))
     = lookup p fs.
Proof.
  destruct (snd (fetch_comments vid max_pages max_comments answers))
    as [[|c cs]|e|] eqn:Hfetch;
    try (right; unfold run; now rewrite Hfetch).
  assert (Hw : forall q g fs1,
             In q (output_paths vid ts) ->
             In p (output_paths vid ts) \/ lookup p fs1 = lookup p fs ->
             In p (output_paths vid ts)
             \/ lookup p (write q g fs1) = lookup p fs).
  { intros q g fs1 Hq H. now apply frame_write. }
  assert (Hraw : In (raw_path vid ts) (output_paths vid ts))
    by (simpl; tauto).
  assert (Hcsv : In (out_csv_path vid ts) (output_paths vid ts))
    by (simpl; tauto).
  assert (Hkpi : In (kpi_path vid ts) (output_paths vid ts))
    by (simpl; tauto).
  destruct (run_progress vid max_pages max_comments ts utcnow answers fs
              c cs Hfetch)
    as [(e & _ & ->)|[(e & _ & ->)|(_ & [(e & _ & ->)|(dates & df & _ & _ & H)])]];
    cbn [snd]; auto.
  cbv zeta in H.
  destruct H as [(e & _ & ->)|[(e & _ & ->)|(_ & [(e & _ & ->)|[(e & _ & ->)|H]])]];
    cbn [snd]; auto 6.
  destruct H as (_ & _ & Hf & _).
  destruct (path_eqb_spec p (pos_path vid ts)) as [->|Hp];
    [left; simpl; tauto|].
  destruct (path_eqb_spec p (neg_path vid ts)) as [->|Hn];
    [left; simpl; tauto|].
  rewrite (Hf p Hp Hn). auto 6.
Qed.

(** What a returning [run] leaves behind. *)
Lemma run_returned (vid : str) (max_pages : option Z) (max_comments ts : Z)
    (utcnow : str) (answers : list outcome) (fs : filesystem) (p : path) :
  fst (run' vid max_pages max_comments ts utcnow answers fs) = RunReturned p ->
  exists comments dates df,
    snd (fetch_comments vid max_pages max_comments answers) = Returned comments
    /\ comments <> []
    /\ pd_to_datetime (map published (drop_duplicates comments)) = Ok dates
    /\ table dates comments = Ok df
    /\ p = out_csv_path vid ts
    /\ lookup (raw_path vid ts)
         (snd (run' vid max_pages max_comments ts utcnow answers fs))
       = Some (RawJson comments)
    /\ lookup (out_csv_path vid ts)
         (snd (run' vid max_pages max_comments ts utcnow answers fs))
       = Some (ProcessedCsv df)
    /\ lookup (kpi_path vid ts)
         (snd (run' vid max_pages max_comments ts utcnow answers fs))
       = Some (KpiCsv (kpi_of mean vid utcnow df)).
Proof.
  destruct (snd (fetch_comments vid max_pages max_comments answers))
    as [[|c cs]|e|] eqn:Hfetch;
    try (unfold run; rewrite Hfetch; discriminate).
  intros Hret.
  destruct (output_paths_distinct vid ts)
    as (Hcr & Hck & Hcp & Hcn & Hrk & Hrp & Hrn & Hkp & Hkn & _).
  destruct (run_progress vid max_pages max_comments ts utcnow answers fs
              c cs Hfetch)
    as [(e & _ & E)|[(e & _ & E)|(_ & [(e & _ & E)|(dates & df & Hpd & Htab & H)])]];
    try (rewrite E in Hret; discriminate).
  cbv zeta in H.
  destruct H as [(e & _ & E)|[(e & _ & E)|(_ & [(e & _ & E)|[(e & _ & E)|H]])]];
    try (rewrite E in Hret; discriminate).
  destruct H as (_ & Hr & Hf & _).
  exists (c :: cs), dates, df.
  split; [reflexivity|]. split; [discriminate|]. split; [exact Hpd|].
  split; [exact Htab|]. split.
  { destruct Hr as [Hr|[e Hr]]; congruence. }
  assert (Hne : forall a b, path_eqb a b = false -> a <> b).
  { intros a b E ->. now rewrite path_eqb_refl in E. }
  rewrite !Hf by (apply Hne; assumption).
  rewrite !lookup_write, Hrk, Hck, !path_eqb_refl.
  rewrite (path_eqb_sym (raw_path vid ts)), Hcr. auto.
Qed.

End RunFacts.

Lemma lookup_write_inv (p q : path) (g f : file) (fs : filesystem) :
  lookup p (write q g fs) = Some f ->
  (p = q /\ g = f) \/ (p <> q /\ lookup p fs = Some f).
Proof.
  rewrite lookup_write. destruct (path_eqb_spec p q) as [->|Hne].
  - intros [= ->]. now left.
  - intros H. now right.
Qed.

(** Reads a file found under a chain of writes. *)
Ltac unwind H :=
  repeat match type of H with
         | lookup _ (write _ _ _) = Some _ =>
             apply lookup_write_inv in H as [[_ H]|[? H]];
             [try discriminate H|]
         end.

Section RunClaims.

Variable detect : str -> result str.
Variable polarity_scores : str -> scores.
Variable to_datetime : option str -> option Z.
Variable pd_to_datetime : list (option str) -> result (option str -> option Z).
Variable lower : str -> str.
Variable mean : list float -> float.
Variable generate : str -> bool.
Variable store : path -> file -> stored.

Local Abbreviation run' :=
  (run detect polarity_scores pd_to_datetime lower mean generate store).
Local Abbreviation table := (processed_table detect polarity_scores to_datetime).

(** C1: the label follows the two thresholds on the compound score
    (Positive exactly from 0.05 up, Negative exactly from -0.05 down,
    Neutral exactly in between and on NaN), and in the processed table,
    the one [run] writes, the [sentiment_vader] column is [vader_label] of
    the [compound] column, row by row. *)
Theorem sentiment_label_thresholds :
  (forall c : float,
      (vader_label c = Positive <-> (threshold <=? c)%float = true)
      /\ (vader_label c = Negative <-> (c <=? - threshold)%float = true)
      /\ (vader_label c = Neutral <->
          (threshold <=? c)%float = false
          /\ (c <=? - threshold)%float = false))
  /\ (forall comments, exists df,
        table comments = Ok df
        /\ map sentiment_vader df
           = map (fun r => vader_label (compound (row_scores r))) df)
  /\ (forall vid max_pages max_comments ts utcnow answers fs p,
        fst (run' vid max_pages max_comments ts utcnow answers fs)
        = RunReturned p ->
        exists df,
          lookup p (snd (run' vid max_pages max_comments ts utcnow answers fs))
          = Some (ProcessedCsv df)
          /\ map sentiment_vader df
             = map (fun r => vader_label (compound (row_scores r))) df).
Proof.
  assert (Hcol : forall dates l df,
                 Forall2 (derived detect polarity_scores dates) l df ->
                 map sentiment_vader df
                 = map (fun r => vader_label (compound (row_scores r))) df).
  { intros dates l df H. apply derived_label in H.
    induction H as [|r df Hr _ IH]; simpl; [reflexivity | now rewrite Hr, IH]. }
  split; [|split].
  - intros c. split; [apply vader_label_positive|].
    split; [apply vader_label_negative | apply vader_label_neutral].
  - intros comments.
    destruct (processed_table_ok detect polarity_scores to_datetime comments)
      as [df [Hdf Hd]].
    exists df. split; [exact Hdf | now apply (Hcol _ _ _ Hd)].
  - intros vid max_pages max_comments ts utcnow answers fs p Hret.
    apply run_returned in Hret
      as (comments & dates & df & _ & _ & _ & Hdf & -> & _ & Hcsv & _).
    exists df. split; [exact Hcsv|].
    destruct (processed_table_ok detect polarity_scores dates comments)
      as [df' [Hdf' Hd]].
    rewrite Hdf in Hdf'. injection Hdf' as <-. now apply (Hcol _ _ _ Hd).
Qed.

(** C4: the processed table that [run] persists is deduplicated by
    identifier, whether [run] goes on to return or raises after writing
    it.  A table found after the call was there before the call, or it
    lies at the processed path and is the deduplicated table of the
    fetched records: no identifier twice, every fetched identifier once,
    the rows being the records [drop_duplicates] keeps, in order, each
    derived column computed from the kept record of its row.  As soon as
    that table was written it stays where it is, whatever the later steps
    do; and when [run] returns, it is at the path returned. *)
Theorem run_table_deduplicated
    (vid : str) (max_pages : option Z) (max_comments ts : Z) (utcnow : str)
    (answers : list outcome) (fs : filesystem) :
  (forall p df,
      lookup p (snd (run' vid max_pages max_comments ts utcnow answers fs))
      = Some (ProcessedCsv df) ->
      lookup p fs = Some (ProcessedCsv df)
      \/ exists comments dates,
           snd (fetch_comments vid max_pages max_comments answers)
           = Returned comments
           /\ p = out_csv_path vid ts
           /\ pd_to_datetime (map published (drop_duplicates comments))
              = Ok dates
           /\ deduplicated detect polarity_scores dates comments df)
  /\ (forall c cs dates df,
        snd (fetch_comments vid max_pages max_comments answers)
        = Returned (c :: cs) ->
        store (raw_path vid ts) (RawJson (c :: cs)) = Stored ->
        pd_to_datetime (map published (drop_duplicates (c :: cs))) = Ok dates ->
        processed_table detect polarity_scores dates (c :: cs) = Ok df ->
        store (out_csv_path vid ts) (ProcessedCsv df) = Stored ->
        lookup (out_csv_path vid ts)
          (snd (run' vid max_pages max_comments ts utcnow answers fs))
        = Some (ProcessedCsv df)
        /\ deduplicated detect polarity_scores dates (c :: cs) df)
  /\ (forall p,
        fst (run' vid max_pages max_comments ts utcnow answers fs)
        = RunReturned p ->
        exists comments dates df,
          snd (fetch_comments vid max_pages max_comments answers)
          = Returned comments
          /\ pd_to_datetime (map published (drop_duplicates comments))
             = Ok dates
          /\ lookup p
               (snd (run' vid max_pages max_comments ts utcnow answers fs))
             = Some (ProcessedCsv df)
          /\ deduplicated detect polarity_scores dates comments df).
Proof.
  destruct (output_paths_distinct vid ts)
    as (Hcr & Hck & Hcp & Hcn & Hrk & Hrp & Hrn & Hkp & Hkn & _).
  assert (Hne : forall a b, path_eqb a b = false -> a <> b).
  { intros a b E ->. now rewrite path_eqb_refl in E. }
  split; [|split].
  - intros p df Hp.
    destruct (snd (fetch_comments vid max_pages max_comments answers))
      as [[|c cs]|e|] eqn:Hfetch;
      try (left; revert Hp; unfold run; now rewrite Hfetch).
    destruct (run_progress detect polarity_scores pd_to_datetime lower mean
                generate store vid max_pages max_comments ts utcnow answers
                fs c cs Hfetch)
      as [(e & _ & E)|[(e & _ & E)|(_ & [(e & _ & E)|(dates & df0 & Hpd & Htab & H)])]];
      try (rewrite E in Hp; cbn [snd] in Hp; unwind Hp; now left).
    assert (Hded : forall df1, ProcessedCsv df0 = ProcessedCsv df1 ->
                     exists comments dates1,
                       Returned (c :: cs) = Returned comments
                       /\ out_csv_path vid ts = out_csv_path vid ts
                       /\ pd_to_datetime (map published (drop_duplicates comments))
                          = Ok dates1
                       /\ deduplicated detect polarity_scores dates1 comments df1).
    { intros df1 [= <-]. exists (c :: cs), dates.
      split; [reflexivity|]. split; [reflexivity|]. split; [exact Hpd|].
      now apply processed_table_deduplicated. }
    cbv zeta in H.
    destruct H as [(e & _ & E)|[(e & _ & E)|(_ & [(e & _ & E)|[(e & _ & E)|H]])]];
      try (rewrite E in Hp; cbn [snd] in Hp;
           apply lookup_write_inv in Hp as [[-> Hp]|[? Hp]];
           [try discriminate Hp; right; now apply Hded|];
           try (apply lookup_write_inv in Hp as [[-> Hp]|[? Hp]];
                [try discriminate Hp; right; now apply Hded|]);
           try (apply lookup_write_inv in Hp as [[-> Hp]|[? Hp]];
                [try discriminate Hp; right; now apply Hded|]);
           now left).
    destruct H as (_ & _ & _ & Hl).
    apply Hl in Hp. destruct Hp as [Hp|[_ [Hq|(t & cm & ti & Hq)]]];
      try discriminate Hq.
    apply lookup_write_inv in Hp as [[-> Hp]|[? Hp]]; [discriminate Hp|].
    apply lookup_write_inv in Hp as [[-> Hp]|[? Hp]];
      [right; now apply Hded|].
    apply lookup_write_inv in Hp as [[-> Hp]|[? Hp]]; [discriminate Hp|].
    now left.
  - intros c cs dates df Hfetch Hraw Hpd Htab Hcsv.
    split; [|now apply processed_table_deduplicated].
    destruct (run_progress detect polarity_scores pd_to_datetime lower mean
                generate store vid max_pages max_comments ts utcnow answers
                fs c cs Hfetch)
      as [(e & E & _)|[(e & E & _)|(_ & [(e & E & _)|(dates' & df' & Hpd' & Htab' & H)])]];
      try congruence.
    rewrite Hpd in Hpd'. injection Hpd' as <-.
    rewrite Htab in Htab'. injection Htab' as <-.
    cbv zeta in H.
    destruct H as [(e & E & _)|[(e & E & _)|(_ & [(e & _ & E)|[(e & _ & E)|H]])]];
      try congruence.
    + rewrite E. cbn [snd]. apply lookup_write_same.
    + rewrite E. cbn [snd]. rewrite lookup_write_other by now apply Hne.
      apply lookup_write_same.
    + destruct H as (_ & _ & Hf & _).
      rewrite Hf by now apply Hne.
      rewrite lookup_write_other by now apply Hne.
      apply lookup_write_same.
  - intros p Hret.
    apply run_returned in Hret
      as (comments & dates & df & Hfetch & _ & Hpd & Hdf & -> & _ & Hcsv & _).
    exists comments, dates, df. split; [exact Hfetch|]. split; [exact Hpd|].
    split; [exact Hcsv|]. now apply processed_table_deduplicated.
Qed.

(** C10: when nothing was fetched, [run] raises [RuntimeError] and the
    file system is as it was. *)
Theorem run_no_comments
    (vid : str) (max_pages : option Z) (max_comments ts : Z) (utcnow : str)
    (answers : list outcome) (fs : filesystem) :
  snd (fetch_comments vid max_pages max_comments answers) = Returned [] ->
  run' vid max_pages max_comments ts utcnow answers fs
  = (RunRaised RuntimeError, fs).
Proof. intros H. unfold run. now rewrite H. Qed.

(** C6 (amended): the places of the output files are fixed by the video
    id and the second in which [run] started.  Whatever the API answers
    and whatever becomes of the writes, [run] changes the file system at
    most at the five paths of [output_paths vid ts].  Their directories
    depend on the video id alone and their names on the id and the second;
    for an id without a slash the directories are data/raw (raw JSON),
    data/processed (processed CSV) and data/outputs (KPI CSV and the two
    word clouds) and the names are the stamped ones.  When [run] returns,
    it returns the processed path, and the raw, processed and KPI files
    are there; two returning invocations for the same video in the same
    second return the same path.  Invocations in different seconds share
    no path and no file name, whatever the videos. *)
Theorem run_writes_output_paths
    (vid : str) (max_pages : option Z) (max_comments ts : Z) (utcnow : str)
    (answers : list outcome) (fs : filesystem) :
  (forall p,
      In p (output_paths vid ts)
      \/ lookup p (snd (run' vid max_pages max_comments ts utcnow answers fs))
         = lookup p fs)
  /\ map parent (output_paths vid ts)
     = [RAW_DIR ++ folder (lit "comments") vid;
        PROC_DIR ++ folder (lit "processed") vid;
        OUT_DIR ++ folder (lit "kpi") vid;
        OUT_DIR ++ folder (lit "wordcloud_positive") vid;
        OUT_DIR ++ folder (lit "wordcloud_negative") vid]
  /\ map name (output_paths vid ts)
     = [leaf (lit "comments") vid ++ lit "_" ++ str_of_Z ts ++ lit ".json";
        leaf (lit "processed") vid ++ lit "_" ++ str_of_Z ts ++ lit ".csv";
        leaf (lit "kpi") vid ++ lit "_" ++ str_of_Z ts ++ lit ".csv";
        leaf (lit "wordcloud_positive") vid ++ lit "_" ++ str_of_Z ts
          ++ lit ".png";
        leaf (lit "wordcloud_negative") vid ++ lit "_" ++ str_of_Z ts
          ++ lit ".png"]
  /\ (plain vid = true ->
      map parent (output_paths vid ts)
      = [RAW_DIR; PROC_DIR; OUT_DIR; OUT_DIR; OUT_DIR]
      /\ map name (output_paths vid ts)
         = [stamped (lit "comments") vid ts (lit ".json");
            stamped (lit "processed") vid ts (lit ".csv");
            stamped (lit "kpi") vid ts (lit ".csv");
            stamped (lit "wordcloud_positive") vid ts (lit ".png");
            stamped (lit "wordcloud_negative") vid ts (lit ".png")])
  /\ (forall p,
        fst (run' vid max_pages max_comments ts utcnow answers fs)
        = RunReturned p ->
        p = out_csv_path vid ts
        /\ forall q, In q [raw_path vid ts; out_csv_path vid ts; kpi_path vid ts] ->
             lookup q (snd (run' vid max_pages max_comments ts utcnow answers fs))
             <> None)
  /\ (forall max_pages2 max_comments2 utcnow2 answers2 fs2 p p2,
        fst (run' vid max_pages max_comments ts utcnow answers fs)
        = RunReturned p ->
        fst (run' vid max_pages2 max_comments2 ts utcnow2 answers2 fs2)
        = RunReturned p2 ->
        p = p2)
  /\ (forall vid2 ts2 p,
        ts2 <> ts ->
        In p (output_paths vid ts) -> ~ In p (output_paths vid2 ts2))
  /\ (forall vid2 ts2 p p2,
        ts2 <> ts ->
        In p (output_paths vid ts) -> In p2 (output_paths vid2 ts2) ->
        name p <> name p2).
Proof.
  split; [intros p; apply run_frame|].
  split; [rewrite output_paths_shape; cbn [map]; now rewrite !parent_deep|].
  split; [rewrite output_paths_shape; cbn [map]; now rewrite !name_deep|].
  split.
  { intros Hv. rewrite output_paths_shape. cbn [map].
    rewrite !parent_deep, !name_deep.
    pose proof (fun stem H => stamped_plain stem vid (lit ".json") ts H Hv)
      as Hj.
    pose proof (fun stem H => stamped_plain stem vid (lit ".csv") ts H Hv)
      as Hc.
    pose proof (fun stem H => stamped_plain stem vid (lit ".png") ts H Hv)
      as Hp.
    destruct (Hj (lit "comments") eq_refl) as [-> ->].
    destruct (Hc (lit "processed") eq_refl) as [-> ->].
    destruct (Hc (lit "kpi") eq_refl) as [-> ->].
    destruct (Hp (lit "wordcloud_positive") eq_refl) as [-> ->].
    destruct (Hp (lit "wordcloud_negative") eq_refl) as [-> ->].
    rewrite !app_nil_r. split; reflexivity. }
  split.
  { intros p Hret.
    apply run_returned in Hret
      as (comments & dates & df & _ & _ & _ & _ & -> & Hraw & Hcsv & Hkpi).
    split; [reflexivity|].
    intros q [<-|[<-|[<-|[]]]];
      [rewrite Hraw | rewrite Hcsv | rewrite Hkpi]; discriminate. }
  split.
  { intros mp2 mc2 u2 a2 fs2 p p2 H1 H2.
    apply run_returned in H1 as (? & ? & ? & _ & _ & _ & _ & -> & _).
    apply run_returned in H2 as (? & ? & ? & _ & _ & _ & _ & -> & _).
    reflexivity. }
  split.
  { intros vid2 ts2 p Hts Hp Hp2.
    destruct (output_paths_disjoint _ _ _ _ _ Hp Hp2) as [E _].
    now apply Hts. }
  intros vid2 ts2 p p2 Hts Hp Hp2. rewrite output_paths_shape in Hp, Hp2.
  destruct Hp as [<-|[<-|[<-|[<-|[<-|[]]]]]];
    destruct Hp2 as [<-|[<-|[<-|[<-|[<-|[]]]]]];
    rewrite !name_deep; intros H;
    first [ apply stamped_names_same_ext in H; now apply Hts
          | apply (f_equal (@rev N)) in H; rewrite !rev_app_distr in H;
            discriminate H ].
Qed.

End RunClaims.

Example child_samples :
  child RAW_DIR (lit "comments_v_1.json")
  = [lit "data"; lit "raw"; lit "comments_v_1.json"]
  /\ child RAW_DIR (lit "comments_a/b_1.json")
     = [lit "data"; lit "raw"; lit "comments_a"; lit "b_1.json"]
  /\ child RAW_DIR (lit "a//b/./c/")
     = [lit "data"; lit "raw"; lit "a"; lit "b"; lit "c"]
  /\ child RAW_DIR (lit "a/../b")
     = [lit "data"; lit "raw"; lit "a"; lit ".."; lit "b"]
  /\ child RAW_DIR (lit "/etc/passwd") = [lit "/"; lit "etc"; lit "passwd"]
  /\ child RAW_DIR (lit "//host/x") = [lit "//"; lit "host"; lit "x"]
  /\ child RAW_DIR (lit "///x") = [lit "/"; lit "x"]
  /\ child RAW_DIR (lit "") = RAW_DIR.
Proof. vm_compute. repeat split. Qed.

Example run_sample :
  Sample.pipeline Sample.v None 5000 1700000000 Sample.utcnow
             [Response Sample.page1; Response Sample.page2] []
  = (RunReturned (child PROC_DIR (lit "processed_v_1700000000.csv")),
     snd (Sample.pipeline Sample.v None 5000 1700000000 Sample.utcnow
                     [Response Sample.page1; Response Sample.page2] []))
  /\ map fst (snd (Sample.pipeline Sample.v None 5000 1700000000 Sample.utcnow
                     [Response Sample.page1; Response Sample.page2] []))
     = [child OUT_DIR (lit "wordcloud_negative_v_1700000000.png");
        child OUT_DIR (lit "wordcloud_positive_v_1700000000.png");
        child OUT_DIR (lit "kpi_v_1700000000.csv");
        child PROC_DIR (lit "processed_v_1700000000.csv");
        child RAW_DIR (lit "comments_v_1700000000.json")].
Proof. vm_compute. split; reflexivity. Qed.

(** A video id with a slash: [pathlib] reads the raw name as a file in a
    directory [comments_a], which a fresh checkout does not have, so
    [open] raises and nothing is written. *)
Example run_slash_in_id :
  raw_path (lit "a/b") 1700000000
  = [lit "data"; lit "raw"; lit "comments_a"; lit "b_1700000000.json"]
  /\ Sample.pipeline (lit "a/b") None 5000 1700000000 Sample.utcnow
       [Response Sample.page1; Response Sample.page2] []
     = (RunRaised FileNotFoundError, []).
Proof. vm_compute. split; reflexivity. Qed.

(** When the conversion of the dates raises, the raw dump is the only file
    written. *)
Example run_dates_raise :
  Sample.pipeline_mixed_dates Sample.v None 5000 1700000000 Sample.utcnow
    [Response Sample.page1; Response Sample.page2] []
  = (RunRaised ValueError,
     [(raw_path Sample.v 1700000000, RawJson Sample.fetched)]).
Proof. vm_compute. reflexivity. Qed.

(** When the renderer raises, the raw dump, the table and the KPI file are
    in place. *)
Example run_no_words :
  fst (Sample.pipeline_no_words Sample.v None 5000 1700000000 Sample.utcnow
         [Response Sample.page1; Response Sample.page2] [])
  = RunRaised ValueError
  /\ map fst (snd (Sample.pipeline_no_words Sample.v None 5000 1700000000
                     Sample.utcnow
                     [Response Sample.page1; Response Sample.page2] []))
     = [kpi_path Sample.v 1700000000; out_csv_path Sample.v 1700000000;
        raw_path Sample.v 1700000000].
Proof. vm_compute. split; reflexivity. Qed.

Lemma run_table_deduplicated_witness :
  fst (Sample.pipeline_no_words Sample.v None 5000 1700000000 Sample.utcnow
         [Response Sample.page1; Response Sample.page2] [])
  = RunRaised ValueError
  /\ length Sample.fetched = 4
  /\ length Sample.table = 3
  /\ lookup (out_csv_path Sample.v 1700000000)
       (snd (Sample.pipeline_no_words Sample.v None 5000 1700000000
               Sample.utcnow [Response Sample.page1; Response Sample.page2] []))
     = Some (ProcessedCsv Sample.table)
  /\ deduplicated Sample.detect Sample.polarity_scores Sample.to_datetime
       Sample.fetched Sample.table.
Proof.
  split; [vm_compute; reflexivity|].
  split; [reflexivity|]. split; [reflexivity|].
  apply (proj1 (proj2
           (run_table_deduplicated Sample.detect Sample.polarity_scores
              Sample.pd_to_datetime Sample.lower Sample.mean Sample.no_words
              Sample.store Sample.v None 5000 1700000000 Sample.utcnow
              [Response Sample.page1; Response Sample.page2] []))
           _ _
           Sample.to_datetime Sample.table);
    vm_compute; reflexivity.
Defined.

Lemma run_no_comments_witness :
  Sample.pipeline Sample.v None 5000 1700000000 Sample.utcnow
             [Response Sample.empty_page] []
  = (RunRaised RuntimeError, []).
Proof.
  apply (run_no_comments Sample.detect Sample.polarity_scores
           Sample.pd_to_datetime Sample.lower Sample.mean Sample.generate
           Sample.store).
  vm_compute. reflexivity.
Defined.

(** C6, as stated, fails.  The names carry the second in which [run]
    started, so the same video fetched in two different seconds, with the
    same limits and the same answers, gives two different sets of names;
    and the directories are not the same for every video id: a slash in
    the id opens a directory of its own below data/raw. *)
Lemma run_names_differ_across_seconds :
  map fst (snd (Sample.pipeline Sample.v None 5000 1700000000 Sample.utcnow
                  [Response Sample.page2] []))
  = [child OUT_DIR (lit "kpi_v_1700000000.csv");
     child PROC_DIR (lit "processed_v_1700000000.csv");
     child RAW_DIR (lit "comments_v_1700000000.json")]
  /\ map fst (snd (Sample.pipeline Sample.v None 5000 1700000001 Sample.utcnow
                     [Response Sample.page2] []))
     = [child OUT_DIR (lit "kpi_v_1700000001.csv");
        child PROC_DIR (lit "processed_v_1700000001.csv");
        child RAW_DIR (lit "comments_v_1700000001.json")]
  /\ fst (Sample.pipeline Sample.v None 5000 1700000000 Sample.utcnow
            [Response Sample.page2] [])
     = RunReturned (child PROC_DIR (lit "processed_v_1700000000.csv"))
  /\ fst (Sample.pipeline Sample.v None 5000 1700000001 Sample.utcnow
            [Response Sample.page2] [])
     = RunReturned (child PROC_DIR (lit "processed_v_1700000001.csv"))
  /\ path_eqb (child PROC_DIR (lit "processed_v_1700000000.csv"))
              (child PROC_DIR (lit "processed_v_1700000001.csv")) = false
  /\ map parent (output_paths (lit "a/b") 1700000000)
     = [RAW_DIR ++ [lit "comments_a"]; PROC_DIR ++ [lit "processed_a"];
        OUT_DIR ++ [lit "kpi_a"]; OUT_DIR ++ [lit "wordcloud_positive_a"];
        OUT_DIR ++ [lit "wordcloud_negative_a"]].
Proof. vm_compute. repeat split. Qed.

(** ** [fetch_comments] *)

Section FetchFacts.

Variable vid : str.
Variable max_pages : option Z.
Variable max_comments : Z.

Local Abbreviation loop := (fetch_loop vid max_pages max_comments).
Local Abbreviation fetch := (fetch_comments vid max_pages max_comments).
Local Abbreviation page_of := (page_comments vid).
Local Abbreviation stops_after := (stops_after max_pages max_comments).
Local Abbreviation running := (running max_comments).
Local Abbreviation stop_test := (stop_test vid max_pages max_comments).

Lemma after_page_eq (continue : list comment -> option str -> Z -> fetch_result)
    (resp : response) (comments : list comment) (page : Z) :
  after_page vid max_pages max_comments continue resp comments page
  = if stops_after (comments ++ page_of resp) resp (page + 1)
    then ([], Returned (slice_to (comments ++ page_of resp) max_comments))
    else emit (Sleep 100)
              (continue (comments ++ page_of resp) (nextPageToken resp)
                        (page + 1)%Z).
Proof.
  unfold after_page, stops_after.
  destruct (max_comments <=? _)%Z; [reflexivity|]. simpl.
  now destruct (falsy (nextPageToken resp) || page_limit max_pages (page + 1)).
Qed.

Lemma loop_response (resp : response) (rest : list outcome)
    (comments : list comment) (token : option str) (page : Z) :
  loop (Response resp :: rest) comments token page
  = emit (ListCall token)
      (if stops_after (comments ++ page_of resp) resp (page + 1)
       then ([], Returned (slice_to (comments ++ page_of resp) max_comments))
       else emit (Sleep 100)
                 (loop rest (comments ++ page_of resp) (nextPageToken resp)
                       (page + 1)%Z)).
Proof. simpl. now rewrite after_page_eq. Qed.

Lemma loop_retry_response (resp : response) (rest : list outcome)
    (comments : list comment) (token : option str) (page : Z) :
  loop (Raises HttpError :: Response resp :: rest) comments token page
  = emit (ListCall token) (emit (Sleep 5000) (emit (ListCall token)
      (if stops_after (comments ++ page_of resp) resp (page + 1)
       then ([], Returned (slice_to (comments ++ page_of resp) max_comments))
       else emit (Sleep 100)
                 (loop rest (comments ++ page_of resp) (nextPageToken resp)
                       (page + 1)%Z)))).
Proof. simpl. now rewrite after_page_eq. Qed.

Lemma loop_retry_fails (e : exn) (rest : list outcome)
    (comments : list comment) (token : option str) (page : Z) :
  loop (Raises HttpError :: Raises e :: rest) comments token page
  = ([ListCall token; Sleep 5000; ListCall token],
     Returned (slice_to comments max_comments)).
Proof. reflexivity. Qed.

Lemma loop_raises (e : exn) (rest : list outcome)
    (comments : list comment) (token : option str) (page : Z) :
  e <> HttpError ->
  loop (Raises e :: rest) comments token page = ([ListCall token], Raised e).
Proof. intros He. destruct e; try reflexivity. now elim He. Qed.

Lemma slice_to_length {A} (l : list A) (n : Z) :
  (0 <= n)%Z -> (Z.of_nat (length (slice_to l n)) <= n)%Z.
Proof.
  intros Hn. unfold slice_to. destruct (Z.ltb_spec n 0); [lia|].
  rewrite length_firstn. lia.
Qed.

Lemma slice_to_running (comments : list comment) :
  running comments -> slice_to comments max_comments = comments.
Proof.
  unfold slice_to. intros [->|Hlt].
  - destruct (max_comments <? 0)%Z; simpl; now rewrite firstn_nil.
  - destruct (Z.ltb_spec max_comments 0); [lia|].
    apply firstn_all2. lia.
Qed.

(** Whatever the answers, a returned list respects a non-negative cap. *)
Lemma loop_bound_upto (n : nat) (answers : list outcome)
    (comments : list comment) (token : option str) (page : Z)
    (cs : list comment) :
  length answers <= n ->
  (0 <= max_comments)%Z ->
  snd (loop answers comments token page) = Returned cs ->
  (Z.of_nat (length cs) <= max_comments)%Z.
Proof.
  intros Hn Hcap. revert answers comments token page Hn.
  induction n as [|n IH]; intros [|a rest] comments token page Hn;
    try discriminate; [simpl in Hn; lia|].
  simpl in Hn.
  assert (Hpage : forall resp rest',
             length rest' <= n ->
             snd (if stops_after (comments ++ page_of resp) resp (page + 1)
                  then ([], Returned (slice_to (comments ++ page_of resp)
                                               max_comments))
                  else emit (Sleep 100)
                            (loop rest' (comments ++ page_of resp)
                                  (nextPageToken resp) (page + 1)%Z))
             = Returned cs ->
             (Z.of_nat (length cs) <= max_comments)%Z).
  { intros resp rest' Hlen. destruct (stops_after _ _ _); simpl.
    - intros [= <-]. now apply slice_to_length.
    - now apply IH. }
  destruct a as [resp|e].
  - rewrite loop_response. simpl snd. apply Hpage. lia.
  - destruct e; try discriminate.
    destruct rest as [|[resp|e2] rest2]; try discriminate.
    + rewrite loop_retry_response. simpl snd. apply Hpage. simpl in Hn. lia.
    + rewrite loop_retry_fails. simpl. intros [= <-]. now apply slice_to_length.
Qed.

(** While the answers are pages that do not end the loop, the records pile
    up; if the call then fails twice, first with [HttpError], what was
    piled up is returned as it is, after one sleep of five seconds and one
    second call with the same token. *)
Lemma loop_pages_then_failure (pages : list response)
    (comments : list comment) (token : option str) (page : Z) :
  running comments ->
  snd (loop (map Response pages) comments token page) = Pending ->
  forall e rest, exists tok,
    loop (map Response pages ++ Raises HttpError :: Raises e :: rest)
         comments token page
    = (fst (loop (map Response pages) comments token page)
       ++ [ListCall tok; Sleep 5000; ListCall tok],
       Returned (comments ++ flat_map page_of pages)).
Proof.
  revert comments token page; induction pages as [|resp pages IH];
    intros comments token page Hrun Hpend e rest.
  - exists token. simpl map. simpl app. rewrite loop_retry_fails.
    rewrite (slice_to_running _ Hrun). simpl. now rewrite app_nil_r.
  - cbn [map app] in *. rewrite !loop_response. rewrite loop_response in Hpend.
    destruct (stops_after _ _ _) eqn:Hstop; [discriminate|].
    simpl snd in Hpend.
    assert (Hrun' : running (comments ++ page_of resp)).
    { right. unfold stops_after in Hstop.
      apply orb_false_iff in Hstop as [Hstop _].
      apply orb_false_iff in Hstop as [Hstop _].
      now apply Z.leb_gt in Hstop. }
    destruct (IH _ _ _ Hrun' Hpend e rest) as [tok Htok].
    exists tok. rewrite Htok. unfold emit. cbn [fst snd app].
    now rewrite <- app_assoc.
Qed.

Lemma stop_test_first (comments : list comment) (page : Z)
    (resp : response) (pages : list response) :
  stop_test comments page (resp :: pages) 0 resp
  = stops_after (comments ++ page_of resp) resp (page + 1).
Proof. unfold stop_test. simpl. now rewrite app_nil_r. Qed.

Lemma stop_test_later (comments : list comment) (page : Z)
    (first : response) (pages : list response) (n : nat) (resp : response) :
  stop_test comments page (first :: pages) (S n) resp
  = stop_test (comments ++ page_of first) (page + 1) pages n resp.
Proof.
  unfold stop_test. cbn [firstn flat_map]. rewrite app_assoc.
  f_equal. lia.
Qed.

(** Fed with pages only, the loop returns after the first page whose test
    comes out true, with the records up to that page, and has made one
    call per page up to it; when no page passes the test it is still
    asking. *)
Lemma loop_pages (pages : list response)
    (comments : list comment) (token : option str) (page : Z) :
  (exists n resp,
      nth_error pages n = Some resp
      /\ stop_test comments page pages n resp = true
      /\ (forall m resp', m < n -> nth_error pages m = Some resp' ->
                          stop_test comments page pages m resp' = false)
      /\ snd (loop (map Response pages) comments token page)
         = Returned (slice_to (comments ++ flat_map page_of (firstn (S n) pages))
                              max_comments)
      /\ calls (fst (loop (map Response pages) comments token page)) = S n)
  \/ ((forall m resp', nth_error pages m = Some resp' ->
                       stop_test comments page pages m resp' = false)
      /\ snd (loop (map Response pages) comments token page) = Pending).
Proof.
  revert comments token page; induction pages as [|first pages IH];
    intros comments token page.
  - right. split; [|reflexivity]. intros [|m] resp'; discriminate.
  - cbn [map]. rewrite loop_response.
    destruct (stops_after (comments ++ page_of first) first (page + 1))
      eqn:Hstop.
    + left. exists 0, first. split; [reflexivity|].
      split; [now rewrite stop_test_first|].
      split; [intros m resp' Hm; lia|].
      split; [|reflexivity]. simpl. now rewrite app_nil_r.
    + destruct (IH (comments ++ page_of first) (nextPageToken first)
                   (page + 1)%Z)
        as [(n & resp & Hn & Htest & Hmin & Hret & Hcalls)|[Hnone Hpend]].
      * left. exists (S n), resp. split; [exact Hn|].
        split; [now rewrite stop_test_later|].
        split.
        { intros [|m] resp' Hm Hnth.
          - injection Hnth as <-. now rewrite stop_test_first.
          - rewrite stop_test_later. apply Hmin; [lia | exact Hnth]. }
        split.
        { cbn [snd emit fst]. rewrite Hret. cbn [firstn flat_map].
          now rewrite app_assoc. }
        cbn [fst emit calls filter length]. unfold calls in Hcalls.
        now rewrite Hcalls.
      * right. split.
        { intros [|m] resp' Hnth.
          - injection Hnth as <-. now rewrite stop_test_first.
          - rewrite stop_test_later. now apply Hnone. }
        exact Hpend.
Qed.

End FetchFacts.

Section FetchClaims.

Variable vid : str.
Variable max_pages : option Z.
Variable max_comments : Z.

Local Abbreviation loop := (fetch_loop vid max_pages max_comments).
Local Abbreviation fetch := (fetch_comments vid max_pages max_comments).
Local Abbreviation page_of := (page_comments vid).
Local Abbreviation stops := (stops_after max_pages max_comments).

(** C2 (amended): after a page, received at the first attempt or at the
    retry, the loop ends exactly when the records accumulated have reached
    [max_comments], or the response has no (or an empty) [nextPageToken],
    or [max_pages] is set, non-zero and reached; otherwise it sleeps and
    asks for the next page.  It also ends when the retry fails.  For a
    non-negative [max_comments] the list returned has at most that many
    records.  So, answered with pages only, [fetch_comments] makes one call
    per page up to the first page that passes the test and returns the
    records up to it, cut at the cap; while no page passes it keeps
    asking. *)
Theorem fetch_loop_stops :
  (forall resp rest comments token page,
      if stops (comments ++ page_of resp) resp (page + 1)
      then loop (Response resp :: rest) comments token page
           = ([ListCall token],
              Returned (slice_to (comments ++ page_of resp) max_comments))
      else loop (Response resp :: rest) comments token page
           = emit (ListCall token) (emit (Sleep 100)
               (loop rest (comments ++ page_of resp) (nextPageToken resp)
                     (page + 1)%Z)))
  /\ (forall resp rest comments token page,
      if stops (comments ++ page_of resp) resp (page + 1)
      then loop (Raises HttpError :: Response resp :: rest) comments token page
           = ([ListCall token; Sleep 5000; ListCall token],
              Returned (slice_to (comments ++ page_of resp) max_comments))
      else loop (Raises HttpError :: Response resp :: rest) comments token page
           = emit (ListCall token) (emit (Sleep 5000) (emit (ListCall token)
               (emit (Sleep 100)
                  (loop rest (comments ++ page_of resp) (nextPageToken resp)
                        (page + 1)%Z)))))
  /\ (forall e rest comments token page,
        loop (Raises HttpError :: Raises e :: rest) comments token page
        = ([ListCall token; Sleep 5000; ListCall token],
           Returned (slice_to comments max_comments)))
  /\ (forall answers cs,
        (0 <= max_comments)%Z ->
        snd (fetch answers) = Returned cs ->
        (Z.of_nat (length cs) <= max_comments)%Z)
  /\ (forall pages,
        (exists n resp,
            nth_error pages n = Some resp
            /\ stops (flat_map page_of (firstn (S n) pages)) resp
                      (Z.of_nat (S n)) = true
            /\ (forall m resp', m < n -> nth_error pages m = Some resp' ->
                   stops (flat_map page_of (firstn (S m) pages)) resp'
                         (Z.of_nat (S m)) = false)
            /\ snd (fetch (map Response pages))
               = Returned (slice_to (flat_map page_of (firstn (S n) pages))
                                    max_comments)
            /\ calls (fst (fetch (map Response pages))) = S n)
        \/ ((forall m resp', nth_error pages m = Some resp' ->
                stops (flat_map page_of (firstn (S m) pages)) resp'
                      (Z.of_nat (S m)) = false)
            /\ snd (fetch (map Response pages)) = Pending)).
Proof.
  split; [|split; [|split; [|split]]].
  - intros resp rest comments token page. rewrite loop_response.
    now destruct (stops _ _ _).
  - intros resp rest comments token page. rewrite loop_retry_response.
    now destruct (stops _ _ _).
  - intros. apply loop_retry_fails.
  - intros answers cs Hcap Hret.
    now apply (loop_bound_upto vid max_pages max_comments (length answers)
                 answers [] None 0%Z cs).
  - intros pages.
    exact (loop_pages vid max_pages max_comments pages [] None 0%Z).
Qed.

End FetchClaims.

(** C2, as stated, fails: with [max_pages = 1] the loop ends after the
    first page although three records are far from the cap of 5000 and the
    page carries a token; a failed retry ends it with no page at all; and
    under the cap [-1] two records come back. *)
Lemma fetch_stops_for_other_reasons :
  fst (fetch_comments Sample.v (Some 1%Z) 5000
         [Response Sample.page1; Response Sample.page2]) = [ListCall None]
  /\ (exists cs,
        snd (fetch_comments Sample.v (Some 1%Z) 5000
               [Response Sample.page1; Response Sample.page2]) = Returned cs
        /\ length cs = 3)
  /\ falsy (nextPageToken Sample.page1) = false
  /\ fetch_comments Sample.v None 5000 [Raises HttpError; Raises HttpError]
     = ([ListCall None; Sleep 5000; ListCall None], Returned [])
  /\ (exists cs,
        snd (fetch_comments Sample.v None (-1) [Response Sample.page1])
        = Returned cs
        /\ length cs = 2).
Proof.
  split; [reflexivity|]. split; [eexists; split; reflexivity|].
  split; [reflexivity|]. split; [reflexivity|].
  eexists; split; reflexivity.
Qed.

Example fetch_two_pages :
  fst (fetch_comments Sample.v None 5000
         [Response Sample.page1; Response Sample.page2])
  = [ListCall None; Sleep 100; ListCall (Some (lit "T1"))]
  /\ (exists cs,
        snd (fetch_comments Sample.v None 5000
               [Response Sample.page1; Response Sample.page2]) = Returned cs
        /\ map comment_id cs
           = [Some (lit "c1"); Some (lit "c2"); Some (lit "c2");
              Some (lit "c3")]
        /\ map parent_id cs = [None; Some (lit "c1"); Some (lit "c1"); None]).
Proof. split; [reflexivity|]. eexists. repeat split; reflexivity. Qed.

Section RecoveryClaims.

Variable vid : str.
Variable max_pages : option Z.
Variable max_comments : Z.
Variable frame : Type.
Variable read_csv : option file -> read_mode -> result frame.
Variable coerce_published : frame -> frame.
Variable detect : str -> result str.

Local Abbreviation loop := (fetch_loop vid max_pages max_comments).
Local Abbreviation fetch := (fetch_comments vid max_pages max_comments).

(** C5 (amended): when the comment-threads call raises [HttpError],
    [fetch_comments] sleeps five seconds and repeats the call once, with
    the same page token; if that attempt raises too, whatever it raises,
    the loop ends and the records accumulated so far are returned; if it
    answers, the page is processed as usual; any other exception of the
    first attempt is not retried and propagates.  This is not the only
    recovery in the system: [safe_lang] answers ["unknown"] when the
    detector raises, and the dashboard and the diagnostic script read the
    file a second time, without date parsing, when the first read raises;
    [load_latest_processed] does not. *)
Theorem fetch_retries_once :
  (forall e rest comments token page,
      loop (Raises HttpError :: Raises e :: rest) comments token page
      = ([ListCall token; Sleep 5000; ListCall token],
         Returned (slice_to comments max_comments)))
  /\ (forall pages,
        snd (fetch (map Response pages)) = Pending ->
        forall e rest, exists tok,
          fetch (map Response pages ++ Raises HttpError :: Raises e :: rest)
          = (fst (fetch (map Response pages))
             ++ [ListCall tok; Sleep 5000; ListCall tok],
             Returned (flat_map (page_comments vid) pages)))
  /\ (forall resp rest comments token page,
        loop (Raises HttpError :: Response resp :: rest) comments token page
        = emit (ListCall token) (emit (Sleep 5000)
            (loop (Response resp :: rest) comments token page)))
  /\ (forall e rest comments token page,
        e <> HttpError ->
        loop (Raises e :: rest) comments token page
        = ([ListCall token], Raised e))
  /\ (forall s e, detect s = Raise e -> safe_lang detect s = Ok unknown)
  /\ (forall fs f,
        last_sorted (glob_processed fs) = Some f ->
        let content := lookup (child PROC_DIR f) fs in
        app_streamlit_load read_csv coerce_published fs
        = Some match read_csv content ParseDates with
               | Ok df => Ok (f, df)
               | Raise _ =>
                   match read_csv content Plain with
                   | Ok df => Ok (f, coerce_published df)
                   | Raise e => Raise e
                   end
               end
        /\ check_processed_load read_csv fs
           = Some match read_csv content ParseDatesInfer with
                  | Ok df => Ok (f, df)
                  | Raise _ =>
                      match read_csv content Plain with
                      | Ok df => Ok (f, df)
                      | Raise e => Raise e
                      end
                  end
        /\ load_latest_processed read_csv fs
           = match read_csv content ParseDates with
             | Ok df => Ok (f, df)
             | Raise e => Raise e
             end).
Proof.
  split; [intros; apply loop_retry_fails|].
  split.
  { intros pages Hpend e rest.
    apply (loop_pages_then_failure vid max_pages max_comments pages [] None 0%Z);
      [now left | exact Hpend]. }
  split; [reflexivity|].
  split; [intros; now apply loop_raises|].
  split.
  { intros s e He. rewrite safe_lang_ok, He. now destruct (truthy (strip s)). }
  intros fs f Hlast content.
  unfold app_streamlit_load, check_processed_load, load_latest_processed.
  rewrite Hlast. fold content. unfold try_except, bind.
  repeat split.
  - now destruct (read_csv content ParseDates).
  - now destruct (read_csv content ParseDatesInfer).
Qed.

End RecoveryClaims.

(** ** Names in order *)

Lemma str_leb_refl (a : str) : str_leb a a = true.
Proof.
  induction a as [|x a IH]; simpl; [reflexivity|].
  now rewrite N.ltb_irrefl, N.eqb_refl.
Qed.

Lemma str_leb_total (a b : str) : str_leb a b = false -> str_leb b a = true.
Proof.
  revert b; induction a as [|x a IH]; intros [|y b]; simpl; try congruence.
  destruct (N.ltb_spec x y); [discriminate|].
  destruct (N.eqb_spec x y) as [->|Hne].
  - rewrite N.ltb_irrefl, N.eqb_refl. apply IH.
  - intros _. destruct (N.ltb_spec y x); [reflexivity | lia].
Qed.

Lemma str_leb_trans (a b c : str) :
  str_leb a b = true -> str_leb b c = true -> str_leb a c = true.
Proof.
  revert b c; induction a as [|x a IH]; intros [|y b] [|z c]; simpl;
    try congruence.
  destruct (N.ltb_spec x y), (N.ltb_spec y z), (N.ltb_spec x z);
    try reflexivity; try lia;
    destruct (N.eqb_spec x y), (N.eqb_spec y z), (N.eqb_spec x z);
    try discriminate; try lia.
  apply IH.
Qed.

Lemma str_leb_app (p a b : str) : str_leb (p ++ a) (p ++ b) = str_leb a b.
Proof.
  induction p as [|x p IH]; simpl; [reflexivity|].
  now rewrite N.ltb_irrefl, N.eqb_refl.
Qed.

(** *** [sorted] *)

Lemma insert_sorted_In (x y : str) (l : list str) :
  In y (insert_sorted x l) <-> y = x \/ In y l.
Proof.
  induction l as [|z l IH]; simpl; [intuition congruence|].
  destruct (str_leb z x); simpl; [rewrite IH|]; intuition congruence.
Qed.

Lemma sorted_from_In (l acc : list str) (y : str) :
  In y (fold_left (fun acc x => insert_sorted x acc) l acc)
  <-> In y l \/ In y acc.
Proof.
  revert acc; induction l as [|x l IH]; intros acc; simpl; [tauto|].
  rewrite IH, insert_sorted_In. intuition congruence.
Qed.

Lemma sorted_In (l : list str) (y : str) : In y (sorted l) <-> In y l.
Proof. unfold sorted. rewrite sorted_from_In. simpl. tauto. Qed.

Lemma insert_sorted_chain (x : str) (l : list str) :
  chain l -> chain (insert_sorted x l).
Proof.
  induction l as [|z l IH]; simpl; [auto|]. intros [Hz Hl].
  destruct (str_leb z x) eqn:Hzx; simpl.
  - split; [|now apply IH].
    apply Forall_forall. intros y Hy. apply insert_sorted_In in Hy as [->|Hy];
      [exact Hzx|]. revert y Hy. now apply Forall_forall.
  - apply str_leb_total in Hzx. split; [|now split].
    constructor; [exact Hzx|].
    apply Forall_forall. intros y Hy. apply (str_leb_trans _ _ _ Hzx).
    revert y Hy. now apply Forall_forall.
Qed.

Lemma sorted_from_chain (l acc : list str) :
  chain acc -> chain (fold_left (fun acc x => insert_sorted x acc) l acc).
Proof.
  revert acc; induction l as [|x l IH]; intros acc H; simpl; [exact H|].
  now apply IH, insert_sorted_chain.
Qed.

Lemma sorted_chain (l : list str) : chain (sorted l).
Proof. now apply sorted_from_chain. Qed.

Lemma last_cons (l : list str) (x y : str) : last (y :: l) x = last l y.
Proof.
  revert x y; induction l as [|z l IH]; intros x y; [reflexivity|].
  transitivity (last (z :: l) x); [reflexivity|].
  now rewrite (IH x z), (IH y z).
Qed.

Lemma chain_last (l : list str) (x m : str) :
  chain (x :: l) -> In m (x :: l) -> str_leb m (last l x) = true.
Proof.
  revert x m; induction l as [|y l IH]; intros x m [Hx Hl] Hin.
  - destruct Hin as [<-|[]]. apply str_leb_refl.
  - rewrite last_cons.
    destruct Hin as [<-|Hin]; [|now apply IH].
    apply (str_leb_trans _ y).
    + now inversion Hx.
    + apply IH; [exact Hl | now left].
Qed.

Lemma last_In (l : list str) (x : str) : In (last l x) (x :: l).
Proof.
  revert x; induction l as [|y l IH]; intros x; [now left|].
  rewrite last_cons. right. apply IH.
Qed.

(** [files[-1]] is a greatest name of the listing. *)
Lemma last_sorted_greatest (names : list str) (n : str) :
  last_sorted names = Some n ->
  In n names /\ forall m, In m names -> str_leb m n = true.
Proof.
  unfold last_sorted. destruct (sorted names) as [|x l] eqn:Hs; [discriminate|].
  intros [= <-]. split.
  - apply sorted_In. rewrite Hs. apply last_In.
  - intros m Hm. apply sorted_In in Hm. rewrite Hs in Hm.
    apply chain_last; [|exact Hm]. rewrite <- Hs. apply sorted_chain.
Qed.

Lemma last_sorted_none (names : list str) :
  last_sorted names = None <-> names = [].
Proof.
  unfold last_sorted. split.
  - destruct (sorted names) as [|x l] eqn:Hs; [|discriminate]. intros _.
    destruct names as [|y names]; [reflexivity|].
    assert (H : In y (sorted (y :: names))) by (apply sorted_In; now left).
    rewrite Hs in H. destruct H.
  - now intros ->.
Qed.

(** A greatest name that dominates strictly is the one chosen. *)
Lemma last_sorted_newest (names : list str) (n : str) :
  In n names ->
  (forall m, In m names -> m = n \/ str_leb n m = false) ->
  last_sorted names = Some n.
Proof.
  intros Hin Hmax. destruct (last_sorted names) as [k|] eqn:Hk.
  - apply last_sorted_greatest in Hk as [Hkin Hk].
    destruct (Hmax k Hkin) as [->|Hlt]; [reflexivity|].
    rewrite (Hk n Hin) in Hlt. discriminate.
  - apply last_sorted_none in Hk. subst. destruct Hin.
Qed.

(** *** Numerals in order *)

(** Of two numerals of one length the one of the greater number is the
    greater string, whatever follows them. *)
Lemma numerals_in_order (d1 d2 e1 e2 : str) :
  length d1 = length d2 -> Forall digit d1 -> Forall digit d2 ->
  (value d2 < value d1)%N ->
  str_leb (d1 ++ e1) (d2 ++ e2) = false.
Proof.
  revert d2; induction d1 as [|x d1 IH]; intros [|y d2] Hlen H1 H2 Hlt;
    simpl in Hlen; try discriminate Hlen.
  - unfold value in Hlt. cbn [fold_left] in Hlt. lia.
  - injection Hlen as Hlen. inversion H1 as [|? ? Hx H1']; subst.
    inversion H2 as [|? ? Hy H2']; subst.
    rewrite !value_cons, Hlen in Hlt.
    pose proof (value_bound d1 H1') as B1. pose proof (value_bound d2 H2') as B2.
    rewrite Hlen in B1. unfold digit in Hx, Hy.
    cbn [app str_leb].
    destruct (N.ltb_spec x y); [nia|].
    destruct (N.eqb_spec x y) as [->|Hne]; [|reflexivity].
    apply IH; auto. lia.
Qed.

Lemma stamped_in_order (stem vid ext : str) (t ts : Z) :
  (0 <= t < ts)%Z ->
  length (str_of_Z t) = length (str_of_Z ts) ->
  str_leb (stamped stem vid ts ext) (stamped stem vid t ext) = false.
Proof.
  intros Ht Hlen. unfold stamped. rewrite !str_leb_app.
  assert (Hz : forall z, (0 <= z)%Z -> str_of_Z z = str_of_N (Z.to_N z)).
  { intros [| |]; simpl; intros; [reflexivity | reflexivity | lia]. }
  rewrite !Hz in * by lia.
  destruct (str_of_N_spec (Z.to_N t)) as [Ht1 Ht2].
  destruct (str_of_N_spec (Z.to_N ts)) as [Hs1 Hs2].
  apply numerals_in_order; auto. rewrite Ht2, Hs2. lia.
Qed.

Example str_of_Z_samples :
  str_of_Z 0 = lit "0" /\ str_of_Z 1700000000 = lit "1700000000"
  /\ str_of_Z (-42) = lit "-42" /\ str_of_Z 1009 = lit "1009".
Proof. vm_compute. repeat split. Qed.

(** ** The processed directory *)

Section ReaderFacts.

Variable frame : Type.
Variable read_csv : option file -> read_mode -> result frame.
Variable coerce_published : frame -> frame.

(** Every reader takes the [processed_*.csv] whose name is greatest in
    code-point order: the name it loads is in the listing, no name of the
    listing is greater, and this is so whatever was written last. *)
Lemma readers_take_greatest_name :
  (forall fs n,
      last_sorted (glob_processed fs) = Some n ->
      In n (glob_processed fs)
      /\ forall m, In m (glob_processed fs) -> str_leb m n = true)
  /\ (forall fs g df,
        load_latest_processed read_csv fs = Ok (g, df)
        \/ app_streamlit_load read_csv coerce_published fs = Some (Ok (g, df))
        \/ check_processed_load read_csv fs = Some (Ok (g, df)) ->
        last_sorted (glob_processed fs) = Some g).
Proof.
  split; [intros fs n; apply last_sorted_greatest|].
  intros fs g df.
  unfold load_latest_processed, app_streamlit_load, check_processed_load,
    try_except, bind.
  destruct (last_sorted (glob_processed fs)) as [f|].
  - intros [H|[H|H]].
    + destruct (read_csv _ ParseDates); congruence.
    + destruct (read_csv _ ParseDates); [congruence|].
      destruct (read_csv _ Plain); congruence.
    + destruct (read_csv _ ParseDatesInfer); [congruence|].
      destruct (read_csv _ Plain); congruence.
  - intros [H|[H|H]]; discriminate.
Qed.

End ReaderFacts.

(** C7: the readers do not load the table written last.  The processed
    directory holds the table of video [zzz], fetched in second
    1700000000; video [abc] is fetched in second 1700000001 and fetched
    again in second 1700000002.  The table written last is the one of
    second 1700000002, yet [load_latest_processed], the dashboard and the
    diagnostic script all load the table of [zzz]: they take the greatest
    file name, and in the names the video id comes before the second.
    Likewise a table written in second 10 loses against the one of
    second 9. *)
Lemma readers_miss_the_newest_table :
  most_recent_processed Sample.after_abc_again
  = Some (lit "processed_abc_1700000002.csv")
  /\ (exists df,
        load_latest_processed Sample.read_csv Sample.after_abc_again
        = Ok (lit "processed_zzz_1700000000.csv", df))
  /\ (exists df,
        app_streamlit_load Sample.read_csv Sample.coerce_published
          Sample.after_abc_again
        = Some (Ok (lit "processed_zzz_1700000000.csv", df)))
  /\ (exists df,
        check_processed_load Sample.read_csv Sample.after_abc_again
        = Some (Ok (lit "processed_zzz_1700000000.csv", df)))
  /\ most_recent_processed Sample.after_ten = Some (lit "processed_v_10.csv")
  /\ (exists df,
        load_latest_processed Sample.read_csv Sample.after_ten
        = Ok (lit "processed_v_9.csv", df)).
Proof.
  split; [vm_compute; reflexivity|].
  split; [eexists; vm_compute; reflexivity|].
  split; [eexists; vm_compute; reflexivity|].
  split; [eexists; vm_compute; reflexivity|].
  split; [vm_compute; reflexivity|].
  eexists; vm_compute; reflexivity.
Qed.

(** C5, as stated, fails: other operations recover from a failure too.
    The dashboard and the diagnostic script read a CSV that has no
    ["published"] column a second time after the first read raised, where
    [load_latest_processed] gives up; [safe_lang] swallows the exception
    of the detector. *)
Lemma other_operations_recover :
  Sample.read_csv
    (lookup (child PROC_DIR (lit "processed_summary.csv")) Sample.stray_fs)
    ParseDates = Raise ValueError
  /\ app_streamlit_load Sample.read_csv Sample.coerce_published Sample.stray_fs
     = Some (Ok (lit "processed_summary.csv", KpiCsv Sample.summary))
  /\ check_processed_load Sample.read_csv Sample.stray_fs
     = Some (Ok (lit "processed_summary.csv", KpiCsv Sample.summary))
  /\ load_latest_processed Sample.read_csv Sample.stray_fs = Raise ValueError
  /\ Sample.detect (lit "what?") = Raise LangDetectException
  /\ safe_lang Sample.detect (lit "what?") = Ok unknown.
Proof. vm_compute. repeat split. Qed.

Lemma fetch_retries_once_witness :
  exists tok,
    fetch_comments Sample.v None 5000
      (map Response [Sample.page1]
       ++ Raises HttpError :: Raises OtherException :: [Response Sample.page2])
    = (fst (fetch_comments Sample.v None 5000 (map Response [Sample.page1]))
       ++ [ListCall tok; Sleep 5000; ListCall tok],
       Returned (flat_map (page_comments Sample.v) [Sample.page1])).
Proof.
  apply (proj1 (proj2
           (fetch_retries_once Sample.v None 5000 file Sample.read_csv
              Sample.coerce_published Sample.detect))
           [Sample.page1]).
  vm_compute. reflexivity.
Defined.

Lemma fetch_loop_stops_witness :
  (Z.of_nat (length (page_comments Sample.v Sample.page2)) <= 5000)%Z.
Proof.
  apply (proj1 (proj2 (proj2 (proj2 (fetch_loop_stops Sample.v None 5000))))
           [Response Sample.page2]).
  - lia.
  - vm_compute. reflexivity.
Defined.

(** * Further properties *)

(** ** More on [fetch_comments] *)

(** Every answer script is empty, or begins with a page, or with an
    [HttpError] followed by a page, by a second failure or by nothing, or
    with another exception. *)
Lemma answers_ind (Q : list outcome -> Prop) :
  Q [] ->
  (forall resp rest, Q rest -> Q (Response resp :: rest)) ->
  (forall resp rest, Q rest -> Q (Raises HttpError :: Response resp :: rest)) ->
  (forall e rest, Q (Raises HttpError :: Raises e :: rest)) ->
  Q [Raises HttpError] ->
  (forall e rest, e <> HttpError -> Q (Raises e :: rest)) ->
  forall answers, Q answers.
Proof.
  intros Hnil Hresp Hretry Hfail Hlone Hother answers.
  assert (H : forall n answers, length answers <= n -> Q answers).
  { induction n as [|n IH]; intros [|a rest] Hn; auto; [simpl in Hn; lia|].
    simpl in Hn. destruct a as [resp|e].
    - apply Hresp, IH. lia.
    - destruct e; try (apply Hother; discriminate).
      destruct rest as [|[resp|e2] rest2]; auto.
      apply Hretry, IH. simpl in Hn. lia. }
  now apply (H (length answers)).
Qed.

Lemma slice_to_firstn {A} (l : list A) (n : Z) :
  exists k, slice_to l n = firstn k l.
Proof. unfold slice_to. destruct (n <? 0)%Z; eexists; reflexivity. Qed.

Lemma firstn_app_left {A} (k : nat) (a b : list A) :
  exists k', firstn k a = firstn k' (a ++ b).
Proof.
  exists (Nat.min k (length a)). rewrite firstn_app.
  replace (Nat.min k (length a) - length a) with 0 by lia.
  rewrite firstn_O, app_nil_r.
  destruct (Nat.le_ge_cases k (length a)).
  - now rewrite Nat.min_l.
  - rewrite Nat.min_r by assumption. now rewrite !firstn_all2 by lia.
Qed.

Section FetchOrder.

Variable vid : str.
Variable max_pages : option Z.
Variable max_comments : Z.

Local Abbreviation loop := (fetch_loop vid max_pages max_comments).
Local Abbreviation page_of := (page_comments vid).

Lemma loop_returns_prefix (answers : list outcome) :
  forall comments token page cs,
    snd (loop answers comments token page) = Returned cs ->
    exists k, cs = firstn k (comments ++ flat_map page_of (responses answers)).
Proof.
  induction answers as [|resp rest IH|resp rest IH|e rest| |e rest He]
    using answers_ind; intros comments token page cs.
  - discriminate.
  - rewrite loop_response. cbn [responses flat_map].
    destruct (stops_after _ _ _ _ _); cbn [snd emit].
    + intros [= <-]. destruct (slice_to_firstn (comments ++ page_of resp)
                                  max_comments) as [k ->].
      rewrite app_assoc. apply firstn_app_left.
    + intros H. rewrite app_assoc. now apply (IH _ _ _ _ H).
  - rewrite loop_retry_response. cbn [responses flat_map].
    destruct (stops_after _ _ _ _ _); cbn [snd emit].
    + intros [= <-]. destruct (slice_to_firstn (comments ++ page_of resp)
                                  max_comments) as [k ->].
      rewrite app_assoc. apply firstn_app_left.
    + intros H. rewrite app_assoc. now apply (IH _ _ _ _ H).
  - rewrite loop_retry_fails. cbn [snd]. intros [= <-].
    destruct (slice_to_firstn comments max_comments) as [k ->].
    apply firstn_app_left.
  - discriminate.
  - rewrite loop_raises by assumption. discriminate.
Qed.

End FetchOrder.

(** X1: the list [fetch_comments] returns is an initial segment of the
    records of the answered pages, in the order of the pages and of the
    records within them: nothing is reordered or made up. *)
Theorem fetch_returns_prefix (vid : str) (max_pages : option Z)
    (max_comments : Z) (answers : list outcome) (cs : list comment) :
  snd (fetch_comments vid max_pages max_comments answers) = Returned cs ->
  exists k, cs = firstn k (flat_map (page_comments vid) (responses answers)).
Proof. apply loop_returns_prefix. Qed.

Lemma fetch_returns_prefix_witness :
  exists k,
    flat_map (page_comments Sample.v) [Sample.page1; Sample.page2]
    = firstn k (flat_map (page_comments Sample.v)
                  (responses [Response Sample.page1; Raises HttpError;
                              Response Sample.page2])).
Proof.
  apply (fetch_returns_prefix Sample.v None 5000
           [Response Sample.page1; Raises HttpError; Response Sample.page2]).
  vm_compute. reflexivity.
Defined.

Lemma loop_max_pages_zero (vid : str) (max_comments : Z)
    (answers : list outcome) :
  forall comments token page,
    fetch_loop vid (Some 0%Z) max_comments answers comments token page
    = fetch_loop vid None max_comments answers comments token page.
Proof.
  induction answers as [|resp rest IH|resp rest IH|e rest| |e rest He]
    using answers_ind; intros comments token page.
  - reflexivity.
  - rewrite !loop_response.
    change (stops_after (Some 0%Z) max_comments)
      with (stops_after None max_comments).
    now rewrite IH.
  - rewrite !loop_retry_response.
    change (stops_after (Some 0%Z) max_comments)
      with (stops_after None max_comments).
    now rewrite IH.
  - now rewrite !loop_retry_fails.
  - reflexivity.
  - now rewrite !loop_raises.
Qed.

(** X2: [max_pages = 0] is no limit at all: the loop behaves as with
    [max_pages = None]. *)
Theorem max_pages_zero_is_no_limit (vid : str) (max_comments : Z)
    (answers : list outcome) :
  fetch_comments vid (Some 0%Z) max_comments answers
  = fetch_comments vid None max_comments answers.
Proof. apply loop_max_pages_zero. Qed.

Section PageLimit.

Variable vid : str.
Variable n : Z.
Variable max_comments : Z.
Hypothesis n_positive : (0 < n)%Z.

Local Abbreviation loop := (fetch_loop vid (Some n) max_comments).
Local Abbreviation page_of := (page_comments vid).

Lemma loop_within_page_limit (answers : list outcome) :
  forall comments token page cs,
    (0 <= page < n)%Z ->
    snd (loop answers comments token page) = Returned cs ->
    exists k,
      cs = firstn k (comments
                     ++ flat_map page_of
                          (firstn (Z.to_nat (n - page)) (responses answers))).
Proof.
  assert (Hstep : forall resp rest comments page cs,
             (0 <= page < n)%Z ->
             (forall comments token page cs,
                 (0 <= page < n)%Z ->
                 snd (loop rest comments token page) = Returned cs ->
                 exists k,
                   cs = firstn k
                          (comments
                           ++ flat_map page_of
                                (firstn (Z.to_nat (n - page))
                                        (responses rest)))) ->
             snd (if stops_after (Some n) max_comments
                       (comments ++ page_of resp) resp (page + 1)
                  then ([], Returned (slice_to (comments ++ page_of resp)
                                               max_comments))
                  else emit (Sleep 100)
                         (loop rest (comments ++ page_of resp)
                               (nextPageToken resp) (page + 1)%Z))
             = Returned cs ->
             exists k,
               cs = firstn k
                      (comments
                       ++ flat_map page_of
                            (firstn (Z.to_nat (n - page))
                                    (resp :: responses rest)))).
  { intros resp rest comments page cs Hp IH.
    replace (Z.to_nat (n - page)) with (S (Z.to_nat (n - (page + 1)))) by lia.
    cbn [firstn flat_map]. rewrite app_assoc.
    destruct (stops_after _ _ _ _ _) eqn:Hstop; cbn [snd emit].
    - intros [= <-].
      destruct (slice_to_firstn (comments ++ page_of resp) max_comments)
        as [k ->].
      apply firstn_app_left.
    - intros H. apply (IH _ (nextPageToken resp) (page + 1)%Z); [|exact H].
      unfold stops_after, page_limit in Hstop.
      apply orb_false_iff in Hstop as [_ Hstop].
      apply andb_false_iff in Hstop as [Hstop|Hstop].
      + apply negb_false_iff, Z.eqb_eq in Hstop. lia.
      + apply Z.leb_gt in Hstop. lia. }
  induction answers as [|resp rest IH|resp rest IH|e rest| |e rest He]
    using answers_ind; intros comments token page cs Hp.
  - discriminate.
  - rewrite loop_response. cbn [responses snd emit]. now apply Hstep.
  - rewrite loop_retry_response. cbn [responses snd emit]. now apply Hstep.
  - rewrite loop_retry_fails. cbn [snd]. intros [= <-].
    destruct (slice_to_firstn comments max_comments) as [k ->].
    apply firstn_app_left.
  - discriminate.
  - rewrite loop_raises by assumption. discriminate.
Qed.

End PageLimit.

(** X3: with a positive [max_pages] the returned records come from the
    first [max_pages] answered pages only. *)
Theorem max_pages_bounds_pages (vid : str) (n max_comments : Z)
    (answers : list outcome) (cs : list comment) :
  (0 < n)%Z ->
  snd (fetch_comments vid (Some n) max_comments answers) = Returned cs ->
  exists k,
    cs = firstn k (flat_map (page_comments vid)
                     (firstn (Z.to_nat n) (responses answers))).
Proof.
  intros Hn H.
  destruct (loop_within_page_limit vid n max_comments Hn answers
              [] None 0%Z cs) as [k Hk]; [lia | exact H |].
  exists k. now rewrite Z.sub_0_r in Hk.
Qed.

Lemma max_pages_bounds_pages_witness :
  exists k,
    page_comments Sample.v Sample.page1
    = firstn k (flat_map (page_comments Sample.v)
                  (firstn (Z.to_nat 1)
                     (responses [Response Sample.page1;
                                 Response Sample.page2]))).
Proof.
  apply (max_pages_bounds_pages Sample.v 1 5000
           [Response Sample.page1; Response Sample.page2]).
  - lia.
  - vm_compute. reflexivity.
Defined.

Lemma loop_calls_follow_tokens (vid : str) (max_pages : option Z)
    (max_comments : Z) (pages : list response) :
  forall comments token page,
    call_tokens (fst (fetch_loop vid max_pages max_comments
                        (map Response pages) comments token page))
    = firstn (calls (fst (fetch_loop vid max_pages max_comments
                            (map Response pages) comments token page)))
             (token :: map nextPageToken pages).
Proof.
  induction pages as [|resp pages IH]; intros comments token page.
  - reflexivity.
  - cbn [map]. rewrite loop_response.
    destruct (stops_after _ _ _ _ _).
    + reflexivity.
    + cbn [fst emit call_tokens calls filter length firstn].
      f_equal. apply IH.
Qed.

(** X4: answered with pages only, the first call carries no token and
    every later call carries the [nextPageToken] of the page before. *)
Theorem calls_follow_tokens (vid : str) (max_pages : option Z)
    (max_comments : Z) (pages : list response) :
  call_tokens (fst (fetch_comments vid max_pages max_comments
                      (map Response pages)))
  = firstn (calls (fst (fetch_comments vid max_pages max_comments
                          (map Response pages))))
           (None :: map nextPageToken pages).
Proof. apply loop_calls_follow_tokens. Qed.

Lemma loop_never_raises_http_error (vid : str) (max_pages : option Z)
    (max_comments : Z) (answers : list outcome) (e : exn) :
  forall comments token page,
    snd (fetch_loop vid max_pages max_comments answers comments token page)
    = Raised e ->
    e <> HttpError
    /\ exists pre rest,
         answers = pre ++ Raises e :: rest /\ whole_turns pre = true.
Proof.
  induction answers as [|resp rest IH|resp rest IH|e' rest| |e' rest He]
    using answers_ind; intros comments token page.
  - discriminate.
  - rewrite loop_response. destruct (stops_after _ _ _ _ _); cbn [snd emit].
    + discriminate.
    + intros H. destruct (IH _ _ _ H) as [Hne (pre & post & -> & Hpre)].
      split; [assumption|]. now exists (Response resp :: pre), post.
  - rewrite loop_retry_response.
    destruct (stops_after _ _ _ _ _); cbn [snd emit].
    + discriminate.
    + intros H. destruct (IH _ _ _ H) as [Hne (pre & post & -> & Hpre)].
      split; [assumption|].
      now exists (Raises HttpError :: Response resp :: pre), post.
  - rewrite loop_retry_fails. discriminate.
  - discriminate.
  - rewrite loop_raises by assumption. cbn [snd]. intros [= <-].
    split; [assumption|]. now exists [], rest.
Qed.

(** X5: [fetch_comments] never raises [HttpError].  What it raises is an
    exception of another kind raised by the first attempt of a turn: the
    answers before it make up whole turns of the loop (a page, or a
    refused call and the page its retry got), so it is not the answer to
    a retry. *)
Theorem fetch_never_raises_http_error (vid : str) (max_pages : option Z)
    (max_comments : Z) (answers : list outcome) (e : exn) :
  snd (fetch_comments vid max_pages max_comments answers) = Raised e ->
  e <> HttpError
  /\ exists pre rest,
       answers = pre ++ Raises e :: rest /\ whole_turns pre = true.
Proof. apply loop_never_raises_http_error. Qed.

Lemma fetch_never_raises_http_error_witness :
  ValueError <> HttpError
  /\ exists pre rest,
       [Response Sample.page1; Raises HttpError; Response Sample.page1;
        Raises ValueError; Response Sample.page2]
       = pre ++ Raises ValueError :: rest
       /\ whole_turns pre = true.
Proof.
  apply (fetch_never_raises_http_error Sample.v None 5000
           [Response Sample.page1; Raises HttpError; Response Sample.page1;
            Raises ValueError; Response Sample.page2]).
  vm_compute. reflexivity.
Defined.

(** A retry that fails ends the loop without raising, whatever it was
    that the retry raised. *)
Example failed_retry_does_not_raise :
  snd (fetch_comments Sample.v None 5000
         [Response Sample.page1; Raises HttpError; Raises ValueError])
  = Returned (page_comments Sample.v Sample.page1).
Proof. vm_compute. reflexivity. Qed.

(** *** The records *)

Lemma parents_first_nil : parents_first [].
Proof. intros [|x pre] c post p H; discriminate. Qed.

Lemma parents_first_app (a b : list comment) :
  parents_first a -> parents_first b -> parents_first (a ++ b).
Proof.
  intros Ha Hb pre c post p Heq Hp.
  apply app_eq_app in Heq as [l [[Hl1 Hl2]|[Hl1 Hl2]]].
  - destruct l as [|x l].
    + simpl in Hl2. rewrite app_nil_r in Hl1. subst a.
      destruct (Hb [] c post p (eq_sym Hl2) Hp) as [t [[] _]].
    + injection Hl2 as <- Hpost. exact (Ha pre c l p Hl1 Hp).
  - destruct (Hb l c post p Hl2 Hp) as [t [Hin Ht]].
    exists t. split; [|exact Ht]. rewrite Hl1. apply in_or_app. now right.
Qed.

Lemma parents_first_prefix (a b : list comment) :
  parents_first (a ++ b) -> parents_first a.
Proof.
  intros H pre c post p Heq Hp. apply (H pre c (post ++ b) p); [|exact Hp].
  rewrite Heq, <- app_assoc. reflexivity.
Qed.

Lemma parents_first_item (vid : str) (item : thread) :
  parents_first (item_comments vid item).
Proof.
  unfold item_comments. intros [|top pre] c post p Heq Hp.
  - injection Heq as <- _. discriminate.
  - injection Heq as <- Hrest. eexists. split; [now left|].
    split; [reflexivity|].
    assert (Hin : In c (pre ++ c :: post)) by (apply in_or_app; right; now left).
    rewrite <- Hrest in Hin. apply in_map_iff in Hin as [r [<- _]].
    exact Hp.
Qed.

Lemma parents_first_flat_map {A} (f : A -> list comment) (l : list A) :
  (forall a, parents_first (f a)) -> parents_first (flat_map f l).
Proof.
  intros Hf. induction l as [|a l IH]; simpl;
    [apply parents_first_nil | now apply parents_first_app].
Qed.

Lemma video_id_item (vid : str) (item : thread) :
  Forall (fun c => video_id c = vid) (item_comments vid item).
Proof.
  unfold item_comments. constructor; [reflexivity|].
  apply Forall_forall. intros c Hc. now apply in_map_iff in Hc as [r [<- _]].
Qed.

Lemma video_id_pages (vid : str) (pages : list response) :
  Forall (fun c => video_id c = vid) (flat_map (page_comments vid) pages).
Proof.
  apply Forall_flat_map, Forall_forall. intros resp _.
  apply Forall_flat_map, Forall_forall. intros item _. apply video_id_item.
Qed.

Lemma Forall_prefix {A} (P : A -> Prop) (k : nat) (l : list A) :
  Forall P l -> Forall P (firstn k l).
Proof.
  intros H. rewrite <- (firstn_skipn k l) in H.
  now apply Forall_app in H as [H _].
Qed.

(** X6: every record [fetch_comments] returns carries the video id that
    was asked for, and a reply never comes before its parent: a record
    whose [parent_id] is set is preceded by a top-level record with that
    identifier. *)
Theorem fetched_records_well_formed (vid : str) (max_pages : option Z)
    (max_comments : Z) (answers : list outcome) (cs : list comment) :
  snd (fetch_comments vid max_pages max_comments answers) = Returned cs ->
  Forall (fun c => video_id c = vid) cs /\ parents_first cs.
Proof.
  intros H. apply loop_returns_prefix in H as [k ->]. simpl app. split.
  - apply Forall_prefix, video_id_pages.
  - apply (parents_first_prefix _ (skipn k (flat_map (page_comments vid)
                                                (responses answers)))).
    rewrite firstn_skipn. apply parents_first_flat_map. intros resp.
    apply parents_first_flat_map. intros item. apply parents_first_item.
Qed.

Lemma fetched_records_well_formed_witness :
  Forall (fun c => video_id c = Sample.v)
         (flat_map (page_comments Sample.v) [Sample.page1; Sample.page2])
  /\ parents_first
       (flat_map (page_comments Sample.v) [Sample.page1; Sample.page2]).
Proof.
  apply (fetched_records_well_formed Sample.v None 5000
           [Response Sample.page1; Response Sample.page2]).
  vm_compute. reflexivity.
Defined.

(** ** More on the processed table *)

Lemma drop_duplicates_from_first (seen : list (option str)) (l : list comment)
    (c : comment) :
  In c (drop_duplicates_from seen l) ->
  find (fun x => option_str_eqb (comment_id x) (comment_id c)) l = Some c.
Proof.
  revert seen; induction l as [|x l IH]; intros seen; simpl; [tauto|].
  destruct (existsb (option_str_eqb (comment_id x)) seen) eqn:Hs.
  - intros Hin.
    assert (Hfresh : ~ In (comment_id c) seen).
    { apply (drop_duplicates_from_fresh seen l). now apply in_map. }
    destruct (option_str_eqb_spec (comment_id x) (comment_id c)) as [Heq|_].
    + apply seen_spec in Hs. rewrite Heq in Hs. contradiction.
    + now apply (IH seen).
  - intros [<-|Hin].
    + now destruct (option_str_eqb_spec (comment_id x) (comment_id x)).
    + assert (Hfresh : ~ In (comment_id c) (comment_id x :: seen)).
      { apply (drop_duplicates_from_fresh _ l). now apply in_map. }
      destruct (option_str_eqb_spec (comment_id x) (comment_id c)) as [Heq|_].
      * elim Hfresh. now left.
      * now apply (IH (comment_id x :: seen)).
Qed.

Lemma drop_duplicates_from_id (seen : list (option str)) (l : list comment) :
  NoDup (map comment_id l) ->
  (forall id, In id (map comment_id l) -> ~ In id seen) ->
  drop_duplicates_from seen l = l.
Proof.
  revert seen; induction l as [|x l IH]; intros seen Hnd Hdis; simpl;
    [reflexivity|].
  simpl in Hnd. inversion Hnd as [|? ? Hx Hnd']; subst.
  destruct (existsb (option_str_eqb (comment_id x)) seen) eqn:Hs.
  - apply seen_spec in Hs. elim (Hdis (comment_id x)); [now left | exact Hs].
  - f_equal. apply IH; [exact Hnd'|].
    intros id Hin [<-|Hseen]; [contradiction|].
    apply (Hdis id); [now right | exact Hseen].
Qed.

Lemma drop_duplicates_from_length (seen : list (option str))
    (l : list comment) :
  length (drop_duplicates_from seen l) <= length l.
Proof.
  revert seen; induction l as [|x l IH]; intros seen; simpl; [lia|].
  destruct (existsb _ seen); simpl.
  - specialize (IH seen). lia.
  - specialize (IH (comment_id x :: seen)). lia.
Qed.

Lemma derived_length (detect : str -> result str)
    (polarity_scores : str -> scores) (to_datetime : option str -> option Z)
    (l : list comment) (df : list row) :
  Forall2 (derived detect polarity_scores to_datetime) l df ->
  length df = length l.
Proof. intros H. symmetry. now apply (Forall2_length H). Qed.

(** X7: of several fetched records with one identifier the processed
    table keeps the first: each row is built from the first record of the
    fetched list that carries its identifier. *)
Theorem table_keeps_first_occurrence (detect : str -> result str)
    (polarity_scores : str -> scores) (to_datetime : option str -> option Z)
    (comments : list comment) :
  exists df,
    processed_table detect polarity_scores to_datetime comments = Ok df
    /\ forall r, In r df ->
         find (fun x => option_str_eqb (comment_id x) (comment_id (base r)))
              comments
         = Some (base r).
Proof.
  destruct (processed_table_ok detect polarity_scores to_datetime comments)
    as [df [Hdf Hd]].
  exists df. split; [exact Hdf|]. intros r Hr.
  apply (drop_duplicates_from_first []).
  fold (drop_duplicates comments).
  rewrite <- (derived_base _ _ _ _ _ Hd). now apply in_map.
Qed.

(** X8: [drop_duplicates] changes nothing in a list whose identifiers are
    pairwise distinct, so applying it twice is applying it once. *)
Theorem drop_duplicates_idempotent (l : list comment) :
  (NoDup (map comment_id l) -> drop_duplicates l = l)
  /\ drop_duplicates (drop_duplicates l) = drop_duplicates l.
Proof.
  assert (H : forall l, NoDup (map comment_id l) -> drop_duplicates l = l).
  { intros l' Hnd. apply drop_duplicates_from_id; [exact Hnd | auto]. }
  split; [apply H|]. apply H. apply drop_duplicates_from_NoDup.
Qed.

(** ** More on [make_wordcloud] and [run] *)

Section RunOutcome.

Variable detect : str -> result str.
Variable polarity_scores : str -> scores.
Variable pd_to_datetime : list (option str) -> result (option str -> option Z).
Variable lower : str -> str.
Variable mean : list float -> float.
Variable generate : str -> bool.
Variable store : path -> file -> stored.

Local Abbreviation run' :=
  (run detect polarity_scores pd_to_datetime lower mean generate store).
Local Abbreviation table := (processed_table detect polarity_scores).
Local Abbreviation make_wordcloud' := (make_wordcloud lower generate store).

(** X9: a text of at most one character after stripping is left out of a
    word cloud: with it or without it in the series, wherever it stands,
    [make_wordcloud] does the same.  When no other text is there,
    [make_wordcloud] writes no file and raises nothing, whatever the
    renderer and the file system would have done. *)
Theorem make_wordcloud_skips_short_texts (out : path) (label : str)
    (fs : filesystem) :
  (forall pre t post,
      length (strip t) <= 1 ->
      make_wordcloud' (pre ++ t :: post) out label fs
      = make_wordcloud' (pre ++ post) out label fs)
  /\ (forall series,
        (forall t, In t series -> length (strip t) <= 1) ->
        make_wordcloud' series out label fs = (Ok tt, fs)).
Proof.
  split.
  - intros pre t post Ht. unfold make_wordcloud.
    assert (Hs : long_enough t = false).
    { unfold long_enough.
      destruct (Nat.ltb_spec 1 (length (strip t))); [lia | reflexivity]. }
    rewrite !filter_app. cbn [filter]. now rewrite Hs.
  - intros series Hshort. unfold make_wordcloud.
    assert (Hnone : filter long_enough series = []).
    { induction series as [|t series IH]; [reflexivity|]. simpl.
      unfold long_enough at 1.
      destruct (Nat.ltb_spec 1 (length (strip t))) as [Hlt|_].
      - specialize (Hshort t (or_introl eq_refl)). lia.
      - apply IH. intros t' Ht'. apply Hshort. now right. }
    now rewrite Hnone.
Qed.

(** X10: [run] is not all-or-nothing, and each of its steps can be the
    last.  When nothing usable was fetched it writes nothing: an exception
    of the fetch is passed on.  Once records were fetched: if opening the
    raw file raises, nothing is written and the exception is passed on; if
    the dump raises on the way, an incomplete raw file stays; once the raw
    dump is written it stays, whatever happens later; if the conversion of
    the dates raises, the raw dump is all that was written; once the table
    is written it stays, and so does the KPI file once it is written, also
    when a word cloud raises afterwards.  [run] returns, and then the
    processed path, only after all three were written. *)
Theorem run_outcome (vid : str) (max_pages : option Z)
    (max_comments ts : Z) (utcnow : str) (answers : list outcome)
    (fs : filesystem) :
  match snd (fetch_comments vid max_pages max_comments answers) with
  | Returned (c :: cs) =>
      (forall e,
          store (raw_path vid ts) (RawJson (c :: cs)) = Refused e ->
          run' vid max_pages max_comments ts utcnow answers fs
          = (RunRaised e, fs))
      /\ (forall e,
            store (raw_path vid ts) (RawJson (c :: cs)) = Torn e ->
            run' vid max_pages max_comments ts utcnow answers fs
            = (RunRaised e, write (raw_path vid ts) Incomplete fs))
      /\ (store (raw_path vid ts) (RawJson (c :: cs)) = Stored ->
          lookup (raw_path vid ts)
            (snd (run' vid max_pages max_comments ts utcnow answers fs))
          = Some (RawJson (c :: cs))
          /\ (forall e,
                pd_to_datetime (map published (drop_duplicates (c :: cs)))
                = Raise e ->
                run' vid max_pages max_comments ts utcnow answers fs
                = (RunRaised e,
                   write (raw_path vid ts) (RawJson (c :: cs)) fs))
          /\ (forall dates df,
                pd_to_datetime (map published (drop_duplicates (c :: cs)))
                = Ok dates ->
                table dates (c :: cs) = Ok df ->
                store (out_csv_path vid ts) (ProcessedCsv df) = Stored ->
                lookup (out_csv_path vid ts)
                  (snd (run' vid max_pages max_comments ts utcnow answers fs))
                = Some (ProcessedCsv df)
                /\ (store (kpi_path vid ts)
                          (KpiCsv (kpi_of mean vid utcnow df)) = Stored ->
                    lookup (kpi_path vid ts)
                      (snd (run' vid max_pages max_comments ts utcnow
                              answers fs))
                    = Some (KpiCsv (kpi_of mean vid utcnow df))
                    /\ (fst (run' vid max_pages max_comments ts utcnow
                               answers fs)
                        = RunReturned (out_csv_path vid ts)
                        \/ exists e,
                             fst (run' vid max_pages max_comments ts utcnow
                                    answers fs)
                             = RunRaised e))))
      /\ (forall p,
            fst (run' vid max_pages max_comments ts utcnow answers fs)
            = RunReturned p ->
            p = out_csv_path vid ts
            /\ store (raw_path vid ts) (RawJson (c :: cs)) = Stored
            /\ exists dates df,
                 pd_to_datetime (map published (drop_duplicates (c :: cs)))
                 = Ok dates
                 /\ table dates (c :: cs) = Ok df
                 /\ store (out_csv_path vid ts) (ProcessedCsv df) = Stored
                 /\ store (kpi_path vid ts)
                          (KpiCsv (kpi_of mean vid utcnow df)) = Stored)
  | Returned [] =>
      run' vid max_pages max_comments ts utcnow answers fs
      = (RunRaised RuntimeError, fs)
  | Raised e =>
      run' vid max_pages max_comments ts utcnow answers fs
      = (RunRaised e, fs)
  | Pending =>
      run' vid max_pages max_comments ts utcnow answers fs = (RunPending, fs)
  end.
Proof.
  destruct (snd (fetch_comments vid max_pages max_comments answers))
    as [[|c cs]|e|] eqn:Hfetch; try (unfold run; now rewrite Hfetch).
  destruct (output_paths_distinct vid ts)
    as (Hcr & Hck & Hcp & Hcn & Hrk & Hrp & Hrn & Hkp & Hkn & _).
  assert (Hne : forall a b, path_eqb a b = false -> a <> b).
  { intros a b E ->. now rewrite path_eqb_refl in E. }
  assert (Hrc : raw_path vid ts <> out_csv_path vid ts).
  { intros E. rewrite E, path_eqb_refl in Hcr. discriminate. }
  pose proof (run_progress detect polarity_scores pd_to_datetime lower mean
                generate store vid max_pages max_comments ts utcnow answers
                fs c cs Hfetch) as P.
  cbv zeta in P.
  split; [|split; [|split]].
  - intros e He.
    destruct P as [(e' & E & R)|[(e' & E & _)|(E & _)]]; congruence.
  - intros e He.
    destruct P as [(e' & E & _)|[(e' & E & R)|(E & _)]]; congruence.
  - intros Hraw.
    destruct P as [(e' & E & _)|[(e' & E & _)|(_ & P)]]; try congruence.
    split; [|split].
    + destruct P as [(e & _ & ->)|(dates & df & _ & _ & P)];
        [apply lookup_write_same|].
      destruct P
        as [(e & _ & ->)|[(e & _ & ->)|(_ & [(e & _ & ->)|[(e & _ & ->)|P]])]];
        cbn [snd];
        rewrite ?(lookup_write_other _ (kpi_path vid ts)) by (now apply Hne);
        rewrite ?(lookup_write_other _ (out_csv_path vid ts)) by (exact Hrc);
        try apply lookup_write_same.
      destruct P as (_ & _ & Hf & _). rewrite Hf by now apply Hne.
      rewrite (lookup_write_other _ (kpi_path vid ts)) by now apply Hne.
      rewrite (lookup_write_other _ (out_csv_path vid ts)) by exact Hrc.
      apply lookup_write_same.
    + intros e He.
      destruct P as [(e' & E & R)|(dates & df & E & _)]; congruence.
    + intros dates df Hpd Htab Hcsv.
      destruct P as [(e' & E & _)|(dates' & df' & Hpd' & Htab' & P)];
        [congruence|].
      rewrite Hpd in Hpd'. injection Hpd' as <-.
      rewrite Htab in Htab'. injection Htab' as <-.
      destruct P as [(e & E & _)|[(e & E & _)|(_ & P)]]; try congruence.
      split.
      * destruct P as [(e & _ & ->)|[(e & _ & ->)|(_ & _ & Hf & _)]];
          cbn [snd].
        -- apply lookup_write_same.
        -- rewrite lookup_write_other by now apply Hne.
           apply lookup_write_same.
        -- rewrite Hf by now apply Hne.
           rewrite lookup_write_other by now apply Hne.
           apply lookup_write_same.
      * intros Hkpi.
        destruct P as [(e & E & _)|[(e & E & _)|(_ & Hr & Hf & _)]];
          try congruence.
        split; [|exact Hr].
        rewrite Hf by now apply Hne. apply lookup_write_same.
  - intros p Hret.
    destruct P as [(e & _ & E)|[(e & _ & E)|(Hraw & P)]];
      try (rewrite E in Hret; discriminate).
    destruct P as [(e & _ & E)|(dates & df & Hpd & Htab & P)];
      try (rewrite E in Hret; discriminate).
    destruct P
      as [(e & _ & E)|[(e & _ & E)|(Hcsv & [(e & _ & E)|[(e & _ & E)|P]])]];
      try (rewrite E in Hret; discriminate).
    destruct P as (Hkpi & Hr & _).
    split; [destruct Hr as [Hr|[e Hr]]; congruence|].
    split; [exact Hraw|]. now exists dates, df.
Qed.

(** X11: the KPI file counts deduplicated rows.  A KPI file found at the
    KPI path after the call was there before, or it was written by this
    call; then the processed table lies at the processed path,
    [n_comments] is the number of its rows, which is the number of
    fetched records after deduplication, at least one, never more than
    the number of records fetched and, for a non-negative [max_comments],
    never more than [max_comments]; and the video id is the requested
    one. *)
Theorem kpi_counts_table_rows (vid : str) (max_pages : option Z)
    (max_comments ts : Z) (utcnow : str) (answers : list outcome)
    (fs : filesystem) (k : kpi) :
  lookup (kpi_path vid ts)
    (snd (run' vid max_pages max_comments ts utcnow answers fs))
  = Some (KpiCsv k) ->
  lookup (kpi_path vid ts) fs = Some (KpiCsv k)
  \/ exists comments dates df,
       snd (fetch_comments vid max_pages max_comments answers)
       = Returned comments
       /\ pd_to_datetime (map published (drop_duplicates comments)) = Ok dates
       /\ table dates comments = Ok df
       /\ lookup (out_csv_path vid ts)
            (snd (run' vid max_pages max_comments ts utcnow answers fs))
          = Some (ProcessedCsv df)
       /\ k_video_id k = vid
       /\ n_comments k = length df
       /\ length df = length (drop_duplicates comments)
       /\ 0 < length df <= length comments
       /\ ((0 <= max_comments)%Z -> (Z.of_nat (length df) <= max_comments)%Z).
Proof.
  intros Hk.
  destruct (snd (fetch_comments vid max_pages max_comments answers))
    as [[|c cs]|e|] eqn:Hfetch;
    try (left; revert Hk; unfold run; now rewrite Hfetch).
  destruct (output_paths_distinct vid ts)
    as (Hcr & Hck & Hcp & Hcn & Hrk & Hrp & Hrn & Hkp & Hkn & _).
  assert (Hne : forall a b, path_eqb a b = false -> a <> b).
  { intros a b E ->. now rewrite path_eqb_refl in E. }
  pose proof (run_progress detect polarity_scores pd_to_datetime lower mean
                generate store vid max_pages max_comments ts utcnow answers
                fs c cs Hfetch) as P.
  cbv zeta in P.
  destruct P as [(e & _ & E)|[(e & _ & E)|(_ & [(e & _ & E)|(dates & df & Hpd & Htab & P)])]];
    try (rewrite E in Hk; cbn [snd] in Hk; unwind Hk; now left).
  destruct P as [(e & _ & E)|[(e & _ & E)|(_ & [(e & _ & E)|[(e & _ & E)|P]])]];
    try (rewrite E in Hk; cbn [snd] in Hk; unwind Hk; now left).
  destruct P as (_ & _ & Hf & Hl).
  apply Hl in Hk.
  destruct Hk as [Hk|[[E|E] _]];
    [| rewrite E, path_eqb_refl in Hkp; discriminate
     | rewrite E, path_eqb_refl in Hkn; discriminate].
  rewrite lookup_write_same in Hk. injection Hk as <-.
  right. exists (c :: cs), dates, df.
  split; [reflexivity|]. split; [exact Hpd|]. split; [exact Htab|].
  split.
  { rewrite Hf by now apply Hne.
    rewrite lookup_write_other by now apply Hne. apply lookup_write_same. }
  split; [reflexivity|]. split; [reflexivity|].
  destruct (processed_table_ok detect polarity_scores dates (c :: cs))
    as [df' [Htab' Hd]].
  rewrite Htab in Htab'. injection Htab' as <-.
  pose proof (derived_length _ _ _ _ _ Hd) as Hlen.
  pose proof (drop_duplicates_from_length [] (c :: cs)) as Hle.
  fold (drop_duplicates (c :: cs)) in Hle.
  split; [exact Hlen|]. split.
  - rewrite Hlen. split; [|exact Hle]. simpl. lia.
  - intros Hcap.
    pose proof (loop_bound_upto vid max_pages max_comments (length answers)
                  answers [] None 0%Z (c :: cs) (Nat.le_refl _) Hcap Hfetch).
    lia.
Qed.

End RunOutcome.

Lemma make_wordcloud_skips_short_texts_witness :
  make_wordcloud Sample.lower Sample.generate Sample.store
    ([lit "good"] ++ lit " a " :: [lit "fine"]) (pos_path Sample.v 1)
    Positive []
  = make_wordcloud Sample.lower Sample.generate Sample.store
      ([lit "good"] ++ [lit "fine"]) (pos_path Sample.v 1) Positive [].
Proof.
  apply (proj1 (make_wordcloud_skips_short_texts Sample.lower Sample.generate
                  Sample.store (pos_path Sample.v 1) Positive [])).
  vm_compute. lia.
Defined.

(** The mixed series of the witness does get rendered, from the two long
    texts alone; a series of short texts is skipped. *)
Example make_wordcloud_samples :
  make_wordcloud Sample.lower Sample.generate Sample.store
    ([lit "good"] ++ lit " a " :: [lit "fine"]) (pos_path Sample.v 1)
    Positive []
  = (Ok tt,
     [(pos_path Sample.v 1,
       WordcloudPng (lit "good fine") (lit "Greens")
         (lit "Most Frequent Words in Positive Comments"))])
  /\ make_wordcloud Sample.lower Sample.no_words Sample.store
       [lit " a "; lit ""; lit "?"] (pos_path Sample.v 1) Positive []
     = (Ok tt, []).
Proof. vm_compute. split; reflexivity. Qed.

(** ** Names never collide *)

(** X12: a run never touches the output files of a run started in another
    second, nor those of a run for another video when neither id has a
    slash: the paths differ, so a table, a raw dump, a KPI file or a word
    cloud, once written, stays as it is. *)
Theorem run_keeps_other_outputs (detect : str -> result str)
    (polarity_scores : str -> scores)
    (pd_to_datetime : list (option str) -> result (option str -> option Z))
    (lower : str -> str) (mean : list float -> float) (generate : str -> bool)
    (store : path -> file -> stored)
    (vid : str) (max_pages : option Z) (max_comments ts : Z) (utcnow : str)
    (answers : list outcome) (fs : filesystem)
    (vid0 : str) (ts0 : Z) (p : path) :
  In p (output_paths vid0 ts0) ->
  ts0 <> ts \/ (vid0 <> vid /\ plain vid0 = true /\ plain vid = true) ->
  lookup p (snd (run detect polarity_scores pd_to_datetime lower mean generate
                     store vid max_pages max_comments ts utcnow answers fs))
  = lookup p fs.
Proof.
  intros Hp Hother.
  destruct (run_frame detect polarity_scores pd_to_datetime lower mean
              generate store vid max_pages max_comments ts utcnow answers
              fs p) as [Hin|H];
    [|exact H].
  destruct (output_paths_disjoint _ _ _ _ _ Hp Hin) as [Ht Hv].
  destruct Hother as [H|(H & P0 & P)]; [now elim H | elim H; now apply Hv].
Qed.

Lemma run_keeps_other_outputs_witness :
  lookup (out_csv_path (lit "zzz") 1700000001)
    (snd (Sample.pipeline (lit "abc") None 5000 1700000001 Sample.utcnow
            [Response Sample.page2] Sample.after_zzz_again))
  = lookup (out_csv_path (lit "zzz") 1700000001) Sample.after_zzz_again.
Proof.
  apply (run_keeps_other_outputs Sample.detect Sample.polarity_scores
           Sample.pd_to_datetime Sample.lower Sample.mean Sample.generate
           Sample.store
           (lit "abc") None 5000 1700000001 Sample.utcnow
           [Response Sample.page2] Sample.after_zzz_again
           (lit "zzz") 1700000001).
  - right. left. reflexivity.
  - right. split; [discriminate | split; reflexivity].
Defined.

(** With slashes in the identifiers two videos can share their paths:
    [pathlib] drops an empty level. *)
Example slashed_ids_share_paths :
  output_paths (lit "a/b") 1700000000 = output_paths (lit "a//b") 1700000000.
Proof. vm_compute. reflexivity. Qed.

(** ** More on [clean_text] *)

Section CleanTextMore.
Import Re ReFacts PatternFacts.

Lemma clean_text_fixed (t : str) :
  search url_re t = None -> search entity_re t = None ->
  single_spaced t = true -> leading_ws t = false -> trailing_ws t = false ->
  clean_text t = t.
Proof.
  intros Hu He Hs Hl Ht. unfold clean_text.
  rewrite (sub_id url_re [space] t Hu), (sub_id entity_re [space] t He).
  rewrite (sub_ws_id t Hs). now apply strip_id.
Qed.

(** X13: the strings [clean_text] leaves as they are are exactly those
    without a match of the URL pattern or of the entity pattern, with
    single U+0020 as only whitespace and none of it at either end. *)
Theorem clean_text_fixed_points (t : str) :
  clean_text t = t <->
  search url_re t = None /\ search entity_re t = None
  /\ single_spaced t = true /\ leading_ws t = false /\ trailing_ws t = false.
Proof.
  split.
  - intros H. rewrite <- H.
    split; [apply clean_text_no_url|].
    split; [apply clean_text_no_entity|].
    split; [apply clean_text_single_spaced|].
    unfold clean_text. split; [apply leading_ws_strip | apply trailing_ws_strip].
  - intros (Hu & He & Hs & Hl & Ht). now apply clean_text_fixed.
Qed.

Lemma sub_from_length (p : pattern) (c : N) (s : str) :
  forall k, length (sub_from p [c] k s) <= length s.
Proof.
  induction s as [|x s IH]; intros k; simpl; [lia|].
  destruct k as [|k]; [|specialize (IH k); lia].
  destruct (p (x :: s)) as [[|n]|]; simpl.
  - specialize (IH 0). lia.
  - specialize (IH n). lia.
  - specialize (IH 0). lia.
Qed.

Lemma strip_length (s : str) : length (strip s) <= length s.
Proof.
  unfold strip. destruct (lstrip_spec s) as [a [Ha _]].
  destruct (rstrip_spec (lstrip s)) as [b [Hb _]].
  apply (f_equal (@length N)) in Ha, Hb. rewrite length_app in Ha, Hb. lia.
Qed.

(** X14: [clean_text] never makes a string longer. *)
Theorem clean_text_length (t : str) : length (clean_text t) <= length t.
Proof.
  unfold clean_text, sub.
  pose proof (sub_from_length url_re space t 0).
  pose proof (sub_from_length entity_re space (sub_from url_re [space] 0 t) 0).
  pose proof (sub_from_length ws_re space
                (sub_from entity_re [space] 0 (sub_from url_re [space] 0 t)) 0).
  pose proof (strip_length
                (sub_from ws_re [space] 0
                   (sub_from entity_re [space] 0
                      (sub_from url_re [space] 0 t)))).
  lia.
Qed.

(** What a substitution of spaces yields was in the input or is a space. *)
Lemma sub_from_chars (p : pattern) (s : str) (x : N) :
  forall k, In x (sub_from p [space] k s) -> x = space \/ In x s.
Proof.
  induction s as [|c s IH]; intros k; simpl; [tauto|].
  destruct k as [|k].
  - destruct (p (c :: s)) as [[|n]|]; simpl;
      intros [H|H]; auto; apply IH in H; tauto.
  - intros H. apply IH in H. tauto.
Qed.

Lemma sub_all_ws (p : pattern) (s : str) :
  forallb isspace s = true -> forallb isspace (sub p [space] s) = true.
Proof.
  rewrite !forallb_forall. intros H x Hx.
  apply sub_from_chars in Hx as [->|Hx]; [reflexivity | now apply H].
Qed.

Lemma clean_text_blank (t : str) :
  forallb isspace t = true -> clean_text t = [].
Proof.
  intros H. unfold clean_text. apply strip_all_ws. now do 3 apply sub_all_ws.
Qed.

End CleanTextMore.

(** X15: a record whose text is missing, empty or nothing but whitespace
    gets an empty [clean_comment] and the language ["unknown"], whatever
    the detector would say. *)
Theorem blank_comment_is_unknown (detect : str -> result str)
    (polarity_scores : str -> scores) (to_datetime : option str -> option Z)
    (c : comment) :
  forallb isspace (get_or (comment_text c) []) = true ->
  exists r,
    annotate detect polarity_scores to_datetime c = Ok r
    /\ clean_comment r = [] /\ lang r = unknown
    /\ sentiment_vader r = vader_label (compound (polarity_scores [])).
Proof.
  intros H. unfold annotate. rewrite (clean_text_blank _ H).
  rewrite safe_lang_ok. simpl. eexists. repeat split.
Qed.

Lemma blank_comment_is_unknown_witness :
  exists r,
    annotate (fun _ => Raise LangDetectException) Sample.polarity_scores
      Sample.to_datetime
      (record_of Sample.v (Some (lit "c9")) None
         {| sn_id := None; authorDisplayName := None;
            textDisplay := Some [9; 32; 160; 8195; 10]%N;
            likeCount := None; publishedAt := None |})
    = Ok r
    /\ clean_comment r = [] /\ lang r = unknown
    /\ sentiment_vader r
       = vader_label (compound (Sample.polarity_scores [])).
Proof.
  apply (blank_comment_is_unknown (fun _ => Raise LangDetectException)
           Sample.polarity_scores Sample.to_datetime).
  vm_compute. reflexivity.
Defined.

(** ** The readers *)

Lemma has_label_spec (l : str) (r : row) :
  has_label l r = true <-> sentiment_vader r = l.
Proof. unfold has_label. now destruct (str_eqb_spec (sentiment_vader r) l). Qed.

Lemma label_counts_row (r : row) :
  (if has_label Positive r then 1 else 0)
  + (if has_label Neutral r then 1 else 0)
  + (if has_label Negative r then 1 else 0) <= 1
  /\ ((exists c, sentiment_vader r = vader_label c) ->
      (if has_label Positive r then 1 else 0)
      + (if has_label Neutral r then 1 else 0)
      + (if has_label Negative r then 1 else 0) = 1).
Proof.
  unfold has_label.
  destruct (str_eqb_spec (sentiment_vader r) Positive) as [HP|HP],
           (str_eqb_spec (sentiment_vader r) Neutral) as [HU|HU],
           (str_eqb_spec (sentiment_vader r) Negative) as [HN|HN];
    try (rewrite HP in *; discriminate);
    try (rewrite HU in *; discriminate);
    (split; [simpl; lia|]); intros [c Hc]; try reflexivity.
  exfalso. unfold vader_label in Hc.
  destruct (threshold <=? c)%float; [congruence|].
  destruct (c <=? - threshold)%float; congruence.
Qed.

Lemma sentiment_counts_total (df : list row) :
  list_sum (map snd (sentiment_counts df))
  = list_sum
      (map (fun r => (if has_label Positive r then 1 else 0)
                     + (if has_label Neutral r then 1 else 0)
                     + (if has_label Negative r then 1 else 0)) df).
Proof.
  unfold sentiment_counts, list_sum. cbn [map snd fold_right].
  induction df as [|r df IH]; [reflexivity|]. cbn [filter map fold_right].
  destruct (has_label Positive r), (has_label Neutral r),
    (has_label Negative r); cbn [length]; lia.
Qed.

(** X16: the three bars of the sentiment distribution never count a row
    twice, and for a table built by [run] they account for every row:
    Positive, Neutral and Negative counts add up to the number of rows. *)
Theorem sentiment_counts_cover_table (detect : str -> result str)
    (polarity_scores : str -> scores) (to_datetime : option str -> option Z) :
  (forall df, list_sum (map snd (sentiment_counts df)) <= length df)
  /\ (forall comments, exists df,
        processed_table detect polarity_scores to_datetime comments = Ok df
        /\ list_sum (map snd (sentiment_counts df)) = length df).
Proof.
  split.
  - intros df. rewrite sentiment_counts_total.
    unfold list_sum.
    induction df as [|r df IH]; [simpl; lia|]. cbn [map fold_right length].
    destruct (label_counts_row r) as [H _]. lia.
  - intros comments.
    destruct (processed_table_ok detect polarity_scores to_datetime comments)
      as [df [Hdf Hd]].
    exists df. split; [exact Hdf|]. apply derived_label in Hd.
    rewrite sentiment_counts_total. unfold list_sum. clear Hdf.
    induction Hd as [|r df Hr _ IH]; [reflexivity|].
    cbn [map fold_right length].
    destruct (label_counts_row r) as [_ H].
    specialize (H (ex_intro _ (compound (row_scores r)) Hr)). lia.
Qed.

Section TopNegativeFacts.

Variable sort_values : list row -> list row.
Variable df : list row.

Local Abbreviation negatives := (filter (has_label Negative) df).

(** [sort_values] rearranges, most liked first. *)
Hypothesis sort_keeps :
  forall r, In r (sort_values negatives) <-> In r negatives.
Hypothesis sort_orders :
  forall pre a post b,
    sort_values negatives = pre ++ a :: post -> In b post ->
    (likes (base b) <= likes (base a))%Z.

(** X17: the table of top negative comments has at most fifty rows, all of
    them Negative rows of the frame, the most liked first, and no Negative
    row that was left out has more likes than a row that is listed; it is
    written to [data/outputs/top_negative_comments.csv]. *)
Theorem top_negative_is_top :
  fst (top_negative_table sort_values df)
  = child OUT_DIR (lit "top_negative_comments.csv")
  /\ snd (top_negative_table sort_values df)
     = map negative_columns (top_negative sort_values df)
  /\ length (top_negative sort_values df) <= 50
  /\ (forall r, In r (top_negative sort_values df) ->
        In r df /\ sentiment_vader r = Negative)
  /\ (forall pre a post b,
        top_negative sort_values df = pre ++ a :: post -> In b post ->
        (likes (base b) <= likes (base a))%Z)
  /\ (forall r s,
        In r df -> sentiment_vader r = Negative ->
        ~ In r (top_negative sort_values df) ->
        In s (top_negative sort_values df) ->
        (likes (base r) <= likes (base s))%Z).
Proof.
  unfold top_negative.
  pose proof (firstn_skipn 50 (sort_values negatives)) as Hsplit.
  split; [reflexivity|]. split; [reflexivity|].
  split; [rewrite length_firstn; lia|].
  split; [|split].
  - intros r Hr.
    assert (Hin : In r negatives).
    { apply sort_keeps. rewrite <- Hsplit. apply in_or_app. now left. }
    apply filter_In in Hin as [Hin Hl]. split; [exact Hin|].
    now apply has_label_spec.
  - intros pre a post b Heq Hb.
    apply (sort_orders pre a (post ++ skipn 50 (sort_values negatives)) b).
    + rewrite <- Hsplit at 1. rewrite Heq, <- app_assoc. reflexivity.
    + apply in_or_app. now left.
  - intros r s Hr Hneg Hout Hs.
    assert (Hin : In r (sort_values negatives)).
    { apply sort_keeps, filter_In. split; [exact Hr|].
      now apply has_label_spec. }
    rewrite <- Hsplit in Hin. apply in_app_or in Hin as [Hin|Hin];
      [contradiction|].
    apply in_split in Hs as [pre [post Hs]].
    apply (sort_orders pre s (post ++ skipn 50 (sort_values negatives)) r).
    + rewrite <- Hsplit at 1. rewrite Hs, <- app_assoc. reflexivity.
    + apply in_or_app. now right.
Qed.

End TopNegativeFacts.

Lemma unique_In (seen l : list str) (x : str) :
  In x (unique seen l) -> In x l.
Proof.
  revert seen; induction l as [|y l IH]; intros seen; simpl; [tauto|].
  destruct (existsb (str_eqb y) seen); [intros H; right; now apply (IH seen)|].
  intros [H|H]; [now left | right; now apply (IH _ H)].
Qed.

(** X18: every language the dashboard offers besides ["all"] occurs in the
    table, so choosing it leaves at least one row, and ["unknown"] is
    never offered; choosing ["all"] leaves the table as it is. *)
Theorem offered_languages_have_rows (df : list row) :
  (forall choice,
      In choice (langs df) -> choice <> lit "all" ->
      choice <> unknown
      /\ filter_lang choice df <> []
      /\ forall r, In r (filter_lang choice df) -> lang r = choice /\ In r df)
  /\ filter_lang (lit "all") df = df.
Proof.
  split; [|reflexivity].
  intros choice [<-|Hin] Hne; [congruence|].
  apply sorted_In, filter_In in Hin as [Hin Hunk].
  apply unique_In, in_map_iff in Hin as [r0 [Hr0 Hin]].
  split.
  { intros ->. vm_compute in Hunk. discriminate. }
  unfold filter_lang.
  destruct (str_eqb_spec choice (lit "all")) as [->|_]; [congruence|].
  cbn [negb]. split.
  - intros Hnil.
    assert (H : In r0 (filter (fun r => str_eqb (lang r) choice) df)).
    { apply filter_In. split; [exact Hin|].
      now destruct (str_eqb_spec (lang r0) choice). }
    rewrite Hnil in H. destruct H.
  - intros r Hr. apply filter_In in Hr as [Hr Hl]. split; [|exact Hr].
    now destruct (str_eqb_spec (lang r) choice).
Qed.

Section EmptyDirectory.

Variable frame : Type.
Variable read_csv : option file -> read_mode -> result frame.
Variable coerce_published : frame -> frame.

(** X19: without a [processed_*.csv] in the processed directory (other
    files do not count) [load_latest_processed] raises
    [FileNotFoundError], and the dashboard and the diagnostic script stop
    before reading anything; the two scripts stop only then. *)
Theorem readers_without_table (fs : filesystem) :
  (glob_processed fs = [] ->
   load_latest_processed read_csv fs = Raise FileNotFoundError)
  /\ (app_streamlit_load read_csv coerce_published fs = None
      <-> glob_processed fs = [])
  /\ (check_processed_load read_csv fs = None <-> glob_processed fs = []).
Proof.
  unfold load_latest_processed, app_streamlit_load, check_processed_load.
  pose proof (last_sorted_none (glob_processed fs)) as Hnone.
  destruct (last_sorted (glob_processed fs)) as [f|].
  - assert (Hne : glob_processed fs <> []).
    { intros H. apply Hnone in H. discriminate. }
    split; [intros H; contradiction|].
    split; (split; [discriminate | intros H; contradiction]).
  - assert (He : glob_processed fs = []) by now apply Hnone.
    split; [reflexivity|]. split; tauto.
Qed.

End EmptyDirectory.

(** ** The properties at work on the samples *)

Lemma kpi_counts_table_rows_witness :
  length Sample.fetched = 4
  /\ n_comments (kpi_of Sample.mean Sample.v Sample.utcnow Sample.table) = 3
  /\ (lookup (kpi_path Sample.v 1700000000) []
      = Some (KpiCsv (kpi_of Sample.mean Sample.v Sample.utcnow Sample.table))
      \/ exists comments dates df,
           snd (fetch_comments Sample.v None 5000
                  [Response Sample.page1; Response Sample.page2])
           = Returned comments
           /\ Sample.pd_to_datetime (map published (drop_duplicates comments))
              = Ok dates
           /\ processed_table Sample.detect Sample.polarity_scores dates
                comments = Ok df
           /\ lookup (out_csv_path Sample.v 1700000000)
                (snd (Sample.pipeline Sample.v None 5000 1700000000
                        Sample.utcnow
                        [Response Sample.page1; Response Sample.page2] []))
              = Some (ProcessedCsv df)
           /\ k_video_id
                (kpi_of Sample.mean Sample.v Sample.utcnow Sample.table)
              = Sample.v
           /\ n_comments
                (kpi_of Sample.mean Sample.v Sample.utcnow Sample.table)
              = length df
           /\ length df = length (drop_duplicates comments)
           /\ 0 < length df <= length comments
           /\ ((0 <= 5000)%Z -> (Z.of_nat (length df) <= 5000)%Z)).
Proof.
  split; [reflexivity|]. split; [reflexivity|].
  apply (kpi_counts_table_rows Sample.detect Sample.polarity_scores
           Sample.pd_to_datetime Sample.lower Sample.mean Sample.generate
           Sample.store Sample.v None 5000 1700000000 Sample.utcnow
           [Response Sample.page1; Response Sample.page2] []).
  vm_compute. reflexivity.
Defined.

Lemma top_negative_is_top_witness :
  fst (top_negative_table SampleTable.sort_values SampleTable.table)
  = child OUT_DIR (lit "top_negative_comments.csv")
  /\ snd (top_negative_table SampleTable.sort_values SampleTable.table)
     = map negative_columns
           (top_negative SampleTable.sort_values SampleTable.table)
  /\ length (top_negative SampleTable.sort_values SampleTable.table) <= 50
  /\ (forall r,
        In r (top_negative SampleTable.sort_values SampleTable.table) ->
        In r SampleTable.table /\ sentiment_vader r = Negative)
  /\ (forall pre a post b,
        top_negative SampleTable.sort_values SampleTable.table
        = pre ++ a :: post ->
        In b post -> (likes (base b) <= likes (base a))%Z)
  /\ (forall r s,
        In r SampleTable.table -> sentiment_vader r = Negative ->
        ~ In r (top_negative SampleTable.sort_values SampleTable.table) ->
        In s (top_negative SampleTable.sort_values SampleTable.table) ->
        (likes (base r) <= likes (base s))%Z).
Proof.
  apply (top_negative_is_top SampleTable.sort_values SampleTable.table).
  - intros r. vm_compute. tauto.
  - intros pre a post b Heq Hb. vm_compute in Heq.
    destruct pre as [|x [|y pre]]; simpl in Heq.
    + injection Heq as <- <-. destruct Hb as [<-|[]]. vm_compute. discriminate.
    + injection Heq as _ <- <-. destruct Hb.
    + injection Heq as _ _ Heq. destruct pre; discriminate.
Defined.

(** ** Symmetry of the thresholds *)

Lemma SFcompare_opp (x y : spec_float) :
  SFcompare (SFopp x) (SFopp y) = SFcompare y x.
Proof.
  destruct x as [s1|s1| |s1 m1 e1], y as [s2|s2| |s2 m2 e2]; simpl;
    try reflexivity; try (destruct s1; reflexivity);
    try (destruct s2; reflexivity);
    try (destruct s1, s2; reflexivity).
  destruct s1, s2; simpl; try reflexivity; f_equal;
    rewrite (Z.compare_antisym e1 e2);
    destruct (e1 ?= e2)%Z; simpl; try reflexivity.
  all: try (symmetry; apply (Pos.compare_cont_antisym m2 m1 Eq)).
  all: apply (Pos.compare_cont_antisym m1 m2 Eq).
Qed.

Lemma leb_opp (x y : float) : (- x <=? - y)%float = (y <=? x)%float.
Proof.
  rewrite !leb_spec, !opp_spec. unfold SFleb. now rewrite SFcompare_opp.
Qed.

(** X20: the two thresholds mirror each other: negating the compound
    score turns Positive into Negative and back and leaves Neutral. *)
Theorem vader_label_negation (c : float) :
  (vader_label (- c) = Positive <-> vader_label c = Negative)
  /\ (vader_label (- c) = Negative <-> vader_label c = Positive)
  /\ (vader_label (- c) = Neutral <-> vader_label c = Neutral).
Proof.
  assert (H1 : (threshold <=? - c)%float = (c <=? - threshold)%float).
  { change threshold with (- (- threshold))%float at 1. apply leb_opp. }
  assert (H2 : (- c <=? - threshold)%float = (threshold <=? c)%float)
    by apply leb_opp.
  rewrite !vader_label_positive, !vader_label_negative, !vader_label_neutral.
  rewrite H1, H2. tauto.
Qed.

(** ** [clean_text] keeps the words *)

Section Words.
Import Re ReFacts PatternFacts.

Lemma join_cons (w : str) (T : list str) :
  join [space] (w :: T)
  = w ++ match T with [] => [] | _ => space :: join [space] T end.
Proof. destruct T; simpl; [now rewrite app_nil_r | reflexivity]. Qed.

Lemma tokens_from_nonempty (s cur : str) :
  Forall (fun w => w <> []) (tokens_from cur s).
Proof.
  assert (Hrev : forall c (cur : str), rev (c :: cur) <> []).
  { intros c cur' H. apply (f_equal (@length N)) in H.
    simpl in H. rewrite length_app in H. simpl in H. lia. }
  revert cur; induction s as [|c s IH]; intros cur; simpl.
  - destruct cur; constructor; [apply Hrev | constructor].
  - destruct (isspace c); [|apply IH].
    destruct cur; [apply IH|]. constructor; [apply Hrev | apply IH].
Qed.

Lemma join_nil_iff (s cur : str) :
  join [space] (tokens_from cur s) = [] <-> tokens_from cur s = [].
Proof.
  split; [|now intros ->].
  pose proof (tokens_from_nonempty s cur) as H.
  destruct (tokens_from cur s) as [|w T]; [reflexivity|].
  rewrite join_cons. inversion H as [|? ? Hw _]; subst.
  destruct w; [congruence | discriminate].
Qed.

Lemma lstrip_app (a b : str) :
  lstrip (a ++ b)
  = match lstrip a with [] => lstrip b | _ => lstrip a ++ b end.
Proof.
  induction a as [|y a IH]; simpl; [reflexivity|].
  destruct (isspace y); [exact IH | reflexivity].
Qed.

Lemma rstrip_cons (c : N) (x : str) :
  rstrip (c :: x)
  = match rstrip x with
    | [] => if isspace c then [] else [c]
    | _ => c :: rstrip x
    end.
Proof.
  unfold rstrip. simpl rev. rewrite lstrip_app.
  destruct (lstrip (rev x)) as [|d l] eqn:Hl.
  - simpl. now destruct (isspace c).
  - rewrite rev_app_distr. change (rev [c]) with [c]. cbn [app].
    destruct (rev (d :: l)) eqn:Hr; [|reflexivity].
    apply (f_equal (@length N)) in Hr. rewrite length_rev in Hr. discriminate.
Qed.

Lemma rstrip_cons_nonspace (c : N) (x : str) :
  isspace c = false -> rstrip (c :: x) = c :: rstrip x.
Proof. intros H. rewrite rstrip_cons, H. now destruct (rstrip x). Qed.

Lemma lstrip_skips_span (s : str) : skipn (span isspace s) s = lstrip s.
Proof.
  induction s as [|c s IH]; simpl; [reflexivity|].
  destruct (isspace c); [exact IH | reflexivity].
Qed.

(** The text with whitespace runs replaced, without trailing whitespace. *)
Local Abbreviation squeezed s := (rstrip (sub ws_re [space] s)).

Lemma squeezed_at_space (c : N) (s : str) :
  isspace c = true ->
  squeezed (c :: s)
  = match squeezed (lstrip s) with
    | [] => []
    | _ => space :: squeezed (lstrip s)
    end.
Proof.
  intros Hc.
  rewrite (sub_match ws_re [space] c s (span isspace s))
    by now rewrite ws_at, Hc.
  rewrite lstrip_skips_span. simpl app. now rewrite rstrip_cons.
Qed.

Lemma squeezed_at_nonspace (c : N) (s : str) :
  isspace c = false -> squeezed (c :: s) = c :: squeezed s.
Proof.
  intros Hc.
  rewrite sub_nomatch by (unfold matches_at; now rewrite ws_at, Hc).
  now apply rstrip_cons_nonspace.
Qed.

Lemma words_joined (s : str) :
  (forall cur, cur <> [] ->
     join [space] (tokens_from cur s) = rev cur ++ squeezed s)
  /\ join [space] (tokens_from [] s) = squeezed (lstrip s).
Proof.
  induction s as [|c s [IHA IHB]].
  - split; [|reflexivity]. intros [|x cur] Hcur; [congruence|].
    simpl. now rewrite app_nil_r.
  - destruct (isspace c) eqn:Hc.
    + split.
      * intros [|x cur] Hcur; [congruence|]. simpl tokens_from. rewrite Hc.
        rewrite join_cons, squeezed_at_space by exact Hc. f_equal.
        rewrite <- IHB.
        destruct (tokens_from [] s) as [|w T] eqn:HT; [reflexivity|].
        destruct (join [space] (w :: T)) eqn:HJ; [|reflexivity].
        rewrite <- HT in HJ. apply join_nil_iff in HJ. congruence.
      * simpl. now rewrite Hc.
    + split.
      * intros cur Hcur. simpl tokens_from. rewrite Hc.
        rewrite IHA by discriminate.
        rewrite squeezed_at_nonspace by exact Hc.
        simpl rev. now rewrite <- app_assoc.
      * simpl tokens_from. simpl lstrip. rewrite Hc.
        rewrite IHA by discriminate.
        now rewrite squeezed_at_nonspace by exact Hc.
Qed.

Lemma lstrip_sub_ws (s : str) :
  lstrip (sub ws_re [space] s) = sub ws_re [space] (lstrip s).
Proof.
  destruct s as [|c s]; [reflexivity|]. simpl lstrip.
  destruct (isspace c) eqn:Hc.
  - rewrite (sub_match ws_re [space] c s (span isspace s))
      by now rewrite ws_at, Hc.
    rewrite lstrip_skips_span. simpl. apply lstrip_id, sub_ws_leading.
    rewrite <- lstrip_skips_span. apply leading_ws_after_span.
  - rewrite sub_nomatch by (unfold matches_at; now rewrite ws_at, Hc).
    simpl. now rewrite Hc.
Qed.

Lemma strip_sub_ws_words (s : str) :
  strip (sub ws_re [space] s) = join [space] (tokens s).
Proof.
  unfold strip, tokens. rewrite lstrip_sub_ws.
  symmetry. apply (proj2 (words_joined s)).
Qed.

(** X21: [clean_text t] is [" ".join(u.split())] for the text [u] that
    the two substitutions leave: the words of [u], each as it is, with
    one space between them.  A text without a match of either pattern
    keeps all its words. *)
Theorem clean_text_joins_words (t : str) :
  clean_text t
  = join [space] (tokens (sub entity_re [space] (sub url_re [space] t)))
  /\ (search url_re t = None -> search entity_re t = None ->
      clean_text t = join [space] (tokens t)).
Proof.
  split; [apply strip_sub_ws_words|].
  intros Hu He. unfold clean_text.
  rewrite (sub_id url_re [space] t Hu), (sub_id entity_re [space] t He).
  apply strip_sub_ws_words.
Qed.

End Words.

Example clean_text_words :
  tokens (lit "  a  good	video ") = [lit "a"; lit "good"; lit "video"]
  /\ clean_text (lit "  a  good	video ") = lit "a good video".
Proof. vm_compute. split; reflexivity. Qed.
